(** * pgblob: transaction layer, blob storage and error translation

    A shallow embedding of the Go sources of pgblob (a PostgreSQL wire
    front end over SQLite whose database file lives in blob storage) and
    the properties of its transaction state machine, local blob backend,
    database cache and error translator.

    Conventions of the embedding:
    - a Go [string] is a byte string ([string] of [ascii] bytes), text
      being UTF-8: [strings.ToUpper] and [strings.ToLower] work byte by
      byte on ASCII text and go through the case tables of Unicode on any
      other, and the tables are a parameter ([Unicode]);
      [strings.TrimSpace] trims the white space of Unicode;
    - the order in which Go ranges over a map is a parameter as well
      ([MapRange]): any rearrangement of the entries, loop by loop;
    - a Go [error] is [option string]: [None] is [nil], [Some m] is an
      error whose [Error()] text is [m];
    - [*sql.DB], [*sql.Tx] and [*sql.Stmt] belong to database/sql, which
      is outside the repository: the engine is an arbitrary state machine
      answering calls, and handles are the objects the library allocates;
    - the file system is a finite map from paths to file contents and
      every system call may be refused by the operating system;
    - locks are not modelled: every function runs to completion on its
      own, which is what the per-connection mutexes give to each call. *)

From Stdlib Require Import Ascii.
From Stdlib Require String.
From stdpp Require Import base option list strings gmap.

Local Open Scope stdpp_scope.

(** ** Go's [strings] package on byte strings *)

Module GoStrings.

(** [strings.HasPrefix(s, p)]. *)
Fixpoint HasPrefix (s p : string) {struct p} : bool :=
  match p with
  | EmptyString => true
  | String c p' =>
      match s with
      | EmptyString => false
      | String d s' => if Ascii.eqb c d then HasPrefix s' p' else false
      end
  end.

(** [strings.Contains(s, sub)]: [sub] occurs at some offset of [s]. *)
Fixpoint Contains (s sub : string) {struct s} : bool :=
  if HasPrefix s sub then true
  else match s with
       | EmptyString => false
       | String _ s' => Contains s' sub
       end.

(** Letter case of one byte of ASCII text. *)
Definition upper_byte (c : ascii) : ascii :=
  let n := nat_of_ascii c in
  if (97 <=? n) && (n <=? 122) then ascii_of_nat (n - 32) else c.

Definition lower_byte (c : ascii) : ascii :=
  let n := nat_of_ascii c in
  if (65 <=? n) && (n <=? 90) then ascii_of_nat (n + 32) else c.

(** ASCII text in upper and in lower case, byte by byte. *)
Fixpoint upper_ascii (s : string) : string :=
  match s with
  | EmptyString => EmptyString
  | String c s' => String (upper_byte c) (upper_ascii s')
  end.

Fixpoint lower_ascii (s : string) : string :=
  match s with
  | EmptyString => EmptyString
  | String c s' => String (lower_byte c) (lower_ascii s')
  end.

(** Every byte is below [utf8.RuneSelf]: the text is ASCII. *)
Fixpoint isASCII (s : string) : bool :=
  match s with
  | EmptyString => true
  | String c s' => (nat_of_ascii c <? 128) && isASCII s'
  end.

(** The part of Go's library that rests on the case tables of Unicode,
    which are outside the repository: [strings.Map(unicode.ToUpper, s)]
    and [strings.Map(unicode.ToLower, s)], the way [strings.ToUpper] and
    [strings.ToLower] take for a text that is not all ASCII.  Any two
    functions will do. *)
Class Unicode := mkUnicode {
  MapToUpper : string → string;
  MapToLower : string → string
}.

(** [strings.ToUpper] and [strings.ToLower]: a text that is all ASCII is
    mapped byte by byte, any other text goes through the tables. *)
Definition ToUpper `{Unicode} (s : string) : string :=
  if isASCII s then upper_ascii s else MapToUpper s.

Definition ToLower `{Unicode} (s : string) : string :=
  if isASCII s then lower_ascii s else MapToLower s.

(** A stand-in for the tables where the text at hand is ASCII and never
    reaches them. *)
Definition no_tables : Unicode := mkUnicode id id.

(** What "contains the keyword, whatever the letter case" means: some
    substring of [s] differs from [kw] by the case of ASCII letters
    only. *)
Definition contains_ci (s kw : string) : Prop :=
  ∃ pre mid post,
    s = pre +:+ mid +:+ post ∧ upper_ascii mid = upper_ascii kw.

Lemma append_nil_l (s : string) : "" +:+ s = s.
Proof. reflexivity. Qed.

Lemma append_cons (c : ascii) (a b : string) :
  String c a +:+ b = String c (a +:+ b).
Proof. reflexivity. Qed.

Lemma append_assoc (a b c : string) : (a +:+ b) +:+ c = a +:+ b +:+ c.
Proof.
  induction a as [|x a IH]; [done|]. by rewrite !append_cons, IH.
Qed.

Lemma HasPrefix_spec (s p : string) :
  HasPrefix s p = true ↔ ∃ rest, s = p +:+ rest.
Proof.
  revert s. induction p as [|c p IH]; intros s; simpl.
  - split; [intros _; by exists s | intros _; reflexivity].
  - destruct s as [|d s].
    { split; [done | intros [r Hr]; by rewrite append_cons in Hr]. }
    destruct (Ascii.eqb_spec c d) as [->|Hne].
    + rewrite IH. split; intros [r Hr]; exists r.
      * by rewrite append_cons, Hr.
      * rewrite append_cons in Hr. by injection Hr.
    + split; [done | intros [r Hr]].
      rewrite append_cons in Hr. injection Hr as Hd _. congruence.
Qed.

Lemma Contains_spec (s sub : string) :
  Contains s sub = true ↔ ∃ pre post, s = pre +:+ sub +:+ post.
Proof.
  split.
  - induction s as [|c s IH]; simpl.
    + destruct (HasPrefix "" sub) eqn:Hp; [|done].
      intros _. apply HasPrefix_spec in Hp as [r Hr]. by exists "", r.
    + destruct (HasPrefix (String c s) sub) eqn:Hp.
      * intros _. apply HasPrefix_spec in Hp as [r Hr]. by exists "", r.
      * intros H. destruct (IH H) as (pre & post & ->).
        by exists (String c pre), post.
  - intros (pre & post & ->). induction pre as [|c pre IH].
    + rewrite append_nil_l.
      assert (HasPrefix (sub +:+ post) sub = true) as Hp
        by (apply HasPrefix_spec; by exists post).
      destruct (sub +:+ post); simpl; by rewrite Hp.
    + rewrite append_cons. simpl. rewrite IH. by destruct (HasPrefix _ _).
Qed.

(** A string containing [a] contains every substring of [a]. *)
Lemma Contains_trans (s a b : string) :
  Contains s a = true → Contains a b = true → Contains s b = true.
Proof.
  rewrite !Contains_spec. intros (p1 & q1 & ->) (p2 & q2 & ->).
  exists (p1 +:+ p2), (q2 +:+ q1). by rewrite !append_assoc.
Qed.

Lemma upper_ascii_app (a b : string) :
  upper_ascii (a +:+ b) = upper_ascii a +:+ upper_ascii b.
Proof.
  induction a as [|x a IH]; [done|]. rewrite append_cons. simpl.
  by rewrite IH, append_cons.
Qed.

Lemma upper_ascii_split (s a b : string) :
  upper_ascii s = a +:+ b →
  ∃ sa sb, s = sa +:+ sb ∧ upper_ascii sa = a ∧ upper_ascii sb = b.
Proof.
  revert s. induction a as [|x a IH]; intros s.
  - intros H. by exists "", s.
  - rewrite append_cons. destruct s as [|c s]; simpl; [done|].
    intros H. injection H as Hx Hs.
    destruct (IH _ Hs) as (sa & sb & -> & Ha & Hb).
    exists (String c sa), sb. simpl. by rewrite Hx, Ha.
Qed.

(** The search [Contains(upper(s), KW)] is the case-insensitive search
    for an upper-case keyword [KW]. *)
Lemma Contains_upper_ascii_ci (s kw : string) :
  upper_ascii kw = kw →
  Contains (upper_ascii s) kw = true ↔ contains_ci s kw.
Proof.
  intros Hkw. rewrite Contains_spec. unfold contains_ci. rewrite Hkw. split.
  - intros (pre & post & H).
    apply upper_ascii_split in H as (sa & sb & -> & Ha & Hb).
    apply upper_ascii_split in Hb as (sm & sp & -> & Hm & Hp).
    by exists sa, sm, sp.
  - intros (pre & mid & post & -> & Hm).
    exists (upper_ascii pre), (upper_ascii post).
    by rewrite !upper_ascii_app, Hm.
Qed.

Lemma isASCII_app (a b : string) :
  isASCII (a +:+ b) = isASCII a && isASCII b.
Proof.
  induction a as [|x a IH]; [done|]. rewrite append_cons. simpl.
  by rewrite IH, andb_assoc.
Qed.

Section Tables.

Context {tables : Unicode}.

Lemma ToUpper_ascii (s : string) :
  isASCII s = true → ToUpper s = upper_ascii s.
Proof. unfold ToUpper. by intros ->. Qed.

Lemma ToLower_ascii (s : string) :
  isASCII s = true → ToLower s = lower_ascii s.
Proof. unfold ToLower. by intros ->. Qed.


End Tables.

End GoStrings.

(** ** Error translation ([MapSQLiteError]) *)

Module ErrorTranslator.
Import GoStrings.

(** [MapSQLiteError(err)]: the switch of the source, case by case and in
    its order; [None] is the [nil] error. *)
Definition MapSQLiteError (err : option string) : string :=
  match err with
  | None => "00000"
  | Some errMsg =>
      if Contains errMsg "UNIQUE constraint failed" then "23505"
      else if Contains errMsg "NOT NULL constraint failed" then "23502"
      else if Contains errMsg "FOREIGN KEY constraint failed" then "23503"
      else if Contains errMsg "CHECK constraint failed" then "23514"
      else if Contains errMsg "constraint failed" then "23000"
      else if Contains errMsg "database is locked" then "40001"
      else if Contains errMsg "disk I/O error" then "08006"
      else if Contains errMsg "database disk image is malformed" then "58030"
      else if Contains errMsg "no such table" then "42P01"
      else if Contains errMsg "no such column" then "42703"
      else if Contains errMsg "syntax error" then "42601"
      else if Contains errMsg "out of memory" then "53200"
      else if Contains errMsg "disk full" then "53100"
      else "XX000"
  end.

(** The patterns of the switch with their classes, in the order tested. *)
Definition error_patterns : list (string * string) :=
  [ ("UNIQUE constraint failed", "23505");
    ("NOT NULL constraint failed", "23502");
    ("FOREIGN KEY constraint failed", "23503");
    ("CHECK constraint failed", "23514");
    ("constraint failed", "23000");
    ("database is locked", "40001");
    ("disk I/O error", "08006");
    ("database disk image is malformed", "58030");
    ("no such table", "42P01");
    ("no such column", "42703");
    ("syntax error", "42601");
    ("out of memory", "53200");
    ("disk full", "53100") ].

(** Ordered matching over a table: the class of the first pattern that
    occurs in the message. *)
Fixpoint first_match (tbl : list (string * string)) (msg : string)
  : option string :=
  match tbl with
  | [] => None
  | (pat, cls) :: tbl' =>
      if Contains msg pat then Some cls else first_match tbl' msg
  end.

(** The switch is ordered matching over [error_patterns], with the
    internal class as the default. *)
Lemma MapSQLiteError_first_match (msg : string) :
  MapSQLiteError (Some msg) = default "XX000" (first_match error_patterns msg).
Proof.
  unfold MapSQLiteError, error_patterns, first_match.
  repeat (destruct (Contains msg _); [reflexivity|]). reflexivity.
Qed.

Lemma first_match_none (tbl : list (string * string)) (msg : string) :
  (∀ pat cls, (pat, cls) ∈ tbl → Contains msg pat = false) →
  first_match tbl msg = None.
Proof.
  induction tbl as [|[p c] tbl IH]; intros H; simpl; [done|].
  rewrite (H p c) by left. apply IH. intros pat cls Hin.
  apply (H pat cls). by right.
Qed.

Lemma first_match_split (before after : list (string * string))
    (pat cls msg : string) :
  Forall (λ p, Contains msg p.1 = false) before →
  Contains msg pat = true →
  first_match (before ++ (pat, cls) :: after) msg = Some cls.
Proof.
  intros Hb Hc. induction Hb as [|[p c] before Hp _ IH]; simpl in *.
  - by rewrite Hc.
  - by rewrite Hp.
Qed.

(** The table of TestMapSQLiteError (storage_test.go). *)
Example MapSQLiteError_tests :
  map (λ m, MapSQLiteError (Some m))
    [ "UNIQUE constraint failed"; "NOT NULL constraint failed";
      "FOREIGN KEY constraint failed"; "CHECK constraint failed";
      "database is locked"; "no such table"; "no such column";
      "syntax error" ]
  = [ "23505"; "23502"; "23503"; "23514"; "40001"; "42P01"; "42703";
      "42601" ].
Proof. reflexivity. Qed.

(** C9, as the claim words it: every message that contains "no such
    table" would be classified 42P01.  It is not: the patterns are tested
    in order, and the message SQLite gives for a missing table quotes the
    table's name, which may itself hold an earlier pattern. *)
Lemma MapSQLiteError_no_such_table_shadowed :
  ¬ (∀ msg : string,
       Contains msg "no such table" = true →
       MapSQLiteError (Some msg) = "42P01").
Proof.
  intros H. specialize (H "no such table: database is locked" eq_refl).
  vm_compute in H. discriminate H.
Qed.

(** C9 (amended): the translator classifies a message by ordered
    substring matching, the first pattern of the switch that occurs in
    the message deciding the class.  So a message containing "UNIQUE
    constraint failed" is 23505 although it contains the generic
    "constraint failed" too; a message containing "no such table" and
    none of the eight patterns tested before it is 42P01; and a message
    in which no pattern occurs is XX000, a class and not a failure. *)
Theorem MapSQLiteError_ordered (msg : string) :
  (∀ before after pat cls,
      error_patterns = before ++ (pat, cls) :: after →
      Forall (λ p, Contains msg p.1 = false) before →
      Contains msg pat = true →
      MapSQLiteError (Some msg) = cls)
  ∧ (Contains msg "UNIQUE constraint failed" = true →
      Contains msg "constraint failed" = true
      ∧ MapSQLiteError (Some msg) = "23505")
  ∧ (Contains msg "no such table" = true →
      Forall (λ p, Contains msg p = false)
        [ "UNIQUE constraint failed"; "NOT NULL constraint failed";
          "FOREIGN KEY constraint failed"; "CHECK constraint failed";
          "constraint failed"; "database is locked"; "disk I/O error";
          "database disk image is malformed" ] →
      MapSQLiteError (Some msg) = "42P01")
  ∧ ((∀ pat cls, (pat, cls) ∈ error_patterns → Contains msg pat = false) →
      MapSQLiteError (Some msg) = "XX000").
Proof.
  assert (∀ before after pat cls,
      error_patterns = before ++ (pat, cls) :: after →
      Forall (λ p, Contains msg p.1 = false) before →
      Contains msg pat = true →
      MapSQLiteError (Some msg) = cls) as Hgen.
  { intros before after pat cls Heq Hb Hc.
    rewrite MapSQLiteError_first_match, Heq.
    by rewrite (first_match_split _ _ _ cls _ Hb Hc). }
  split; [exact Hgen|]. split; [|split].
  - intros Hu. split.
    + apply (Contains_trans _ _ _ Hu). reflexivity.
    + by apply (Hgen [] (tail error_patterns) "UNIQUE constraint failed").
  - intros Ht Hb.
    apply (Hgen (take 8 error_patterns) (drop 9 error_patterns)
             "no such table"); [reflexivity| |done].
    rewrite <- Forall_fmap with (f := fst) (P := λ p, Contains msg p = false).
    exact Hb.
  - intros Hnone. rewrite MapSQLiteError_first_match.
    by rewrite first_match_none.
Qed.

End ErrorTranslator.

(** ** The SQLite backend ([SQLiteBackend]) *)

Module Backend.
Import GoStrings.

(** A Go [error]: [None] is [nil]. *)
Definition error := option string.

(** [TransactionStatus] and its three constants. *)
Inductive TransactionStatus := TxIdle | TxInTransaction | TxFailed.

#[global] Instance TransactionStatus_eq_dec : EqDecision TransactionStatus.
Proof. solve_decision. Defined.

(** [ConnectionState]: [Tx] is the [*sql.Tx] pointer ([None] is [nil]),
    [PreparedStmts] maps a statement name to its [*sql.Stmt]. *)
Record ConnectionState := mkConn {
  ID : string;
  Tx : option nat;
  InTx : bool;
  TxStatus : TransactionStatus;
  PreparedStmts : gmap string nat
}.

(** Where a statement runs: the shared [*sql.DB] or a transaction. *)
Inductive Handle := HDb | HTx (tx : nat).

(** The calls the backend makes to database/sql. *)
Inductive EngineCall :=
| CBegin                                              (* db.Begin() *)
| CExec (h : Handle) (query : string) (args : list string)
| CQuery (h : Handle) (query : string) (args : list string)
| CPrepare (h : Handle) (query : string)
| CCommit (tx : nat)                                  (* tx.Commit() *)
| CRollback (tx : nat)                                (* tx.Rollback() *)
| CStmtClose (stmt : nat)                             (* stmt.Close() *)
| CStmtQuery (stmt : nat) (args : list string).       (* stmt.Query() *)

(** What a call answers: a value (rows, a result, a new handle) or an
    error with its message. *)
Inductive Reply := ROk (v : nat) | RErr (msg : string).

Definition reply_error (r : Reply) : error :=
  match r with ROk _ => None | RErr m => Some m end.

(** The operations of the backend's interface, as clients issue them;
    the removal of a connection comes with the seed of the order in which
    Go ranges over the connection's statements. *)
Inductive Op :=
| OpBegin (connectionID mode : string)
| OpCommit (connectionID : string)
| OpRollback (connectionID : string)
| OpQuery (connectionID query : string) (args : list string)
| OpExec (connectionID query : string) (args : list string)
| OpPrepare (connectionID name query : string)
| OpExecutePrepared (connectionID name : string) (args : list string)
| OpClosePrepared (connectionID name : string)
| OpRemove (connectionID : string) (seed : nat)
| OpStatus (connectionID : string).

(** The statements database/sql holds open after a history of calls: a
    successful [Prepare] opens one, [Close] closes it (database/sql marks
    the statement closed whatever the driver then reports).  A statement
    prepared inside a transaction is closed by database/sql when the
    transaction ends; it is counted as open here until its [Close], which
    only enlarges the set the invariant below speaks of. *)
Definition open_step (acc : gset nat) (ev : EngineCall * Reply) : gset nat :=
  match ev with
  | (CPrepare _ _, ROk stmt) => acc ∪ {[stmt]}
  | (CStmtClose stmt, _) => acc ∖ {[stmt]}
  | _ => acc
  end.

Definition open_stmts (evs : list (EngineCall * Reply)) : gset nat :=
  foldl open_step ∅ evs.

(** A connection's fields agree: a transaction handle is held exactly
    when [InTx] is set, and the status is idle exactly when it is not. *)
Definition conn_ok (c : ConnectionState) : Prop :=
  (InTx c = true ↔ is_Some (Tx c)) ∧ (TxStatus c = TxIdle ↔ InTx c = false).

(** Go ranges over a map in an order of its own, which may differ from
    one loop to the next.  The order of a loop is what [range_order]
    makes of the listing of the map, from a seed that is an input of the
    operation that loops: any rearrangement at all. *)
Class MapRange := mkMapRange {
  range_order : ∀ {A : Type}, nat → list A → list A;
  range_order_perm : ∀ (A : Type) (seed : nat) (l : list A),
    range_order seed l ≡ₚ l
}.

(** The order of the listing itself, for the examples. *)
Definition in_listing_order : MapRange :=
  mkMapRange (λ A seed l, l) (λ A seed l, reflexivity l).

Section WithEngine.

(** The case tables of Unicode, the order of Go's map loops, and
    database/sql with the SQLite driver: any state machine at all. *)
Context {tables : Unicode} {ranges : MapRange}.
Context {E : Type} (engine : E → EngineCall → E * Reply).

(** [SQLiteBackend].  [db] is the engine behind [*sql.DB]; [next_handle]
    is the next object database/sql allocates for a [*sql.Tx] or a
    [*sql.Stmt] (a new pointer, distinct from every earlier one); [calls]
    records every call made to the engine with its answer. *)
Record SQLiteBackend := mkBackend {
  db : E;
  transactionMode : string;
  connections : gmap string ConnectionState;
  next_handle : nat;
  calls : list (EngineCall * Reply)
}.

Definition allocates (c : EngineCall) : bool :=
  match c with CBegin | CPrepare _ _ => true | _ => false end.

(** One call to the engine.  A successful [Begin] or [Prepare] answers
    with the freshly allocated handle. *)
Definition call (b : SQLiteBackend) (c : EngineCall) : SQLiteBackend * Reply :=
  let '(db', r) := engine (db b) c in
  match r with
  | ROk v =>
      if allocates c
      then (mkBackend db' (transactionMode b) (connections b)
              (S (next_handle b)) (calls b ++ [(c, ROk (next_handle b))]),
            ROk (next_handle b))
      else (mkBackend db' (transactionMode b) (connections b)
              (next_handle b) (calls b ++ [(c, r)]), r)
  | RErr _ =>
      (mkBackend db' (transactionMode b) (connections b)
         (next_handle b) (calls b ++ [(c, r)]), r)
  end.

Definition set_connections (b : SQLiteBackend)
    (m : gmap string ConnectionState) : SQLiteBackend :=
  mkBackend (db b) (transactionMode b) m (next_handle b) (calls b).

(** Writing through the [*ConnectionState] pointer held in the map. *)
Definition store (b : SQLiteBackend) (connectionID : string)
    (conn : ConnectionState) : SQLiteBackend :=
  set_connections b (<[connectionID := conn]> (connections b)).

(** [NewSQLiteBackend], once [sql.Open] and [Ping] have succeeded. *)
Definition NewSQLiteBackend (db0 : E) (transactionMode : string)
  : SQLiteBackend :=
  mkBackend db0 transactionMode ∅ 0 [].

(** [GetOrCreateConnection]. *)
Definition GetOrCreateConnection (b : SQLiteBackend) (connectionID : string)
  : SQLiteBackend * ConnectionState :=
  match connections b !! connectionID with
  | Some conn => (b, conn)
  | None =>
      let conn := mkConn connectionID None false TxIdle ∅ in
      (store b connectionID conn, conn)
  end.

(** The guard [conn.InTx && conn.Tx != nil] of the source, with the
    transaction it finds. *)
Definition active_tx (conn : ConnectionState) : option nat :=
  if InTx conn then Tx conn else None.

(** [BeginTransaction]. *)
Definition BeginTransaction (b : SQLiteBackend) (connectionID mode : string)
  : SQLiteBackend * error :=
  let '(b, conn) := GetOrCreateConnection b connectionID in
  if InTx conn then (b, Some "transaction already in progress")
  else
    let txMode := if String.eqb mode "" then transactionMode b else mode in
    let begin_with (sql : string) : SQLiteBackend * option nat * error :=
      let '(b, r) := call b CBegin in
      match r with
      | ROk tx =>
          let '(b, r2) := call b (CExec (HTx tx) sql []) in
          (b, Some tx, reply_error r2)
      | RErr m => (b, None, Some m)
      end in
    let '(b, tx, err) :=
      let lower := ToLower txMode in
      if String.eqb lower "immediate" then begin_with "BEGIN IMMEDIATE"
      else if String.eqb lower "exclusive" then begin_with "BEGIN EXCLUSIVE"
      else
        let '(b, r) := call b CBegin in
        match r with
        | ROk tx => (b, Some tx, None)
        | RErr m => (b, None, Some m)
        end in
    match err with
    | Some m => (b, Some ("failed to begin transaction: " +:+ m))
    | None =>
        (store b connectionID
           (mkConn (ID conn) tx true TxInTransaction (PreparedStmts conn)),
         None)
    end.

(** [CommitTransaction]. *)
Definition CommitTransaction (b : SQLiteBackend) (connectionID : string)
  : SQLiteBackend * error :=
  let '(b, conn) := GetOrCreateConnection b connectionID in
  match active_tx conn with
  | None => (b, Some "no transaction in progress")
  | Some tx =>
      let '(b, r) := call b (CCommit tx) in
      match r with
      | RErr m =>
          (store b connectionID
             (mkConn (ID conn) (Tx conn) (InTx conn) TxFailed
                (PreparedStmts conn)),
           Some ("failed to commit transaction: " +:+ m))
      | ROk _ =>
          (store b connectionID
             (mkConn (ID conn) None false TxIdle (PreparedStmts conn)),
           None)
      end
  end.

(** [RollbackTransaction]. *)
Definition RollbackTransaction (b : SQLiteBackend) (connectionID : string)
  : SQLiteBackend * error :=
  let '(b, conn) := GetOrCreateConnection b connectionID in
  match active_tx conn with
  | None => (b, Some "no transaction in progress")
  | Some tx =>
      let '(b, r) := call b (CRollback tx) in
      match r with
      | RErr m => (b, Some ("failed to rollback transaction: " +:+ m))
      | ROk _ =>
          (store b connectionID
             (mkConn (ID conn) None false TxIdle (PreparedStmts conn)),
           None)
      end
  end.

(** [Query]. *)
Definition Query (b : SQLiteBackend) (connectionID query : string)
    (args : list string) : SQLiteBackend * Reply :=
  let '(b, conn) := GetOrCreateConnection b connectionID in
  match active_tx conn with
  | Some tx => call b (CQuery (HTx tx) query args)
  | None => call b (CQuery HDb query args)
  end.

(** [Exec]. *)
Definition Exec (b : SQLiteBackend) (connectionID query : string)
    (args : list string) : SQLiteBackend * Reply :=
  let '(b, conn) := GetOrCreateConnection b connectionID in
  match active_tx conn with
  | Some tx => call b (CExec (HTx tx) query args)
  | None => call b (CExec HDb query args)
  end.

(** [Prepare]. *)
Definition Prepare (b : SQLiteBackend) (connectionID name query : string)
  : SQLiteBackend * error :=
  let '(b, conn) := GetOrCreateConnection b connectionID in
  let b :=
    match PreparedStmts conn !! name with
    | Some stmt => (call b (CStmtClose stmt)).1
    | None => b
    end in
  let '(b, r) :=
    match active_tx conn with
    | Some tx => call b (CPrepare (HTx tx) query)
    | None => call b (CPrepare HDb query)
    end in
  match r with
  | RErr m => (b, Some ("failed to prepare statement: " +:+ m))
  | ROk stmt =>
      (store b connectionID
         (mkConn (ID conn) (Tx conn) (InTx conn) (TxStatus conn)
            (<[name := stmt]> (PreparedStmts conn))),
       None)
  end.

(** [ExecutePrepared]. *)
Definition ExecutePrepared (b : SQLiteBackend) (connectionID name : string)
    (args : list string) : SQLiteBackend * Reply :=
  let '(b, conn) := GetOrCreateConnection b connectionID in
  match PreparedStmts conn !! name with
  | None => (b, RErr ("prepared statement not found: " +:+ name))
  | Some stmt => call b (CStmtQuery stmt args)
  end.

(** [ClosePrepared]. *)
Definition ClosePrepared (b : SQLiteBackend) (connectionID name : string)
  : SQLiteBackend * error :=
  let '(b, conn) := GetOrCreateConnection b connectionID in
  match PreparedStmts conn !! name with
  | None => (b, None)
  | Some stmt =>
      let '(b, r) := call b (CStmtClose stmt) in
      match r with
      | RErr m => (b, Some ("failed to close prepared statement: " +:+ m))
      | ROk _ =>
          (store b connectionID
             (mkConn (ID conn) (Tx conn) (InTx conn) (TxStatus conn)
                (delete name (PreparedStmts conn))),
           None)
      end
  end.

(** [RemoveConnection]: the statements are closed in the order the map
    is ranged over, which [seed] decides, the transaction rolled back,
    the entry deleted. *)
Definition RemoveConnection (b : SQLiteBackend) (connectionID : string)
    (seed : nat) : SQLiteBackend :=
  match connections b !! connectionID with
  | None => b
  | Some conn =>
      let b :=
        foldl (λ b stmt, (call b (CStmtClose stmt)).1) b
          (range_order seed ((map_to_list (PreparedStmts conn)).*2)) in
      let b :=
        match active_tx conn with
        | Some tx => (call b (CRollback tx)).1
        | None => b
        end in
      set_connections b (delete connectionID (connections b))
  end.

(** [GetTransactionStatus]. *)
Definition GetTransactionStatus (b : SQLiteBackend) (connectionID : string)
  : SQLiteBackend * TransactionStatus :=
  let '(b, conn) := GetOrCreateConnection b connectionID in
  (b, TxStatus conn).

(** The backend after an operation, and after a sequence of them. *)
Definition apply_op (b : SQLiteBackend) (op : Op) : SQLiteBackend :=
  match op with
  | OpBegin id mode => (BeginTransaction b id mode).1
  | OpCommit id => (CommitTransaction b id).1
  | OpRollback id => (RollbackTransaction b id).1
  | OpQuery id q args => (Query b id q args).1
  | OpExec id q args => (Exec b id q args).1
  | OpPrepare id name q => (Prepare b id name q).1
  | OpExecutePrepared id name args => (ExecutePrepared b id name args).1
  | OpClosePrepared id name => (ClosePrepared b id name).1
  | OpRemove id seed => RemoveConnection b id seed
  | OpStatus id => (GetTransactionStatus b id).1
  end.

Definition run (b : SQLiteBackend) (ops : list Op) : SQLiteBackend :=
  foldl apply_op b ops.

(** The status of a connection, idle when the connection is yet to be
    created; and the transaction it holds. *)
Definition status_of (b : SQLiteBackend) (connectionID : string)
  : TransactionStatus :=
  match connections b !! connectionID with
  | Some conn => TxStatus conn
  | None => TxIdle
  end.

Definition tx_of (b : SQLiteBackend) (connectionID : string) : option nat :=
  conn ← connections b !! connectionID; active_tx conn.

(** The statement a name is bound to on a connection. *)
Definition bound (b : SQLiteBackend) (connectionID name : string)
  : option nat :=
  conn ← connections b !! connectionID; PreparedStmts conn !! name.

Definition backend_ok (b : SQLiteBackend) : Prop :=
  ∀ id conn, connections b !! id = Some conn → conn_ok conn.

(** Every open statement is bound, no statement is bound twice, and
    every bound statement was allocated. *)
Record stmts_ok (b : SQLiteBackend) : Prop := mkStmtsOk {
  open_bound : ∀ stmt, stmt ∈ open_stmts (calls b) →
    ∃ id name, bound b id name = Some stmt;
  bound_once : ∀ id1 name1 id2 name2 stmt,
    bound b id1 name1 = Some stmt → bound b id2 name2 = Some stmt →
    id1 = id2 ∧ name1 = name2;
  bound_allocated : ∀ id name stmt,
    bound b id name = Some stmt → stmt < next_handle b
}.

(** The statement that takes the lock of a mode, none for a deferred
    transaction: the switch of [BeginTransaction]. *)
Definition lock_statement (txMode : string) : option string :=
  let lower := ToLower txMode in
  if String.eqb lower "immediate" then Some "BEGIN IMMEDIATE"
  else if String.eqb lower "exclusive" then Some "BEGIN EXCLUSIVE"
  else None.

(** What the engine answers to the calls of a [BeginTransaction] on an
    idle connection: its refusal of [db.Begin] or, the transaction begun,
    its answer to the lock statement of the mode, if the mode has one. *)
Definition begin_answer (b : SQLiteBackend) (mode : string) : Reply :=
  let txMode := if String.eqb mode "" then transactionMode b else mode in
  let '(db1, r1) := engine (db b) CBegin in
  match r1 with
  | RErr m => RErr m
  | ROk _ =>
      match lock_statement txMode with
      | None => ROk (next_handle b)
      | Some sql => (engine db1 (CExec (HTx (next_handle b)) sql [])).2
      end
  end.

(** What the engine answers to the [Prepare] of a statement under a
    name: [db.Prepare] or [tx.Prepare] is called once the statement the
    name was bound to, if any, is closed. *)
Definition prepare_answer (b : SQLiteBackend)
    (connectionID name query : string) : Reply :=
  let h := match tx_of b connectionID with
           | Some tx => HTx tx
           | None => HDb
           end in
  let db1 := match bound b connectionID name with
             | Some old => (engine (db b) (CStmtClose old)).1
             | None => db b
             end in
  (engine db1 (CPrepare h query)).2.

(** *** The engine call and the connection directory *)

Lemma call_connections (b : SQLiteBackend) (c : EngineCall) :
  connections (call b c).1 = connections b.
Proof.
  unfold call. destruct (engine (db b) c) as [db' [v|m]]; [|done].
  by destruct (allocates c).
Qed.

Lemma call_calls (b : SQLiteBackend) (c : EngineCall) :
  calls (call b c).1 = calls b ++ [(c, (call b c).2)].
Proof.
  unfold call. destruct (engine (db b) c) as [db' [v|m]]; [|done].
  by destruct (allocates c).
Qed.

Lemma call_next_handle (b : SQLiteBackend) (c : EngineCall) :
  next_handle (call b c).1 =
    match (call b c).2 with
    | ROk _ => if allocates c then S (next_handle b) else next_handle b
    | RErr _ => next_handle b
    end.
Proof.
  unfold call. destruct (engine (db b) c) as [db' [v|m]]; [|done].
  by destruct (allocates c).
Qed.

Lemma call_allocated (b : SQLiteBackend) (c : EngineCall) (v : nat) :
  allocates c = true → (call b c).2 = ROk v → v = next_handle b.
Proof.
  unfold call. destruct (engine (db b) c) as [db' [w|m]]; [|done].
  intros ->. simpl. congruence.
Qed.

Lemma call_next_handle_le (b : SQLiteBackend) (c : EngineCall) :
  next_handle b ≤ next_handle (call b c).1.
Proof.
  rewrite call_next_handle. destruct (call b c).2; [|done].
  destruct (allocates c); lia.
Qed.

(** Splits a call into its resulting backend and answer, keeping what
    the call left unchanged. *)
Ltac split_call b' r :=
  match goal with
  | |- context [call ?b ?c] =>
      let Hc := fresh "Hconns" in
      let Hl := fresh "Hcalls" in
      let Hn := fresh "Hnext" in
      let Ha := fresh "Halloc" in
      pose proof (call_connections b c) as Hc;
      pose proof (call_calls b c) as Hl;
      pose proof (call_next_handle b c) as Hn;
      pose proof (call_allocated b c) as Ha;
      destruct (call b c) as [b' r]; simpl in Hc, Hl, Hn, Ha
  end.

Lemma GetOrCreateConnection_spec (b b' : SQLiteBackend) (id : string)
    (conn : ConnectionState) :
  GetOrCreateConnection b id = (b', conn) →
  connections b' !! id = Some conn
  ∧ calls b' = calls b ∧ next_handle b' = next_handle b
  ∧ transactionMode b' = transactionMode b
  ∧ (b' = b
     ∨ (connections b !! id = None
        ∧ conn = mkConn id None false TxIdle ∅
        ∧ connections b' = <[id := conn]> (connections b))).
Proof.
  unfold GetOrCreateConnection. destruct (connections b !! id) eqn:Hl.
  - intros [= <- <-]. by repeat split; auto.
  - intros [= <- <-]. split; [apply lookup_insert_eq|].
    do 3 (split; [done|]). right. done.
Qed.

Lemma status_of_GetOrCreateConnection (b b' : SQLiteBackend) (id id' : string)
    (conn : ConnectionState) :
  GetOrCreateConnection b id = (b', conn) →
  status_of b' id' = status_of b id' ∧ tx_of b' id' = tx_of b id'
  ∧ ∀ name, bound b' id' name = bound b id' name.
Proof.
  intros H. apply GetOrCreateConnection_spec in H
    as (_ & _ & _ & _ & [->|(Hnone & -> & Heq)]); [done|].
  unfold status_of, tx_of, bound. rewrite Heq.
  destruct (decide (id = id')) as [<-|Hne].
  - rewrite lookup_insert_eq, Hnone. done.
  - rewrite lookup_insert_ne by done. done.
Qed.

(** *** The connection invariant holds in every state *)

Lemma backend_ok_store (b : SQLiteBackend) (id : string)
    (conn : ConnectionState) :
  backend_ok b → conn_ok conn → backend_ok (store b id conn).
Proof.
  intros Hb Hc id' conn'. unfold store. simpl.
  destruct (decide (id = id')) as [<-|Hne].
  - rewrite lookup_insert_eq. by intros [= <-].
  - rewrite lookup_insert_ne by done. apply Hb.
Qed.

Lemma backend_ok_same (b b' : SQLiteBackend) :
  connections b' = connections b → backend_ok b → backend_ok b'.
Proof. unfold backend_ok. by intros ->. Qed.

Lemma backend_ok_delete (b : SQLiteBackend) (id : string) :
  backend_ok b → backend_ok (set_connections b (delete id (connections b))).
Proof.
  intros Hb id' conn'. simpl. intros Hl.
  apply lookup_delete_Some in Hl as [_ Hl]. by apply (Hb id').
Qed.

Lemma GetOrCreateConnection_ok (b b' : SQLiteBackend) (id : string)
    (conn : ConnectionState) :
  GetOrCreateConnection b id = (b', conn) →
  backend_ok b → backend_ok b' ∧ conn_ok conn.
Proof.
  intros H Hb. pose proof (GetOrCreateConnection_spec _ _ _ _ H)
    as (Hl & _ & _ & _ & [->|(Hnone & -> & Heq)]).
  - split; [done|]. by apply (Hb id).
  - assert (conn_ok (mkConn id None false TxIdle ∅)) as Hnew.
    { split; simpl; split; try done; by intros [? ?]. }
    split; [|done]. intros id' conn'. rewrite Heq.
    destruct (decide (id = id')) as [<-|Hne].
    + rewrite lookup_insert_eq. by intros [= <-].
    + rewrite lookup_insert_ne by done. apply Hb.
Qed.

Lemma conn_ok_idle (conn : ConnectionState) :
  conn_ok (mkConn (ID conn) None false TxIdle (PreparedStmts conn)).
Proof. split; simpl; split; try done; by intros [? ?]. Qed.

Lemma conn_ok_stmts (conn : ConnectionState) (m : gmap string nat) :
  conn_ok conn →
  conn_ok (mkConn (ID conn) (Tx conn) (InTx conn) (TxStatus conn) m).
Proof. done. Qed.

Lemma foldl_close_connections (b : SQLiteBackend) (l : list nat) :
  connections (foldl (λ b stmt, (call b (CStmtClose stmt)).1) b l)
  = connections b.
Proof.
  revert b. induction l as [|x l IH]; intros b; simpl; [done|].
  by rewrite IH, call_connections.
Qed.

Lemma apply_op_ok (b : SQLiteBackend) (op : Op) :
  backend_ok b → backend_ok (apply_op b op).
Proof.
  intros Hb. destruct op as [id mode|id|id|id q args|id q args|id name q
                            |id name args|id name|id seed|id]; simpl.
  - unfold BeginTransaction.
    destruct (GetOrCreateConnection b id) as [b1 conn] eqn:Hg.
    destruct (GetOrCreateConnection_ok _ _ _ _ Hg Hb) as [Hb1 Hconn].
    destruct (InTx conn) eqn:Hin; [done|].
    assert (∀ b2 tx, connections b2 = connections b1 →
      backend_ok (store b2 id
        (mkConn (ID conn) (Some tx) true TxInTransaction (PreparedStmts conn))))
      as Hnew.
    { intros b2 tx Heq. apply backend_ok_store; [by eapply backend_ok_same|].
      split; simpl; split; try done; by intros _; exists tx. }
    repeat (case_match; simplify_eq/=);
      repeat match goal with
             | H : call ?b ?c = _ |- _ =>
                 let Hc := fresh in
                 pose proof (call_connections b c) as Hc;
                 rewrite H in Hc; simpl in Hc; clear H
             end;
      first [ apply Hnew; congruence
            | eapply backend_ok_same; [|exact Hb1]; congruence ].
  - unfold CommitTransaction.
    destruct (GetOrCreateConnection b id) as [b1 conn] eqn:Hg.
    destruct (GetOrCreateConnection_ok _ _ _ _ Hg Hb) as [Hb1 Hconn].
    destruct (active_tx conn) as [tx|] eqn:Htx; [|done].
    split_call b2 r. destruct r; simpl.
    + apply backend_ok_store; [by eapply backend_ok_same|apply conn_ok_idle].
    + apply backend_ok_store; [by eapply backend_ok_same|].
      unfold active_tx in Htx. destruct (InTx conn) eqn:Hin; [|done].
      split; simpl; [|split; done]. rewrite Htx. split; [by eauto|done].
  - unfold RollbackTransaction.
    destruct (GetOrCreateConnection b id) as [b1 conn] eqn:Hg.
    destruct (GetOrCreateConnection_ok _ _ _ _ Hg Hb) as [Hb1 Hconn].
    destruct (active_tx conn) as [tx|] eqn:Htx; [|done].
    split_call b2 r. destruct r; simpl.
    + apply backend_ok_store; [by eapply backend_ok_same|apply conn_ok_idle].
    + by eapply backend_ok_same.
  - unfold Query.
    destruct (GetOrCreateConnection b id) as [b1 conn] eqn:Hg.
    destruct (GetOrCreateConnection_ok _ _ _ _ Hg Hb) as [Hb1 Hconn].
    destruct (active_tx conn); split_call b2 r; by eapply backend_ok_same.
  - unfold Exec.
    destruct (GetOrCreateConnection b id) as [b1 conn] eqn:Hg.
    destruct (GetOrCreateConnection_ok _ _ _ _ Hg Hb) as [Hb1 Hconn].
    destruct (active_tx conn); split_call b2 r; by eapply backend_ok_same.
  - unfold Prepare.
    destruct (GetOrCreateConnection b id) as [b1 conn] eqn:Hg.
    destruct (GetOrCreateConnection_ok _ _ _ _ Hg Hb) as [Hb1 Hconn].
    set (b2 := match PreparedStmts conn !! name with
               | Some stmt => (call b1 (CStmtClose stmt)).1
               | None => b1
               end).
    assert (connections b2 = connections b1) as Hb2.
    { unfold b2. destruct (PreparedStmts conn !! name); [|done].
      apply call_connections. }
    clearbody b2.
    destruct (active_tx conn); split_call b3 r; destruct r; simpl;
      first [ apply backend_ok_store;
              [eapply backend_ok_same; [|exact Hb1]; congruence|done]
            | eapply backend_ok_same; [|exact Hb1]; congruence ].
  - unfold ExecutePrepared.
    destruct (GetOrCreateConnection b id) as [b1 conn] eqn:Hg.
    destruct (GetOrCreateConnection_ok _ _ _ _ Hg Hb) as [Hb1 Hconn].
    destruct (PreparedStmts conn !! name); [|done].
    split_call b2 r. by eapply backend_ok_same.
  - unfold ClosePrepared.
    destruct (GetOrCreateConnection b id) as [b1 conn] eqn:Hg.
    destruct (GetOrCreateConnection_ok _ _ _ _ Hg Hb) as [Hb1 Hconn].
    destruct (PreparedStmts conn !! name); [|done].
    split_call b2 r. destruct r; simpl.
    + apply backend_ok_store; [by eapply backend_ok_same|done].
    + by eapply backend_ok_same.
  - unfold RemoveConnection. destruct (connections b !! id) as [conn|]; [|done].
    apply backend_ok_delete.
    destruct (active_tx conn).
    + eapply backend_ok_same; [|exact Hb].
      by rewrite call_connections, foldl_close_connections.
    + eapply backend_ok_same; [|exact Hb]. apply foldl_close_connections.
  - unfold GetTransactionStatus.
    destruct (GetOrCreateConnection b id) as [b1 conn] eqn:Hg.
    by destruct (GetOrCreateConnection_ok _ _ _ _ Hg Hb).
Qed.

Lemma run_ok (b : SQLiteBackend) (ops : list Op) :
  backend_ok b → backend_ok (run b ops).
Proof.
  revert b. induction ops as [|op ops IH]; intros b Hb; simpl; [done|].
  apply IH. by apply apply_op_ok.
Qed.

Lemma NewSQLiteBackend_ok (db0 : E) (mode : string) :
  backend_ok (NewSQLiteBackend db0 mode).
Proof. intros id conn. simpl. by rewrite lookup_empty. Qed.

(** *** The transaction state machine *)

Lemma status_of_store (b : SQLiteBackend) (id : string)
    (conn : ConnectionState) :
  status_of (store b id conn) id = TxStatus conn.
Proof. unfold status_of, store. simpl. by rewrite lookup_insert_eq. Qed.

Lemma status_of_store_ne (b : SQLiteBackend) (id id' : string)
    (conn : ConnectionState) :
  id ≠ id' → status_of (store b id conn) id' = status_of b id'.
Proof.
  intros Hne. unfold status_of, store. simpl.
  by rewrite lookup_insert_ne.
Qed.

Lemma status_of_same (b b' : SQLiteBackend) (id : string) :
  connections b' = connections b → status_of b' id = status_of b id.
Proof. unfold status_of. by intros ->. Qed.

(** A connection that is not idle holds its transaction. *)
Lemma not_idle_holds_tx (b : SQLiteBackend) (id : string) :
  backend_ok b → status_of b id ≠ TxIdle →
  ∃ conn tx, connections b !! id = Some conn
             ∧ InTx conn = true ∧ Tx conn = Some tx.
Proof.
  intros Hb Hs. unfold status_of in Hs.
  destruct (connections b !! id) as [conn|] eqn:Hl; [|done].
  destruct (Hb _ _ Hl) as [H1 H2].
  destruct (InTx conn) eqn:Hin; [|by destruct Hs; apply H2].
  destruct (proj1 H1 eq_refl) as [tx Htx]. by exists conn, tx.
Qed.

(** An idle connection holds none. *)
Lemma idle_holds_no_tx (b : SQLiteBackend) (id : string) :
  backend_ok b → status_of b id = TxIdle → tx_of b id = None.
Proof.
  intros Hb Hs. unfold status_of in Hs. unfold tx_of.
  destruct (connections b !! id) as [conn|] eqn:Hl; [|done]. simpl.
  destruct (Hb _ _ Hl) as [H1 H2]. unfold active_tx.
  by rewrite (proj1 H2 Hs).
Qed.

Lemma GetOrCreateConnection_found (b : SQLiteBackend) (id : string)
    (conn : ConnectionState) :
  connections b !! id = Some conn → GetOrCreateConnection b id = (b, conn).
Proof. unfold GetOrCreateConnection. by intros ->. Qed.

Lemma BeginTransaction_active (b : SQLiteBackend) (id mode : string) :
  backend_ok b → status_of b id ≠ TxIdle →
  BeginTransaction b id mode = (b, Some "transaction already in progress").
Proof.
  intros Hb Hs. destruct (not_idle_holds_tx _ _ Hb Hs) as (conn & tx & Hl & Hin & _).
  unfold BeginTransaction. rewrite (GetOrCreateConnection_found _ _ _ Hl).
  by rewrite Hin.
Qed.

Lemma BeginTransaction_ok (b b' : SQLiteBackend) (id mode : string) :
  BeginTransaction b id mode = (b', None) →
  status_of b' id = TxInTransaction.
Proof.
  unfold BeginTransaction. intros H.
  repeat (case_match; simplify_eq/=); apply status_of_store.
Qed.

Lemma CommitTransaction_idle (b : SQLiteBackend) (id : string) :
  backend_ok b → status_of b id = TxIdle →
  ∃ b', CommitTransaction b id = (b', Some "no transaction in progress")
        ∧ calls b' = calls b
        ∧ ∀ id', status_of b' id' = status_of b id'
                 ∧ tx_of b' id' = tx_of b id'.
Proof.
  intros Hb Hs. unfold CommitTransaction.
  destruct (GetOrCreateConnection b id) as [b1 conn] eqn:Hg.
  pose proof (GetOrCreateConnection_spec _ _ _ _ Hg) as (Hl & Hc & _).
  pose proof (idle_holds_no_tx _ _ Hb Hs) as Htx.
  destruct (status_of_GetOrCreateConnection _ _ _ id _ Hg) as (_ & Ht & _).
  rewrite <- Ht in Htx. unfold tx_of in Htx. rewrite Hl in Htx. simpl in Htx.
  rewrite Htx. exists b1. split; [done|]. split; [done|].
  intros id'. by destruct (status_of_GetOrCreateConnection _ _ _ id' _ Hg)
    as (? & ? & _).
Qed.

Lemma CommitTransaction_held (b : SQLiteBackend) (id : string) :
  backend_ok b → status_of b id ≠ TxIdle →
  ∃ tx r b', tx_of b id = Some tx
    ∧ CommitTransaction b id = (b', match r with
                                     | ROk _ => None
                                     | RErr m => Some ("failed to commit transaction: " +:+ m)
                                     end)
    ∧ calls b' = calls b ++ [(CCommit tx, r)]
    ∧ status_of b' id = match r with ROk _ => TxIdle | RErr _ => TxFailed end.
Proof.
  intros Hb Hs. destruct (not_idle_holds_tx _ _ Hb Hs) as (conn & tx & Hl & Hin & Htx).
  unfold CommitTransaction, tx_of. rewrite (GetOrCreateConnection_found _ _ _ Hl), Hl.
  simpl. unfold active_tx. rewrite Hin, Htx.
  split_call b2 r. exists tx, r. destruct r; eexists; (split; [done|]);
    (split; [done|]); (split; [done|]); apply status_of_store.
Qed.

Lemma RollbackTransaction_idle (b : SQLiteBackend) (id : string) :
  backend_ok b → status_of b id = TxIdle →
  ∃ b', RollbackTransaction b id = (b', Some "no transaction in progress")
        ∧ calls b' = calls b
        ∧ ∀ id', status_of b' id' = status_of b id'
                 ∧ tx_of b' id' = tx_of b id'.
Proof.
  intros Hb Hs. unfold RollbackTransaction.
  destruct (GetOrCreateConnection b id) as [b1 conn] eqn:Hg.
  pose proof (GetOrCreateConnection_spec _ _ _ _ Hg) as (Hl & Hc & _).
  pose proof (idle_holds_no_tx _ _ Hb Hs) as Htx.
  destruct (status_of_GetOrCreateConnection _ _ _ id _ Hg) as (_ & Ht & _).
  rewrite <- Ht in Htx. unfold tx_of in Htx. rewrite Hl in Htx. simpl in Htx.
  rewrite Htx. exists b1. split; [done|]. split; [done|].
  intros id'. by destruct (status_of_GetOrCreateConnection _ _ _ id' _ Hg)
    as (? & ? & _).
Qed.

Lemma RollbackTransaction_held (b : SQLiteBackend) (id : string) :
  backend_ok b → status_of b id ≠ TxIdle →
  ∃ tx r b', tx_of b id = Some tx
    ∧ RollbackTransaction b id = (b', match r with
                                       | ROk _ => None
                                       | RErr m => Some ("failed to rollback transaction: " +:+ m)
                                       end)
    ∧ calls b' = calls b ++ [(CRollback tx, r)]
    ∧ status_of b' id = match r with
                        | ROk _ => TxIdle
                        | RErr _ => status_of b id
                        end.
Proof.
  intros Hb Hs. destruct (not_idle_holds_tx _ _ Hb Hs) as (conn & tx & Hl & Hin & Htx).
  unfold RollbackTransaction, tx_of. rewrite (GetOrCreateConnection_found _ _ _ Hl), Hl.
  simpl. unfold active_tx. rewrite Hin, Htx.
  split_call b2 r. exists tx, r. destruct r; eexists; (split; [done|]);
    (split; [done|]); (split; [done|]).
  - apply status_of_store.
  - by apply status_of_same.
Qed.

Lemma RollbackTransaction_ok (b b' : SQLiteBackend) (id : string) :
  RollbackTransaction b id = (b', None) → status_of b' id = TxIdle.
Proof.
  unfold RollbackTransaction. intros H.
  repeat (case_match; simplify_eq/=). apply status_of_store.
Qed.

Lemma GetTransactionStatus_status_of (b : SQLiteBackend) (id : string) :
  (GetTransactionStatus b id).2 = status_of b id.
Proof.
  unfold GetTransactionStatus.
  destruct (GetOrCreateConnection b id) as [b1 conn] eqn:Hg.
  pose proof (GetOrCreateConnection_spec _ _ _ _ Hg) as (Hl & _).
  destruct (status_of_GetOrCreateConnection _ _ _ id _ Hg) as (<- & _).
  unfold status_of. by rewrite Hl.
Qed.

Lemma BeginTransaction_idle (b b' : SQLiteBackend) (id mode : string)
    (err : error) :
  status_of b id = TxIdle → BeginTransaction b id mode = (b', err) →
  status_of b' id = match err with
                    | None => TxInTransaction
                    | Some _ => TxIdle
                    end.
Proof.
  intros Hs H. destruct err as [m|]; [|by eapply BeginTransaction_ok].
  revert H. unfold BeginTransaction.
  destruct (GetOrCreateConnection b id) as [b1 conn] eqn:Hg.
  destruct (status_of_GetOrCreateConnection _ _ _ id _ Hg) as (Hs1 & _).
  rewrite <- Hs1 in Hs. intros H.
  repeat (case_match; simplify_eq/=);
    repeat match goal with
           | H : call ?b ?c = _ |- _ =>
               let Hc := fresh in
               pose proof (call_connections b c) as Hc;
               rewrite H in Hc; simpl in Hc; clear H
           end;
    try done;
    (etrans; [apply status_of_same|exact Hs]); congruence.
Qed.

Lemma active_tx_of (b b' : SQLiteBackend) (id : string)
    (conn : ConnectionState) :
  GetOrCreateConnection b id = (b', conn) → active_tx conn = tx_of b id.
Proof.
  intros Hg. pose proof (GetOrCreateConnection_spec _ _ _ _ Hg) as (Hl & _).
  destruct (status_of_GetOrCreateConnection _ _ _ id _ Hg) as (_ & <- & _).
  unfold tx_of. by rewrite Hl.
Qed.

(** *** The transitions, by what the engine answers *)

Lemma call_db (b : SQLiteBackend) (c : EngineCall) :
  db (call b c).1 = (engine (db b) c).1.
Proof. unfold call. by destruct (engine (db b) c) as [db' [v|m]], (allocates c). Qed.

Lemma call_answer (b : SQLiteBackend) (c : EngineCall) :
  (call b c).2
  = match (engine (db b) c).2 with
    | ROk v => ROk (if allocates c then next_handle b else v)
    | RErr m => RErr m
    end.
Proof. unfold call. by destruct (engine (db b) c) as [db' [v|m]], (allocates c). Qed.

Lemma GetOrCreateConnection_db (b b' : SQLiteBackend) (id : string)
    (conn : ConnectionState) :
  GetOrCreateConnection b id = (b', conn) → db b' = db b.
Proof.
  unfold GetOrCreateConnection. destruct (connections b !! id).
  - by intros [= <- _].
  - by intros [= <- _].
Qed.

Lemma tx_of_store (b : SQLiteBackend) (id : string) (conn : ConnectionState) :
  tx_of (store b id conn) id = active_tx conn.
Proof. unfold tx_of, store. simpl. by rewrite lookup_insert_eq. Qed.

Lemma tx_of_same (b b' : SQLiteBackend) (id : string) :
  connections b' = connections b → tx_of b' id = tx_of b id.
Proof. unfold tx_of. by intros ->. Qed.

(** [BeginTransaction] on an idle connection succeeds exactly when the
    engine accepts what it is asked. *)
Lemma BeginTransaction_answer (b : SQLiteBackend) (id mode : string) :
  backend_ok b → status_of b id = TxIdle →
  match begin_answer b mode with
  | ROk _ =>
      (BeginTransaction b id mode).2 = None
      ∧ status_of (BeginTransaction b id mode).1 id = TxInTransaction
      ∧ tx_of (BeginTransaction b id mode).1 id = Some (next_handle b)
  | RErr m =>
      (BeginTransaction b id mode).2
      = Some ("failed to begin transaction: " +:+ m)
      ∧ status_of (BeginTransaction b id mode).1 id = TxIdle
      ∧ tx_of (BeginTransaction b id mode).1 id = None
  end.
Proof.
  intros Hb Hs. pose proof (idle_holds_no_tx _ _ Hb Hs) as Hnone.
  unfold BeginTransaction, begin_answer, lock_statement.
  destruct (GetOrCreateConnection b id) as [b1 conn] eqn:Hg.
  pose proof (GetOrCreateConnection_spec _ _ _ _ Hg) as (Hl & _ & Hn & Hm & _).
  pose proof (GetOrCreateConnection_db _ _ _ _ Hg) as Hdb.
  destruct (status_of_GetOrCreateConnection _ _ _ id _ Hg) as (Hs1 & Ht1 & _).
  rewrite <- Hs1 in Hs. rewrite <- Ht1 in Hnone.
  assert (Hin : InTx conn = false).
  { unfold status_of in Hs. rewrite Hl in Hs.
    destruct (GetOrCreateConnection_ok _ _ _ _ Hg Hb) as [_ [_ Hc]].
    by apply Hc. }
  rewrite Hin, Hm, <- Hdb, <- Hn.
  set (txMode := if String.eqb mode "" then transactionMode b else mode).
  assert (Hidle : ∀ b' : SQLiteBackend, connections b' = connections b1 →
            status_of b' id = TxIdle ∧ tx_of b' id = None).
  { intros b' Hc. by rewrite (status_of_same _ _ _ Hc), (tx_of_same _ _ _ Hc). }
  unfold call.
  destruct (engine (db b1) CBegin) as [db1 [v|m]]; simpl.
  - destruct (String.eqb (ToLower txMode) "immediate");
      [|destruct (String.eqb (ToLower txMode) "exclusive")]; simpl.
    + destruct (engine db1 (CExec (HTx (next_handle b1)) "BEGIN IMMEDIATE" []))
        as [db2 [v2|m2]]; simpl.
      * by rewrite status_of_store, tx_of_store.
      * split; [done|]. by apply Hidle.
    + destruct (engine db1 (CExec (HTx (next_handle b1)) "BEGIN EXCLUSIVE" []))
        as [db2 [v2|m2]]; simpl.
      * by rewrite status_of_store, tx_of_store.
      * split; [done|]. by apply Hidle.
    + by rewrite status_of_store, tx_of_store.
  - destruct (String.eqb (ToLower txMode) "immediate");
      [|destruct (String.eqb (ToLower txMode) "exclusive")]; simpl;
      (split; [done|]); by apply Hidle.
Qed.

Lemma tx_of_held (b : SQLiteBackend) (id : string) (tx : nat) :
  tx_of b id = Some tx →
  ∃ conn, connections b !! id = Some conn ∧ active_tx conn = Some tx.
Proof.
  unfold tx_of. destruct (connections b !! id) as [conn|]; [|done].
  simpl. intros Ht. by exists conn.
Qed.

(** [CommitTransaction] on a connection that holds a transaction asks
    the engine once and ends as the engine answers. *)
Lemma CommitTransaction_answer (b : SQLiteBackend) (id : string) (tx : nat) :
  tx_of b id = Some tx →
  calls (CommitTransaction b id).1
  = calls b ++ [(CCommit tx, (engine (db b) (CCommit tx)).2)]
  ∧ match (engine (db b) (CCommit tx)).2 with
    | ROk _ =>
        (CommitTransaction b id).2 = None
        ∧ status_of (CommitTransaction b id).1 id = TxIdle
        ∧ tx_of (CommitTransaction b id).1 id = None
    | RErr m =>
        (CommitTransaction b id).2
        = Some ("failed to commit transaction: " +:+ m)
        ∧ status_of (CommitTransaction b id).1 id = TxFailed
        ∧ tx_of (CommitTransaction b id).1 id = Some tx
    end.
Proof.
  intros (conn & Hl & Ht)%tx_of_held. unfold CommitTransaction.
  rewrite (GetOrCreateConnection_found _ _ _ Hl), Ht. unfold call.
  destruct (engine (db b) (CCommit tx)) as [db1 [v|m]]; simpl;
    rewrite status_of_store, tx_of_store; done.
Qed.

(** [RollbackTransaction] on a connection that holds a transaction asks
    the engine once; refused, it leaves the connection as it was. *)
Lemma RollbackTransaction_answer (b : SQLiteBackend) (id : string)
    (tx : nat) :
  tx_of b id = Some tx →
  calls (RollbackTransaction b id).1
  = calls b ++ [(CRollback tx, (engine (db b) (CRollback tx)).2)]
  ∧ match (engine (db b) (CRollback tx)).2 with
    | ROk _ =>
        (RollbackTransaction b id).2 = None
        ∧ status_of (RollbackTransaction b id).1 id = TxIdle
        ∧ tx_of (RollbackTransaction b id).1 id = None
    | RErr m =>
        (RollbackTransaction b id).2
        = Some ("failed to rollback transaction: " +:+ m)
        ∧ status_of (RollbackTransaction b id).1 id = status_of b id
        ∧ tx_of (RollbackTransaction b id).1 id = Some tx
    end.
Proof.
  intros Htx. pose proof Htx as (conn & Hl & Ht)%tx_of_held.
  unfold RollbackTransaction.
  rewrite (GetOrCreateConnection_found _ _ _ Hl), Ht. unfold call.
  destruct (engine (db b) (CRollback tx)) as [db1 [v|m]]; simpl.
  - by rewrite status_of_store, tx_of_store.
  - split; [done|]. split; [done|]. split.
    + by apply status_of_same.
    + rewrite <- Htx. by apply tx_of_same.
Qed.

(** C1. Whatever operations came before, on this connection or on
    others, the status of a connection (what [GetTransactionStatus]
    reports) moves as the state machine says, each move decided by what
    the engine answers.  A connection is Idle exactly when it holds no
    transaction.  From Idle, a Begin the engine accepts leads to Active and
    one it refuses leaves Idle and returns the error; Commit and Rollback
    fail with "no transaction in progress", call no engine function and
    change no status.  From Active and from Failed, Begin fails with
    "transaction already in progress" and changes nothing at all; a Commit
    the engine accepts leads to Idle and one it refuses leads to Failed
    with the transaction still held; a Rollback the engine accepts leads
    to Idle and one it refuses leaves the status as it was. *)
Theorem transaction_state_machine (db0 : E) (mode0 : string)
    (ops : list Op) (id : string) :
  let b := run (NewSQLiteBackend db0 mode0) ops in
  (GetTransactionStatus b id).2 = status_of b id
  ∧ (status_of b id = TxIdle ↔ tx_of b id = None)
  ∧ (status_of b id = TxIdle →
     (∀ mode,
        match begin_answer b mode with
        | ROk _ =>
            (BeginTransaction b id mode).2 = None
            ∧ status_of (BeginTransaction b id mode).1 id = TxInTransaction
        | RErr m =>
            (BeginTransaction b id mode).2
            = Some ("failed to begin transaction: " +:+ m)
            ∧ status_of (BeginTransaction b id mode).1 id = TxIdle
        end)
     ∧ (∃ b', CommitTransaction b id
              = (b', Some "no transaction in progress")
              ∧ calls b' = calls b
              ∧ ∀ id', status_of b' id' = status_of b id'
                       ∧ tx_of b' id' = tx_of b id')
     ∧ (∃ b', RollbackTransaction b id
              = (b', Some "no transaction in progress")
              ∧ calls b' = calls b
              ∧ ∀ id', status_of b' id' = status_of b id'
                       ∧ tx_of b' id' = tx_of b id'))
  ∧ (∀ tx, tx_of b id = Some tx →
     (status_of b id = TxInTransaction ∨ status_of b id = TxFailed)
     ∧ (∀ mode, BeginTransaction b id mode
                = (b, Some "transaction already in progress"))
     ∧ match (engine (db b) (CCommit tx)).2 with
       | ROk _ =>
           (CommitTransaction b id).2 = None
           ∧ status_of (CommitTransaction b id).1 id = TxIdle
       | RErr m =>
           (CommitTransaction b id).2
           = Some ("failed to commit transaction: " +:+ m)
           ∧ status_of (CommitTransaction b id).1 id = TxFailed
           ∧ tx_of (CommitTransaction b id).1 id = Some tx
       end
     ∧ match (engine (db b) (CRollback tx)).2 with
       | ROk _ =>
           (RollbackTransaction b id).2 = None
           ∧ status_of (RollbackTransaction b id).1 id = TxIdle
       | RErr m =>
           (RollbackTransaction b id).2
           = Some ("failed to rollback transaction: " +:+ m)
           ∧ status_of (RollbackTransaction b id).1 id = status_of b id
           ∧ tx_of (RollbackTransaction b id).1 id = Some tx
       end).
Proof.
  intros b.
  assert (backend_ok b) as Hb by apply run_ok, NewSQLiteBackend_ok.
  assert (Hidle : status_of b id = TxIdle ↔ tx_of b id = None).
  { split; [by apply idle_holds_no_tx|]. intros Hn.
    destruct (decide (status_of b id = TxIdle)) as [|Hs]; [done|].
    destruct (not_idle_holds_tx _ _ Hb Hs) as (conn & tx & Hl & Hin & Htx).
    unfold tx_of, active_tx in Hn. rewrite Hl in Hn. simpl in Hn.
    by rewrite Hin, Htx in Hn. }
  split; [apply GetTransactionStatus_status_of|]. split; [done|].
  split.
  - intros Hs. split; [|split].
    + intros mode. pose proof (BeginTransaction_answer b id mode Hb Hs) as Ha.
      destruct (begin_answer b mode); tauto.
    + by apply CommitTransaction_idle.
    + by apply RollbackTransaction_idle.
  - intros tx Htx.
    assert (Hs : status_of b id ≠ TxIdle).
    { intros Hs%Hidle. congruence. }
    split; [destruct (status_of b id); tauto|].
    split; [intros mode; by apply BeginTransaction_active|].
    destruct (CommitTransaction_answer b id tx Htx) as [_ Hc].
    destruct (RollbackTransaction_answer b id tx Htx) as [_ Hr].
    split.
    + destruct (engine (db b) (CCommit tx)).2; tauto.
    + destruct (engine (db b) (CRollback tx)).2; tauto.
Qed.

(** C5: Query and Exec make one engine call each, on the transaction the
    connection holds when it holds one and on the shared database handle
    otherwise; the handle is a function of that alone, and a connection
    holds a transaction exactly when its status is not Idle. *)
Theorem statements_run_on_held_transaction (db0 : E) (mode0 : string)
    (ops : list Op) (id query : string) (args : list string) :
  let b := run (NewSQLiteBackend db0 mode0) ops in
  let h := match tx_of b id with Some tx => HTx tx | None => HDb end in
  (∃ b' r, Query b id query args = (b', r)
           ∧ calls b' = calls b ++ [(CQuery h query args, r)])
  ∧ (∃ b' r, Exec b id query args = (b', r)
             ∧ calls b' = calls b ++ [(CExec h query args, r)])
  ∧ (tx_of b id = None ↔ status_of b id = TxIdle).
Proof.
  intros b h.
  assert (backend_ok b) as Hb by apply run_ok, NewSQLiteBackend_ok.
  split; [|split].
  - unfold Query. destruct (GetOrCreateConnection b id) as [b1 conn] eqn:Hg.
    pose proof (GetOrCreateConnection_spec _ _ _ _ Hg) as (_ & Hc & _).
    rewrite (active_tx_of _ _ _ _ Hg). unfold h.
    destruct (tx_of b id); split_call b2 r; exists b2, r; by rewrite Hcalls, Hc.
  - unfold Exec. destruct (GetOrCreateConnection b id) as [b1 conn] eqn:Hg.
    pose proof (GetOrCreateConnection_spec _ _ _ _ Hg) as (_ & Hc & _).
    rewrite (active_tx_of _ _ _ _ Hg). unfold h.
    destruct (tx_of b id); split_call b2 r; exists b2, r; by rewrite Hcalls, Hc.
  - split; [|by apply idle_holds_no_tx].
    intros Hnone. destruct (decide (status_of b id = TxIdle)) as [|Hne]; [done|].
    destruct (not_idle_holds_tx _ _ Hb Hne) as (conn & tx & Hl & Hin & Htx).
    unfold tx_of, active_tx in Hnone. rewrite Hl in Hnone. simpl in Hnone.
    by rewrite Hin, Htx in Hnone.
Qed.

(** *** Prepared statements *)

Lemma open_stmts_snoc (evs : list (EngineCall * Reply))
    (ev : EngineCall * Reply) :
  open_stmts (evs ++ [ev]) = open_step (open_stmts evs) ev.
Proof. unfold open_stmts. by rewrite foldl_app. Qed.

Lemma bound_insert (b b' : SQLiteBackend) (id id' name : string)
    (conn : ConnectionState) :
  connections b' = <[id := conn]> (connections b) →
  bound b' id' name
  = if decide (id = id') then PreparedStmts conn !! name else bound b id' name.
Proof.
  intros Heq. unfold bound. rewrite Heq. case_decide as Hd.
  - subst. by rewrite lookup_insert_eq.
  - by rewrite lookup_insert_ne.
Qed.

Lemma bound_lookup (b : SQLiteBackend) (id name : string)
    (conn : ConnectionState) :
  connections b !! id = Some conn → bound b id name = PreparedStmts conn !! name.
Proof. unfold bound. by intros ->. Qed.

(** Nothing new is open, the names are bound as before. *)
Lemma stmts_ok_quiet (b b' : SQLiteBackend) :
  (∀ id name, bound b' id name = bound b id name) →
  open_stmts (calls b') ⊆ open_stmts (calls b) →
  next_handle b ≤ next_handle b' →
  stmts_ok b → stmts_ok b'.
Proof.
  intros Hbound Hopen Hnext [Ha Hb Hc]. split.
  - intros stmt Hin. destruct (Ha stmt (Hopen _ Hin)) as (id & name & H).
    exists id, name. by rewrite Hbound.
  - intros id1 n1 id2 n2 stmt. rewrite !Hbound. apply Hb.
  - intros id name stmt. rewrite Hbound. intros H.
    specialize (Hc _ _ _ H). lia.
Qed.

(** A name is bound to a newly allocated statement, whatever it was
    bound to before being closed. *)
Lemma stmts_ok_rebind (b b' : SQLiteBackend) (id name : string)
    (conn : ConnectionState) (A : gset nat) :
  stmts_ok b →
  connections b !! id = Some conn →
  open_stmts (calls b') = A ∪ {[next_handle b]} →
  A ⊆ open_stmts (calls b) →
  (∀ old, PreparedStmts conn !! name = Some old → old ∉ A) →
  next_handle b' = S (next_handle b) →
  connections b'
  = <[id := mkConn (ID conn) (Tx conn) (InTx conn) (TxStatus conn)
             (<[name := next_handle b]> (PreparedStmts conn))]>
      (connections b) →
  stmts_ok b'.
Proof.
  intros [Ha Hb Hc] Hl Hopen HA Hold Hnext Hconns.
  assert (∀ id' name' stmt, bound b' id' name' = Some stmt →
            (id' = id ∧ name' = name ∧ stmt = next_handle b)
            ∨ ((id', name') ≠ (id, name) ∧ bound b id' name' = Some stmt))
    as Hcases.
  { intros id' name' stmt. rewrite (bound_insert _ _ _ _ _ _ Hconns).
    case_decide as Hd; simpl.
    - subst id'. destruct (decide (name = name')) as [<-|Hn].
      + rewrite lookup_insert_eq. intros [= <-]. by left.
      + rewrite lookup_insert_ne by done. intros H. right.
        split; [congruence|]. by rewrite (bound_lookup _ _ _ _ Hl).
    - intros H. right. split; [congruence|done]. }
  split.
  - intros stmt. rewrite Hopen, elem_of_union, elem_of_singleton.
    intros [Hin| ->].
    + destruct (Ha stmt (HA _ Hin)) as (id' & name' & H).
      exists id', name'. rewrite (bound_insert _ _ _ _ _ _ Hconns).
      case_decide as Hd; simpl; [|done]. subst id'.
      rewrite (bound_lookup _ _ _ _ Hl) in H.
      destruct (decide (name = name')) as [<-|Hn].
      * by destruct (Hold _ H).
      * by rewrite lookup_insert_ne.
    + exists id, name. rewrite (bound_insert _ _ _ _ _ _ Hconns).
      rewrite decide_True by done. simpl. apply lookup_insert_eq.
  - intros id1 n1 id2 n2 stmt H1 H2.
    destruct (Hcases _ _ _ H1) as [(-> & -> & ->)|[_ H1']];
      destruct (Hcases _ _ _ H2) as [(-> & -> & E2)|[_ H2']]; try done.
    + specialize (Hc _ _ _ H2'). lia.
    + specialize (Hc _ _ _ H1'). lia.
    + by apply (Hb _ _ _ _ stmt).
  - intros id' name' stmt H. rewrite Hnext.
    destruct (Hcases _ _ _ H) as [(_ & _ & ->)|[_ H']]; [lia|].
    specialize (Hc _ _ _ H'). lia.
Qed.

(** A name is unbound once its statement is closed. *)
Lemma stmts_ok_unbind (b b' : SQLiteBackend) (id name : string)
    (conn : ConnectionState) (old : nat) :
  stmts_ok b →
  connections b !! id = Some conn →
  PreparedStmts conn !! name = Some old →
  open_stmts (calls b') ⊆ open_stmts (calls b) ∖ {[old]} →
  next_handle b ≤ next_handle b' →
  connections b'
  = <[id := mkConn (ID conn) (Tx conn) (InTx conn) (TxStatus conn)
             (delete name (PreparedStmts conn))]> (connections b) →
  stmts_ok b'.
Proof.
  intros [Ha Hb Hc] Hl Hold Hopen Hnext Hconns.
  assert (∀ id' name' stmt, bound b' id' name' = Some stmt →
            (id', name') ≠ (id, name) ∧ bound b id' name' = Some stmt)
    as Hcases.
  { intros id' name' stmt. rewrite (bound_insert _ _ _ _ _ _ Hconns).
    case_decide as Hd; simpl.
    - subst id'. rewrite lookup_delete_Some. intros [Hn H].
      split; [congruence|]. by rewrite (bound_lookup _ _ _ _ Hl).
    - intros H. split; [congruence|done]. }
  split.
  - intros stmt Hin. apply Hopen in Hin.
    apply elem_of_difference in Hin as [Hin Hne].
    rewrite not_elem_of_singleton in Hne.
    destruct (Ha stmt Hin) as (id' & name' & H).
    exists id', name'. rewrite (bound_insert _ _ _ _ _ _ Hconns).
    case_decide as Hd; simpl; [|done]. subst id'.
    rewrite (bound_lookup _ _ _ _ Hl) in H.
    rewrite lookup_delete_ne; [done|]. intros <-. congruence.
  - intros id1 n1 id2 n2 stmt H1 H2.
    destruct (Hcases _ _ _ H1) as [_ H1'].
    destruct (Hcases _ _ _ H2) as [_ H2']. by apply (Hb _ _ _ _ stmt).
  - intros id' name' stmt H. destruct (Hcases _ _ _ H) as [_ H'].
    specialize (Hc _ _ _ H'). lia.
Qed.

Lemma foldl_close_open (b : SQLiteBackend) (l : list nat) :
  open_stmts (calls (foldl (λ b stmt, (call b (CStmtClose stmt)).1) b l))
  = open_stmts (calls b) ∖ list_to_set l.
Proof.
  revert b. induction l as [|x l IH]; intros b; simpl.
  - by rewrite difference_empty_L.
  - rewrite IH, call_calls, open_stmts_snoc. simpl.
    apply difference_difference_l_L.
Qed.

Lemma foldl_close_next_handle (b : SQLiteBackend) (l : list nat) :
  next_handle (foldl (λ b stmt, (call b (CStmtClose stmt)).1) b l)
  = next_handle b.
Proof.
  revert b. induction l as [|x l IH]; intros b; simpl; [done|].
  rewrite IH, call_next_handle. by destruct (call b (CStmtClose x)).2.
Qed.

(** A connection leaves with all its statements closed. *)
Lemma stmts_ok_remove (b b' : SQLiteBackend) (id : string)
    (conn : ConnectionState) :
  stmts_ok b →
  connections b !! id = Some conn →
  open_stmts (calls b')
  ⊆ open_stmts (calls b) ∖ list_to_set ((map_to_list (PreparedStmts conn)).*2) →
  next_handle b ≤ next_handle b' →
  connections b' = delete id (connections b) →
  stmts_ok b'.
Proof.
  intros [Ha Hb Hc] Hl Hopen Hnext Hconns.
  assert (∀ id' name' stmt, bound b' id' name' = Some stmt →
            id' ≠ id ∧ bound b id' name' = Some stmt) as Hcases.
  { intros id' name' stmt. unfold bound. rewrite Hconns.
    destruct (decide (id = id')) as [<-|Hne].
    - by rewrite lookup_delete_eq.
    - rewrite lookup_delete_ne by done. intros H. split; [congruence|done]. }
  split.
  - intros stmt Hin. apply Hopen in Hin.
    apply elem_of_difference in Hin as [Hin Hnot].
    destruct (Ha stmt Hin) as (id' & name' & H).
    exists id', name'. unfold bound. rewrite Hconns.
    destruct (decide (id = id')) as [<-|Hne].
    + destruct Hnot. rewrite (bound_lookup _ _ _ _ Hl) in H.
      apply elem_of_list_to_set, list_elem_of_fmap.
      exists (name', stmt). split; [done|]. by apply elem_of_map_to_list.
    + by rewrite lookup_delete_ne.
  - intros id1 n1 id2 n2 stmt H1 H2.
    destruct (Hcases _ _ _ H1) as [_ H1'].
    destruct (Hcases _ _ _ H2) as [_ H2']. by apply (Hb _ _ _ _ stmt).
  - intros id' name' stmt H. destruct (Hcases _ _ _ H) as [_ H'].
    specialize (Hc _ _ _ H'). lia.
Qed.

Lemma call_next_handle_same (b : SQLiteBackend) (c : EngineCall) :
  allocates c = false → next_handle (call b c).1 = next_handle b.
Proof.
  intros Hc. rewrite call_next_handle, Hc. by destruct (call b c).2.
Qed.

(** Turns every equation [call b c = (b', r)] of the context into what
    it says about the connections, the history and the allocator. *)
Ltac call_facts :=
  repeat match goal with
         | H : call ?b ?c = (?b', ?r) |- _ =>
             let H1 := fresh "Hconns" in
             let H2 := fresh "Hcalls" in
             let H3 := fresh "Hnext" in
             pose proof (call_connections b c) as H1;
             pose proof (call_calls b c) as H2;
             pose proof (call_next_handle_le b c) as H3;
             rewrite H in H1, H2, H3; simpl in H1, H2, H3; clear H
         end.

Lemma bound_same (b b' : SQLiteBackend) (id name : string) :
  connections b' = connections b → bound b' id name = bound b id name.
Proof. unfold bound. by intros ->. Qed.

Lemma bound_store_same (b1 b2 : SQLiteBackend) (id : string)
    (conn conn' : ConnectionState) :
  connections b2 = connections b1 →
  connections b1 !! id = Some conn →
  PreparedStmts conn' = PreparedStmts conn →
  ∀ id' name, bound (store b2 id conn') id' name = bound b1 id' name.
Proof.
  intros Heq Hl Hp id' name. rewrite (bound_insert b2 _ id id' name conn')
    by done.
  case_decide as Hd; [|by apply bound_same]. subst id'.
  by rewrite Hp, (bound_lookup _ _ _ _ Hl).
Qed.

Lemma GetOrCreateConnection_stmts_ok (b b1 : SQLiteBackend) (id : string)
    (conn : ConnectionState) :
  GetOrCreateConnection b id = (b1, conn) → stmts_ok b → stmts_ok b1.
Proof.
  intros Hg. pose proof (GetOrCreateConnection_spec _ _ _ _ Hg)
    as (_ & Hc & Hn & _).
  apply stmts_ok_quiet; [|by rewrite Hc|by rewrite Hn].
  intros id' name.
  by destruct (status_of_GetOrCreateConnection _ _ _ id' _ Hg) as (_ & _ & ?).
Qed.

(** The four cases of [Prepare]: the name was bound or not, the engine
    prepared the statement or refused. *)
Lemma Prepare_spec (b b' : SQLiteBackend) (id name query : string)
    (err : error) :
  stmts_ok b → Prepare b id name query = (b', err) →
  let h := match tx_of b id with Some tx => HTx tx | None => HDb end in
  stmts_ok b'
  ∧ (∀ id' name', (id', name') ≠ (id, name) →
       bound b' id' name' = bound b id' name')
  ∧ match bound b id name, err with
    | Some old, None =>
        (∃ r, calls b' = calls b ++ [(CStmtClose old, r);
                                     (CPrepare h query, ROk (next_handle b))])
        ∧ bound b' id name = Some (next_handle b)
        ∧ open_stmts (calls b')
          = open_stmts (calls b) ∖ {[old]} ∪ {[next_handle b]}
    | None, None =>
        calls b' = calls b ++ [(CPrepare h query, ROk (next_handle b))]
        ∧ bound b' id name = Some (next_handle b)
        ∧ open_stmts (calls b') = open_stmts (calls b) ∪ {[next_handle b]}
    | Some old, Some _ =>
        bound b' id name = Some old
        ∧ open_stmts (calls b') = open_stmts (calls b) ∖ {[old]}
    | None, Some _ =>
        bound b' id name = None
        ∧ open_stmts (calls b') = open_stmts (calls b)
    end.
Proof.
  intros Hok. unfold Prepare.
  destruct (GetOrCreateConnection b id) as [b1 conn] eqn:Hg.
  pose proof (GetOrCreateConnection_stmts_ok _ _ _ _ Hg Hok) as Hok1.
  pose proof (GetOrCreateConnection_spec _ _ _ _ Hg) as (Hl & Hc1 & Hn1 & _).
  rewrite (active_tx_of _ _ _ _ Hg).
  assert (∀ id' name', bound b1 id' name' = bound b id' name') as Hb1.
  { intros id' name'.
    by destruct (status_of_GetOrCreateConnection _ _ _ id' _ Hg) as (_ & _ & ?). }
  rewrite <- (Hb1 id name), (bound_lookup _ _ _ _ Hl), <- Hc1, <- Hn1.
  set (h := match tx_of b id with Some tx => HTx tx | None => HDb end).
  set (b2 := match PreparedStmts conn !! name with
             | Some stmt => (call b1 (CStmtClose stmt)).1
             | None => b1
             end).
  assert (connections b2 = connections b1 ∧ next_handle b2 = next_handle b1
          ∧ open_stmts (calls b2)
            = match PreparedStmts conn !! name with
              | Some old => open_stmts (calls b1) ∖ {[old]}
              | None => open_stmts (calls b1)
              end
          ∧ match PreparedStmts conn !! name with
            | Some old => ∃ r, calls b2 = calls b1 ++ [(CStmtClose old, r)]
            | None => calls b2 = calls b1
            end) as (Hc2 & Hn2 & Ho2 & Hl2).
  { unfold b2. destruct (PreparedStmts conn !! name) as [old|]; [|done].
    split; [apply call_connections|].
    split; [by apply call_next_handle_same|].
    rewrite call_calls, open_stmts_snoc. split; [done|]. by eexists. }
  clearbody b2.
  assert (∃ b3 r, (match tx_of b id with
                   | Some tx => call b2 (CPrepare (HTx tx) query)
                   | None => call b2 (CPrepare HDb query)
                   end) = (b3, r)
                  ∧ call b2 (CPrepare h query) = (b3, r)) as (b3 & r & -> & Hcall).
  { unfold h. destruct (tx_of b id);
      destruct (call b2 _) as [b3 r]; by exists b3, r. }
  pose proof (call_connections b2 (CPrepare h query)) as Hc3.
  pose proof (call_calls b2 (CPrepare h query)) as Hl3.
  pose proof (call_next_handle b2 (CPrepare h query)) as Hn3.
  pose proof (call_allocated b2 (CPrepare h query)) as Ha3.
  rewrite Hcall in Hc3, Hl3, Hn3, Ha3. simpl in Hc3, Hl3, Hn3, Ha3.
  destruct r as [stmt|m]; intros [= <- <-].
  - rewrite (Ha3 stmt eq_refl eq_refl), Hn2 in *. clear Ha3.
    assert (open_stmts (calls b3)
            = open_stmts (calls b2) ∪ {[next_handle b1]}) as Ho3.
    { by rewrite Hl3, open_stmts_snoc. }
    split; [|split].
    + apply (stmts_ok_rebind b1 _ id name conn (open_stmts (calls b2)));
        [done|done|done| | |done|by simpl; rewrite Hc3, Hc2].
      * rewrite Ho2. destruct (PreparedStmts conn !! name); [|done].
        apply subseteq_difference_l. done.
      * intros old Hold. rewrite Ho2, Hold.
        rewrite elem_of_difference, elem_of_singleton. by intros [_ ?].
    + intros id' name' Hne. rewrite <- Hb1.
      rewrite (bound_insert b1 _ id id' name' _)
        by (simpl; by rewrite Hc3, Hc2).
      case_decide as Hd; [|done]. subst id'. simpl.
      rewrite (bound_lookup _ _ _ _ Hl).
      apply lookup_insert_ne. congruence.
    + assert (bound (store b3 id
                (mkConn (ID conn) (Tx conn) (InTx conn) (TxStatus conn)
                   (<[name:=next_handle b1]> (PreparedStmts conn)))) id name
              = Some (next_handle b1)) as Hnew.
      { unfold bound, store. simpl. rewrite lookup_insert_eq. simpl.
        apply lookup_insert_eq. }
      destruct (PreparedStmts conn !! name) as [old|].
      * destruct Hl2 as [r0 Hl2]. split; [|split; [done|]].
        -- exists r0. simpl. by rewrite Hl3, Hl2, <- app_assoc.
        -- simpl. by rewrite Ho3, Ho2.
      * split; [|split; [done|]].
        -- simpl. by rewrite Hl3, Hl2.
        -- simpl. by rewrite Ho3, Ho2.
  - assert (open_stmts (calls b3) = open_stmts (calls b2)) as Ho3.
    { by rewrite Hl3, open_stmts_snoc. }
    assert (∀ id' name', bound b3 id' name' = bound b1 id' name') as Hb3.
    { intros id' name'. apply bound_same. by rewrite Hc3. }
    split; [|split].
    + apply (stmts_ok_quiet b1); [done| |lia|done].
      rewrite Ho3, Ho2. destruct (PreparedStmts conn !! name); [|done].
      by apply subseteq_difference_l.
    + intros id' name' _. by rewrite Hb3, Hb1.
    + rewrite Hb3, (bound_lookup _ _ _ _ Hl), Ho3, Ho2.
      by destruct (PreparedStmts conn !! name).
Qed.

(** Closes a goal [stmts_ok b'] where [b'] differs from a good backend
    by engine calls that open no statement and by a rewritten connection
    with the same statements. *)
Ltac quiet_step b1 Hok1 Hl :=
  call_facts; simpl;
  apply (stmts_ok_quiet b1); [| | |exact Hok1];
  [ first [ eapply (bound_store_same b1); [|exact Hl|done]; congruence
          | intros ? ?; apply bound_same; congruence ]
  | simpl; repeat match goal with
                  | H : calls _ = _ |- _ => rewrite H; clear H
                  end;
    rewrite ?open_stmts_snoc; simpl;
    rewrite ?open_stmts_snoc; simpl;
    first [ reflexivity | apply subseteq_difference_l; reflexivity ]
  | simpl; lia ].

Lemma apply_op_stmts_ok (b : SQLiteBackend) (op : Op) :
  stmts_ok b → stmts_ok (apply_op b op).
Proof.
  intros Hok. destruct op as [id mode|id|id|id q args|id q args|id name q
                             |id name args|id name|id seed|id]; simpl.
  - unfold BeginTransaction.
    destruct (GetOrCreateConnection b id) as [b1 conn] eqn:Hg.
    pose proof (GetOrCreateConnection_stmts_ok _ _ _ _ Hg Hok) as Hok1.
    pose proof (GetOrCreateConnection_spec _ _ _ _ Hg) as (Hl & _).
    clear Hg Hok.
    repeat (case_match; simplify_eq/=); try done; quiet_step b1 Hok1 Hl.
  - unfold CommitTransaction.
    destruct (GetOrCreateConnection b id) as [b1 conn] eqn:Hg.
    pose proof (GetOrCreateConnection_stmts_ok _ _ _ _ Hg Hok) as Hok1.
    pose proof (GetOrCreateConnection_spec _ _ _ _ Hg) as (Hl & _).
    clear Hg Hok.
    repeat (case_match; simplify_eq/=); try done; quiet_step b1 Hok1 Hl.
  - unfold RollbackTransaction.
    destruct (GetOrCreateConnection b id) as [b1 conn] eqn:Hg.
    pose proof (GetOrCreateConnection_stmts_ok _ _ _ _ Hg Hok) as Hok1.
    pose proof (GetOrCreateConnection_spec _ _ _ _ Hg) as (Hl & _).
    clear Hg Hok.
    repeat (case_match; simplify_eq/=); try done; quiet_step b1 Hok1 Hl.
  - unfold Query.
    destruct (GetOrCreateConnection b id) as [b1 conn] eqn:Hg.
    pose proof (GetOrCreateConnection_stmts_ok _ _ _ _ Hg Hok) as Hok1.
    pose proof (GetOrCreateConnection_spec _ _ _ _ Hg) as (Hl & _).
    clear Hg Hok.
    destruct (active_tx conn);
      match goal with |- stmts_ok (call ?b ?c).1 =>
        destruct (call b c) as [b2 r] eqn:Hcall end;
      quiet_step b1 Hok1 Hl.
  - unfold Exec.
    destruct (GetOrCreateConnection b id) as [b1 conn] eqn:Hg.
    pose proof (GetOrCreateConnection_stmts_ok _ _ _ _ Hg Hok) as Hok1.
    pose proof (GetOrCreateConnection_spec _ _ _ _ Hg) as (Hl & _).
    clear Hg Hok.
    destruct (active_tx conn);
      match goal with |- stmts_ok (call ?b ?c).1 =>
        destruct (call b c) as [b2 r] eqn:Hcall end;
      quiet_step b1 Hok1 Hl.
  - destruct (Prepare b id name q) as [b' err] eqn:Hp.
    by destruct (Prepare_spec _ _ _ _ _ _ Hok Hp) as [? _].
  - unfold ExecutePrepared.
    destruct (GetOrCreateConnection b id) as [b1 conn] eqn:Hg.
    pose proof (GetOrCreateConnection_stmts_ok _ _ _ _ Hg Hok) as Hok1.
    pose proof (GetOrCreateConnection_spec _ _ _ _ Hg) as (Hl & _).
    clear Hg Hok.
    destruct (PreparedStmts conn !! name); [|done].
    match goal with |- stmts_ok (call ?b ?c).1 =>
      destruct (call b c) as [b2 r] eqn:Hcall end.
    quiet_step b1 Hok1 Hl.
  - unfold ClosePrepared.
    destruct (GetOrCreateConnection b id) as [b1 conn] eqn:Hg.
    pose proof (GetOrCreateConnection_stmts_ok _ _ _ _ Hg Hok) as Hok1.
    pose proof (GetOrCreateConnection_spec _ _ _ _ Hg) as (Hl & _).
    clear Hg Hok.
    destruct (PreparedStmts conn !! name) as [old|] eqn:Hold; [|done].
    destruct (call b1 (CStmtClose old)) as [b2 r] eqn:Hcall.
    destruct r; simpl; [|quiet_step b1 Hok1 Hl].
    call_facts.
    apply (stmts_ok_unbind b1 _ id name conn old); try done.
    + simpl. by rewrite Hcalls, open_stmts_snoc.
    + simpl. by rewrite Hconns.
  - unfold RemoveConnection.
    destruct (connections b !! id) as [conn|] eqn:Hl; [|done].
    set (l := range_order seed ((map_to_list (PreparedStmts conn)).*2)).
    assert (Hset : list_to_set l
                   =@{gset nat} list_to_set
                                  ((map_to_list (PreparedStmts conn)).*2))
      by apply list_to_set_perm_L, range_order_perm.
    pose proof (foldl_close_open b l) as Ho. rewrite Hset in Ho.
    pose proof (foldl_close_next_handle b l) as Hn.
    pose proof (foldl_close_connections b l) as Hc.
    set (b1 := foldl _ b l) in *. clearbody b1.
    apply (stmts_ok_remove b _ id conn); [done|done| | |].
    + destruct (active_tx conn) as [tx|]; simpl;
        [rewrite call_calls, open_stmts_snoc; simpl|]; by rewrite Ho.
    + destruct (active_tx conn) as [tx|]; simpl; [|lia].
      rewrite <- Hn. apply call_next_handle_le.
    + destruct (active_tx conn) as [tx|]; simpl; [|by rewrite Hc].
      by rewrite call_connections, Hc.
  - unfold GetTransactionStatus.
    destruct (GetOrCreateConnection b id) as [b1 conn] eqn:Hg.
    by apply (GetOrCreateConnection_stmts_ok _ _ _ _ Hg).
Qed.

Lemma run_stmts_ok (b : SQLiteBackend) (ops : list Op) :
  stmts_ok b → stmts_ok (run b ops).
Proof.
  revert b. induction ops as [|op ops IH]; intros b Hb; simpl; [done|].
  apply IH. by apply apply_op_stmts_ok.
Qed.

Lemma NewSQLiteBackend_stmts_ok (db0 : E) (mode : string) :
  stmts_ok (NewSQLiteBackend db0 mode).
Proof.
  split.
  - intros stmt. unfold open_stmts. simpl. by rewrite elem_of_empty.
  - intros id1 n1 id2 n2 stmt. unfold bound. simpl. by rewrite lookup_empty.
  - intros id name stmt. unfold bound. simpl. by rewrite lookup_empty.
Qed.

(** [Prepare] returns an error exactly when the engine refuses to
    prepare. *)
Lemma Prepare_answer (b : SQLiteBackend) (id name query : string) :
  (Prepare b id name query).2
  = match prepare_answer b id name query with
    | ROk _ => None
    | RErr m => Some ("failed to prepare statement: " +:+ m)
    end.
Proof.
  unfold Prepare, prepare_answer.
  destruct (GetOrCreateConnection b id) as [b1 conn] eqn:Hg.
  pose proof (GetOrCreateConnection_spec _ _ _ _ Hg) as (Hl & _).
  pose proof (GetOrCreateConnection_db _ _ _ _ Hg) as Hdb.
  destruct (status_of_GetOrCreateConnection _ _ _ id _ Hg) as (_ & _ & Hbd).
  rewrite (active_tx_of _ _ _ _ Hg), <- (Hbd name), (bound_lookup _ _ _ _ Hl).
  rewrite <- Hdb.
  set (h := match tx_of b id with Some tx => HTx tx | None => HDb end).
  assert (Hcall : ∀ b2 : SQLiteBackend,
            (let '(b3, r) := call b2 (CPrepare h query) in
             match r with
             | ROk stmt =>
                 (store b3 id
                    (mkConn (ID conn) (Tx conn) (InTx conn) (TxStatus conn)
                       (<[name := stmt]> (PreparedStmts conn))),
                  None)
             | RErr m => (b3, Some ("failed to prepare statement: " +:+ m))
             end).2
            = match (engine (db b2) (CPrepare h query)).2 with
              | ROk _ => None
              | RErr m => Some ("failed to prepare statement: " +:+ m)
              end).
  { intros b2. unfold call.
    by destruct (engine (db b2) (CPrepare h query)) as [db' [v|m]]. }
  destruct (PreparedStmts conn !! name) as [old|].
  - rewrite <- (call_db b1 (CStmtClose old)).
    destruct (tx_of b id); apply Hcall.
  - destruct (tx_of b id); apply Hcall.
Qed.

(** C10 (amended). In every state the backend reaches, each statement
    that is open is bound under one name of one connection and under no
    other, so a name never has more than one open statement, and [Prepare]
    keeps it so and touches no other name.  Under a name that is bound it
    first closes the statement bound there; then, when the engine prepares
    the new statement, it binds the name to it, and when the engine
    refuses, it returns the error and leaves the name bound to the
    statement it has just closed.  Under a fresh name it only adds the
    binding, when the engine prepares. *)
Theorem prepare_rebinds_name (db0 : E) (mode0 : string) (ops : list Op)
    (id name query : string) :
  let b := run (NewSQLiteBackend db0 mode0) ops in
  let h := match tx_of b id with Some tx => HTx tx | None => HDb end in
  let b' := (Prepare b id name query).1 in
  let err := (Prepare b id name query).2 in
  stmts_ok b
  ∧ stmts_ok b'
  ∧ (∀ id' name', (id', name') ≠ (id, name) →
       bound b' id' name' = bound b id' name')
  ∧ match prepare_answer b id name query with
    | ROk _ =>
        err = None
        ∧ bound b' id name = Some (next_handle b)
        ∧ match bound b id name with
          | Some old =>
              (∃ r, calls b'
                    = calls b ++ [(CStmtClose old, r);
                                  (CPrepare h query, ROk (next_handle b))])
              ∧ open_stmts (calls b')
                = open_stmts (calls b) ∖ {[old]} ∪ {[next_handle b]}
          | None =>
              calls b' = calls b ++ [(CPrepare h query, ROk (next_handle b))]
              ∧ open_stmts (calls b')
                = open_stmts (calls b) ∪ {[next_handle b]}
          end
    | RErr m =>
        err = Some ("failed to prepare statement: " +:+ m)
        ∧ bound b' id name = bound b id name
        ∧ match bound b id name with
          | Some old => open_stmts (calls b') = open_stmts (calls b) ∖ {[old]}
          | None => open_stmts (calls b') = open_stmts (calls b)
          end
    end.
Proof.
  intros b h b' err.
  assert (stmts_ok b) as Hok by apply run_stmts_ok, NewSQLiteBackend_stmts_ok.
  pose proof (Prepare_answer b id name query) as Hans. fold err in Hans.
  pose proof (Prepare_spec b b' id name query err Hok) as Hspec.
  destruct Hspec as (Hok' & Hother & Hcase).
  { unfold b', err. by destruct (Prepare b id name query). }
  fold h in Hcase. split; [done|]. split; [done|]. split; [done|].
  destruct (prepare_answer b id name query) as [v|m]; rewrite Hans in *;
    (split; [done|]); destruct (bound b id name) as [old|]; tauto.
Qed.

End WithEngine.

(** The examples are in ASCII text, which never reaches the tables, and
    range over their maps in the order of the listing. *)
#[local] Existing Instance no_tables.
#[local] Existing Instance in_listing_order.

(** An engine for examples: it answers from a script, one answer per
    call, and accepts every call once the script is used up. *)
Definition scripted (script : list Reply) (c : EngineCall)
  : list Reply * Reply :=
  match script with
  | [] => ([], ROk 0)
  | r :: rest => (rest, r)
  end.

(** TestTransactions and TestPreparedStatements of sqlite_backend_test.go,
    on an engine that accepts everything: the statuses a connection goes
    through, and the handles its statements run on. *)
Example run_transactions :
  let b0 := NewSQLiteBackend (E := list Reply) [] "deferred" in
  let b1 := run scripted b0 [OpBegin "c2" "deferred"; OpExec "c2" "INSERT" []] in
  let b2 := run scripted b1 [OpCommit "c2"; OpQuery "c2" "SELECT" []] in
  status_of b0 "c2" = TxIdle
  ∧ status_of b1 "c2" = TxInTransaction
  ∧ status_of b2 "c2" = TxIdle
  ∧ (calls b2).*1 = [CBegin; CExec (HTx 0) "INSERT" []; CCommit 0;
                     CQuery HDb "SELECT" []].
Proof. vm_compute. done. Qed.

(** A commit the engine refuses, then the rollback that clears it. *)
Example run_failed_commit :
  let b0 := NewSQLiteBackend [ROk 0; RErr "database is locked"] "deferred" in
  let b1 := run scripted b0 [OpBegin "c1" ""] in
  let '(b2, err) := CommitTransaction scripted b1 "c1" in
  let '(b3, err') := BeginTransaction scripted b2 "c1" "immediate" in
  let '(b4, err'') := RollbackTransaction scripted b3 "c1" in
  status_of b1 "c1" = TxInTransaction
  ∧ err = Some "failed to commit transaction: database is locked"
  ∧ status_of b2 "c1" = TxFailed
  ∧ err' = Some "transaction already in progress"
  ∧ status_of b3 "c1" = TxFailed
  ∧ err'' = None
  ∧ status_of b4 "c1" = TxIdle
  ∧ (calls b4).*1 = [CBegin; CCommit 0; CRollback 0].
Proof. vm_compute. done. Qed.

(** Preparing twice under one name closes the first statement. *)
Example run_prepare_twice :
  let b0 := NewSQLiteBackend (E := list Reply) [] "deferred" in
  let b1 := run scripted b0 [OpPrepare "c4" "ins" "INSERT 1"] in
  let b2 := run scripted b1 [OpPrepare "c4" "ins" "INSERT 2"] in
  bound b1 "c4" "ins" = Some 0
  ∧ open_stmts (calls b1) = {[0]}
  ∧ bound b2 "c4" "ins" = Some 1
  ∧ open_stmts (calls b2) = {[1]}
  ∧ (calls b2).*1 = [CPrepare HDb "INSERT 1"; CStmtClose 0;
                     CPrepare HDb "INSERT 2"].
Proof. vm_compute. done. Qed.

(** C10, as the claim words it: the entry of a bound name would be
    replaced whenever a statement is prepared under it.  When the engine
    refuses to prepare, the old statement is closed and the entry is not
    replaced: the name stays bound to the closed statement, which the next
    [ExecutePrepared] under the name then runs. *)
Lemma prepare_refused_keeps_closed_statement :
  let b0 := NewSQLiteBackend [ROk 0; ROk 0; RErr "syntax error"] "deferred" in
  let b1 := run scripted b0 [OpPrepare "c4" "ins" "INSERT 1"] in
  let '(b2, err) := Prepare scripted b1 "c4" "ins" "INSERT INTO" in
  let b3 := run scripted b2 [OpExecutePrepared "c4" "ins" []] in
  bound b1 "c4" "ins" = Some 0
  ∧ open_stmts (calls b1) = {[0]}
  ∧ err = Some "failed to prepare statement: syntax error"
  ∧ bound b2 "c4" "ins" = Some 0
  ∧ open_stmts (calls b2) = ∅
  ∧ (calls b3).*1 = [CPrepare HDb "INSERT 1"; CStmtClose 0;
                     CPrepare HDb "INSERT INTO"; CStmtQuery 0 []].
Proof. vm_compute. done. Qed.

(** Begin, a commit the engine refuses, a commit it accepts: the
    connection goes from Idle to Active, to Failed and back to Idle. *)
Lemma transaction_state_machine_example :
  let b0 := NewSQLiteBackend [ROk 0; RErr "disk I/O error"; ROk 0] "" in
  let b1 := (BeginTransaction scripted b0 "c1" "").1 in
  let b2 := (CommitTransaction scripted b1 "c1").1 in
  let b3 := (CommitTransaction scripted b2 "c1").1 in
  status_of b0 "c1" = TxIdle
  ∧ status_of b1 "c1" = TxInTransaction
  ∧ status_of b2 "c1" = TxFailed
  ∧ status_of b3 "c1" = TxIdle.
Proof.
  intros b0 b1 b2 b3.
  destruct (transaction_state_machine scripted
              [ROk 0; RErr "disk I/O error"; ROk 0] "" [] "c1")
    as (_ & _ & Hidle & _).
  destruct (Hidle eq_refl) as (Hbegin & _). specialize (Hbegin "").
  destruct (transaction_state_machine scripted
              [ROk 0; RErr "disk I/O error"; ROk 0] "" [OpBegin "c1" ""] "c1")
    as (_ & _ & _ & Hheld1).
  destruct (Hheld1 0 eq_refl) as (_ & _ & Hcommit1 & _).
  destruct (transaction_state_machine scripted
              [ROk 0; RErr "disk I/O error"; ROk 0] ""
              [OpBegin "c1" ""; OpCommit "c1"] "c1")
    as (_ & _ & _ & Hheld2).
  destruct (Hheld2 0 eq_refl) as (_ & _ & Hcommit2 & _).
  split; [reflexivity|]. split; [exact (proj2 Hbegin)|].
  split; [exact (proj1 (proj2 Hcommit1))|]. exact (proj2 Hcommit2).
Defined.

End Backend.

(** ** The transaction manager (transaction.go) and the wire handler
       ([SimpleWireHandler]) *)

Module Transaction.
Import GoStrings Backend.

(** A buffered channel of booleans: its capacity and what it holds. *)
Record Chan := mkChan { chan_cap : nat; chan_buf : list bool }.

(** [make(chan bool, n)]. *)
Definition make_chan (n : nat) : Chan := mkChan n [].

(** [select { case ch <- v: default: }]: the value is queued when the
    buffer has room and dropped otherwise; the sender goes on either way. *)
Definition try_send (ch : Chan) (v : bool) : Chan :=
  if length (chan_buf ch) <? chan_cap ch
  then mkChan (chan_cap ch) (chan_buf ch ++ [v])
  else ch.

(** [<-ch], when a value is waiting. *)
Definition receive (ch : Chan) : Chan :=
  mkChan (chan_cap ch) (tail (chan_buf ch)).

(** What happens to a transaction manager: the calls of its clients,
    the calls the handler makes to the backend it shares with the
    manager, and the wake-ups of the upload worker.  The worker's upload
    goes through the database cache; its outcome and the clock are inputs
    here. *)
Inductive Event :=
| EvBegin (connectionID mode : string)
| EvCommit (connectionID : string)
| EvRollback (connectionID : string)
| EvBackend (op : Op)
| EvSignal (upload : error) (now : Z)                 (* <-tm.uploadChan *)
| EvTick (shouldSync : bool) (upload : error) (now : Z). (* <-ticker.C *)

Section WithEngine.

Context {tables : Unicode} {ranges : MapRange}.
Context {E : Type} (engine : E → EngineCall → E * Reply).

(** [TransactionManager], without its locks, stop channel and wait group. *)
Record TransactionManager := mkTM {
  backend : SQLiteBackend (E := E);
  lastUpload : Z;
  uploadPending : bool;
  uploadChan : Chan
}.

(** [NewTransactionManager]; the worker it starts is [worker_step]. *)
Definition NewTransactionManager (b : SQLiteBackend) : TransactionManager :=
  mkTM b 0 false (make_chan 1).

(** [performUpload], given what [tm.cache.Upload] returned and the time;
    the second component is the line it logs. *)
Definition performUpload (tm : TransactionManager) (upload : error) (now : Z)
  : TransactionManager * string :=
  match upload with
  | Some m =>
      (tm, "ERROR: Failed to upload database to blob storage: " +:+ m)
  | None =>
      (mkTM (backend tm) now false (uploadChan tm),
       "INFO: Successfully uploaded database to blob storage")
  end.

(** [Begin]. *)
Definition Begin (tm : TransactionManager) (connectionID mode : string)
  : TransactionManager * error :=
  let '(b, err) := BeginTransaction engine (backend tm) connectionID mode in
  (mkTM b (lastUpload tm) (uploadPending tm) (uploadChan tm), err).

(** [Commit]. *)
Definition Commit (tm : TransactionManager) (connectionID : string)
  : TransactionManager * error :=
  let '(b, err) := CommitTransaction engine (backend tm) connectionID in
  match err with
  | Some m => (mkTM b (lastUpload tm) (uploadPending tm) (uploadChan tm), Some m)
  | None => (mkTM b (lastUpload tm) true (try_send (uploadChan tm) true), None)
  end.

(** [Rollback]. *)
Definition Rollback (tm : TransactionManager) (connectionID : string)
  : TransactionManager * error :=
  let '(b, err) := RollbackTransaction engine (backend tm) connectionID in
  (mkTM b (lastUpload tm) (uploadPending tm) (uploadChan tm), err).

(** One turn of the loop of [uploadWorker]. *)
Definition worker_step (tm : TransactionManager) (ev : Event)
  : TransactionManager :=
  match ev with
  | EvSignal upload now =>
      match chan_buf (uploadChan tm) with
      | [] => tm
      | _ :: _ =>
          (performUpload
             (mkTM (backend tm) (lastUpload tm) (uploadPending tm)
                (receive (uploadChan tm))) upload now).1
      end
  | EvTick shouldSync upload now =>
      if uploadPending tm || shouldSync
      then (performUpload tm upload now).1
      else tm
  | _ => tm
  end.

Definition tm_step (tm : TransactionManager) (ev : Event)
  : TransactionManager :=
  match ev with
  | EvBegin id mode => (Begin tm id mode).1
  | EvCommit id => (Commit tm id).1
  | EvRollback id => (Rollback tm id).1
  | EvBackend op =>
      mkTM (apply_op engine (backend tm) op) (lastUpload tm)
        (uploadPending tm) (uploadChan tm)
  | _ => worker_step tm ev
  end.

Definition tm_run (tm : TransactionManager) (evs : list Event)
  : TransactionManager :=
  foldl tm_step tm evs.

(** The signal channel holds nothing or one signal. *)
Definition chan_ok (ch : Chan) : Prop :=
  chan_cap ch = 1 ∧ (chan_buf ch = [] ∨ chan_buf ch = [true]).

(** [SimpleWireHandler]: the manager it drives and the lines it logged.
    The transaction monitor only keeps metrics and is left out. *)
Record SimpleWireHandler := mkHandler {
  txManager : TransactionManager;
  log : list string
}.

(** The mode [handleBeginSimple] resolves from the text of a BEGIN. *)
Definition begin_mode (query : string) : string :=
  let upperQuery := ToUpper query in
  if Contains upperQuery "IMMEDIATE" then "immediate"
  else if Contains upperQuery "EXCLUSIVE" then "exclusive"
  else "deferred".

(** [handleBeginSimple]. *)
Definition handleBeginSimple (h : SimpleWireHandler)
    (connectionID query : string) : SimpleWireHandler * error :=
  let mode := begin_mode query in
  let '(tm, err) := Begin (txManager h) connectionID mode in
  match err with
  | Some m =>
      (mkHandler tm (log h), Some ("failed to begin transaction: " +:+ m))
  | None => (mkHandler tm (log h), None)
  end.

(** [handleCommitSimple]. *)
Definition handleCommitSimple (h : SimpleWireHandler) (connectionID : string)
  : SimpleWireHandler * error :=
  let '(tm, err) := Commit (txManager h) connectionID in
  match err with
  | Some m =>
      (mkHandler tm (log h), Some ("failed to commit transaction: " +:+ m))
  | None => (mkHandler tm (log h), None)
  end.

(** [handleRollbackSimple]. *)
Definition handleRollbackSimple (h : SimpleWireHandler) (connectionID : string)
  : SimpleWireHandler * error :=
  let '(tm, err) := Rollback (txManager h) connectionID in
  match err with
  | Some m =>
      (mkHandler tm
         (log h ++ ["WARN: Rollback error for connection " +:+ connectionID
                    +:+ ": " +:+ m]),
       None)
  | None => (mkHandler tm (log h), None)
  end.

(** *** The manager's backend and its signal channel *)

(** The backend operation behind an event, if any. *)
Definition event_op (ev : Event) : option Op :=
  match ev with
  | EvBegin id mode => Some (OpBegin id mode)
  | EvCommit id => Some (OpCommit id)
  | EvRollback id => Some (OpRollback id)
  | EvBackend op => Some op
  | _ => None
  end.

Lemma tm_step_backend (tm : TransactionManager) (ev : Event) :
  backend (tm_step tm ev)
  = match event_op ev with
    | Some op => apply_op engine (backend tm) op
    | None => backend tm
    end.
Proof.
  destruct ev as [id mode|id|id|op|upload now|shouldSync upload now]; simpl.
  - unfold Begin. by destruct (BeginTransaction _ _ _ _).
  - unfold Commit. by destruct (CommitTransaction _ _ _) as [b [m|]].
  - unfold Rollback. by destruct (RollbackTransaction _ _ _).
  - done.
  - destruct (chan_buf (uploadChan tm)); [done|]. by destruct upload.
  - destruct (uploadPending tm || shouldSync); [|done]. by destruct upload.
Qed.

Lemma tm_run_backend (tm : TransactionManager) (evs : list Event) :
  backend (tm_run tm evs)
  = run engine (backend tm) (omap event_op evs).
Proof.
  revert tm. induction evs as [|ev evs IH]; intros tm; simpl; [done|].
  unfold tm_run in IH. rewrite IH, tm_step_backend.
  by destruct (event_op ev).
Qed.

Lemma try_send_ok (ch : Chan) :
  chan_ok ch → chan_ok (try_send ch true) ∧ chan_buf (try_send ch true) = [true].
Proof.
  intros [Hcap [Hbuf|Hbuf]]; unfold try_send, chan_ok;
    rewrite Hcap, Hbuf; simpl; rewrite ?Hcap, ?Hbuf; auto.
Qed.

Lemma tm_step_chan_ok (tm : TransactionManager) (ev : Event) :
  chan_ok (uploadChan tm) → chan_ok (uploadChan (tm_step tm ev)).
Proof.
  intros Hok.
  destruct ev as [id mode|id|id|op|upload now|shouldSync upload now]; simpl.
  - unfold Begin. by destruct (BeginTransaction _ _ _ _).
  - unfold Commit. destruct (CommitTransaction _ _ _) as [b [m|]]; [done|].
    simpl. by apply try_send_ok.
  - unfold Rollback. by destruct (RollbackTransaction _ _ _).
  - done.
  - destruct (chan_buf (uploadChan tm)) as [|v l] eqn:Hbuf; [done|].
    assert (chan_ok (receive (uploadChan tm))) as Hrecv.
    { destruct Hok as [Hcap Hb]. split; [done|]. unfold receive. simpl.
      rewrite Hbuf in *. left. destruct Hb as [|[= _ ->]]; done. }
    by destruct upload.
  - destruct (uploadPending tm || shouldSync); [|done]. by destruct upload.
Qed.

Lemma tm_run_chan_ok (tm : TransactionManager) (evs : list Event) :
  chan_ok (uploadChan tm) → chan_ok (uploadChan (tm_run tm evs)).
Proof.
  revert tm. induction evs as [|ev evs IH]; intros tm Hok; simpl; [done|].
  apply IH. by apply tm_step_chan_ok.
Qed.

(** C3: in every state the manager reaches, the signal channel has
    capacity one and holds nothing or one signal, and [Commit] returns
    what the backend's commit returned.  When the commit succeeded the
    pending flag is set and a signal is waiting in the channel: it was
    queued if the channel was empty, and if the channel was full the send
    was skipped and the channel is as it was.  When the commit failed the
    flag and the channel are as they were. *)
Theorem commit_signals_upload (b0 : SQLiteBackend) (evs : list Event)
    (id : string) :
  let tm := tm_run (NewTransactionManager b0) evs in
  chan_ok (uploadChan tm)
  ∧ ∃ tm' err,
      Commit tm id = (tm', err)
      ∧ CommitTransaction engine (backend tm) id = (backend tm', err)
      ∧ match err with
        | None =>
            uploadPending tm' = true
            ∧ chan_buf (uploadChan tm') = [true]
            ∧ match chan_buf (uploadChan tm) with
              | [] => uploadChan tm' = mkChan 1 [true]
              | _ :: _ => uploadChan tm' = uploadChan tm
              end
        | Some _ =>
            uploadPending tm' = uploadPending tm
            ∧ uploadChan tm' = uploadChan tm
        end.
Proof.
  intros tm.
  assert (chan_ok (uploadChan tm)) as Hok.
  { apply tm_run_chan_ok. split; [done|by left]. }
  split; [done|]. unfold Commit.
  destruct (CommitTransaction engine (backend tm) id) as [b [m|]];
    eexists _, _; (split; [done|]); (split; [done|]); simpl; [done|].
  split; [done|]. split; [by apply try_send_ok|].
  destruct Hok as [Hcap [Hbuf|Hbuf]]; rewrite Hbuf; unfold try_send;
    rewrite Hcap, Hbuf; reflexivity.
Qed.


(** *** Rollback requests *)

Lemma tm_run_backend_ok (db0 : E) (mode0 : string) (evs : list Event) :
  backend_ok
    (backend (tm_run (NewTransactionManager (NewSQLiteBackend db0 mode0)) evs)).
Proof. rewrite tm_run_backend. apply run_ok, NewSQLiteBackend_ok. Qed.

(** C2 (amended): a Rollback request never returns an error to the
    client; what the backend reports is logged.  The engine's rollback is
    attempted when the connection holds a transaction, that is in the
    Active and Failed states, and not when it is Idle: then no engine call
    is made, the misuse error is logged and the connection stays Idle.
    When the engine rolls back, the status becomes Idle; when the engine
    refuses, its error is logged. *)
Theorem rollback_request (db0 : E) (mode0 : string) (evs : list Event)
    (lg : list string) (id : string) :
  let tm := tm_run (NewTransactionManager (NewSQLiteBackend db0 mode0)) evs in
  let b := backend tm in
  let warn m := "WARN: Rollback error for connection " +:+ id +:+ ": " +:+ m in
  ∃ h', handleRollbackSimple (mkHandler tm lg) id = (h', None)
    ∧ let b' := backend (txManager h') in
      match tx_of b id with
      | None =>
          status_of b id = TxIdle
          ∧ calls b' = calls b
          ∧ status_of b' id = TxIdle
          ∧ log h' = lg ++ [warn "no transaction in progress"]
      | Some tx =>
          status_of b id ≠ TxIdle
          ∧ ∃ r, calls b' = calls b ++ [(CRollback tx, r)]
                 ∧ match r with
                   | ROk _ => status_of b' id = TxIdle ∧ log h' = lg
                   | RErr m =>
                       log h' = lg ++ [warn ("failed to rollback transaction: " +:+ m)]
                   end
      end.
Proof.
  intros tm b warn.
  assert (backend_ok b) as Hb by apply tm_run_backend_ok.
  unfold handleRollbackSimple, Rollback. simpl. fold b.
  destruct (decide (status_of b id = TxIdle)) as [Hs|Hs].
  - destruct (RollbackTransaction_idle engine b id Hb Hs)
      as (b' & -> & Hc & Hsame).
    rewrite (idle_holds_no_tx _ _ Hb Hs). eexists. split; [done|]. simpl.
    destruct (Hsame id) as [Hs' _]. by rewrite Hs', Hs.
  - destruct (RollbackTransaction_held engine b id Hb Hs)
      as (tx & r & b' & -> & -> & Hc & Hs').
    destruct r as [v|m]; eexists; (split; [done|]); simpl;
      (split; [done|]); by eexists.
Qed.

End WithEngine.

#[local] Existing Instance no_tables.
#[local] Existing Instance in_listing_order.

(** C2, as the claim words it: after a Rollback request the connection
    would be Idle whatever happened, and the engine's rollback would be
    attempted whatever the status.  Neither holds.  On a connection in a
    transaction whose rollback the engine refuses, the request leaves the
    status at Active; on an idle connection the request calls no engine
    function at all. *)
Lemma rollback_request_not_unconditional :
  (let b0 := NewSQLiteBackend [ROk 0; RErr "disk I/O error"] "deferred" in
   let tm := tm_run scripted (NewTransactionManager b0)
               [EvBegin "c1" "deferred"] in
   let h' := (handleRollbackSimple scripted (mkHandler tm []) "c1").1 in
   status_of (backend tm) "c1" = TxInTransaction
   ∧ (calls (backend (txManager h'))).*1 = [CBegin; CRollback 0]
   ∧ status_of (backend (txManager h')) "c1" ≠ TxIdle)
  ∧ (let tm := NewTransactionManager (NewSQLiteBackend [] "deferred") in
     let h' := (handleRollbackSimple scripted (mkHandler tm []) "c1").1 in
     calls (backend (txManager h')) = []).
Proof. vm_compute. repeat split; congruence. Qed.

(** The modes of some BEGIN statements. *)
Example begin_mode_tests :
  map begin_mode
    [ "BEGIN"; "begin immediate"; "Begin Exclusive Transaction";
      "BEGIN IMMEDIATE EXCLUSIVE"; "BEGIN DEFERRED"; "begin -- unimmediately" ]
  = [ "deferred"; "immediate"; "exclusive"; "immediate"; "deferred";
      "immediate" ].
Proof. reflexivity. Qed.


(** Two commits before the worker wakes up leave one signal waiting;
    the worker takes it and, the upload done, clears the flag. *)
Example commits_coalesce :
  let tm0 := NewTransactionManager
               (NewSQLiteBackend (E := list Reply) [] "deferred") in
  let tm1 := tm_run scripted tm0
               [EvBegin "a" ""; EvCommit "a"; EvBegin "b" ""; EvCommit "b"] in
  let tm2 := tm_run scripted tm1 [EvSignal None 42] in
  (uploadPending tm1, uploadChan tm1) = (true, mkChan 1 [true])
  ∧ (uploadPending tm2, uploadChan tm2, lastUpload tm2)
    = (false, mkChan 1 [], 42%Z).
Proof. vm_compute. done. Qed.

End Transaction.

(** ** Blob storage on the local file system and the database cache
       (storage.go) *)

Module Storage.

(** The file system: the regular files by path, each with its bytes. *)
Abbreviation FS := (gmap string (list Byte.byte)).

(** A system call may be refused for a reason of the operating system's
    own (permissions, a full disk, an I/O error): [Some m] is such a
    refusal with its message, [None] lets the call through.  A missing
    file is no fault: it is what the file system holds. *)
Abbreviation fault := (option string).

(** A Go [error]: [None] is [nil]. *)
Definition error := option string.

(** The error of a system call: the file is not there, or the system
    refused the call. *)
Inductive os_error := ENOENT | EFault (msg : string).

(** [os.IsNotExist]. *)
Definition IsNotExist (e : os_error) : bool :=
  match e with ENOENT => true | EFault _ => false end.

(** [err.Error()]. *)
Definition Error (e : os_error) : string :=
  match e with ENOENT => "no such file or directory" | EFault m => m end.

(** [os.Open], the file given as the bytes read from it. *)
Definition os_Open (fs : FS) (path : string) (f : fault)
  : option (list Byte.byte) * option os_error :=
  match f with
  | Some m => (None, Some (EFault m))
  | None =>
      match fs !! path with
      | Some content => (Some content, None)
      | None => (None, Some ENOENT)
      end
  end.

(** [os.Stat], for its error. *)
Definition os_Stat (fs : FS) (path : string) (f : fault) : option os_error :=
  match f with
  | Some m => Some (EFault m)
  | None => match fs !! path with Some _ => None | None => Some ENOENT end
  end.

(** [os.Create]: the file is created empty, or truncated. *)
Definition os_Create (fs : FS) (path : string) (f : fault)
  : FS * option os_error :=
  match f with
  | Some m => (fs, Some (EFault m))
  | None => (<[path := []]> fs, None)
  end.

(** [os.Remove]. *)
Definition os_Remove (fs : FS) (path : string) (f : fault)
  : FS * option os_error :=
  match f with
  | Some m => (fs, Some (EFault m))
  | None =>
      match fs !! path with
      | Some _ => (delete path fs, None)
      | None => (fs, Some ENOENT)
      end
  end.

(** [os.Rename]: the new path takes the file over in one step. *)
Definition os_Rename (fs : FS) (oldpath newpath : string) (f : fault)
  : FS * option os_error :=
  match f with
  | Some m => (fs, Some (EFault m))
  | None =>
      match fs !! oldpath with
      | Some content => (<[newpath := content]> (delete oldpath fs), None)
      | None => (fs, Some ENOENT)
      end
  end.

(** [io.Copy] into the file at [path], opened empty: the states of the
    file system after each byte written, the state it ends in and the
    error.  The fault [Some (k, m)] stops the copy with the message [m]
    once [k] bytes are written. *)
Definition io_Copy (fs : FS) (path : string) (data : list Byte.byte)
    (f : option (nat * string)) : list FS * FS * option os_error :=
  let n := match f with
           | Some (k, _) => k `min` length data
           | None => length data
           end in
  ((λ k, <[path := take k data]> fs) <$> seq 1 n,
   <[path := take n data]> fs,
   match f with Some (_, m) => Some (EFault m) | None => None end).

(** What the operating system may do to one [Upload]: refuse the
    creation of the temporary file, stop the copy after some bytes,
    refuse the sync or the rename, and refuse the removal of the
    temporary file on the way out. *)
Record UploadFaults := mkUploadFaults {
  create_fault : fault;
  copy_fault : option (nat * string);
  sync_fault : fault;
  rename_fault : fault;
  remove_fault : fault
}.

Definition no_faults : UploadFaults := mkUploadFaults None None None None None.

Section WithJoin.

(** [filepath.Join], from Go's library: any function will do. *)
Context (Join : string → string → string).

(** [LocalStorage]. *)
Record LocalStorage := mkLocalStorage { basePath : string }.

(** The path of a database: [filepath.Join(s.basePath, dbName+".sqlite")]. *)
Definition db_path (s : LocalStorage) (dbName : string) : string :=
  Join (basePath s) (dbName +:+ ".sqlite").

(** [LocalStorage.Download]: the reader is given as the bytes it reads;
    [(None, None)] is the nil reader with a nil error. *)
Definition Download (s : LocalStorage) (fs : FS) (dbName : string)
    (open_fault : fault) : option (list Byte.byte) * error :=
  let path := db_path s dbName in
  let '(file, err) := os_Open fs path open_fault in
  match err with
  | Some e =>
      if IsNotExist e then (None, None)
      else (None, Some ("failed to open database file: " +:+ Error e))
  | None => (file, None)
  end.

(** [LocalStorage.Upload], with every state the file system goes
    through on the way: after the creation of the temporary file, after
    each byte [io.Copy] writes to it, after its removal or its renaming. *)
Definition Upload_trace (s : LocalStorage) (fs : FS) (dbName : string)
    (data : list Byte.byte) (f : UploadFaults) : list FS * error :=
  let path := db_path s dbName in
  let tmpPath := path +:+ ".tmp" in
  let '(fs1, err) := os_Create fs tmpPath (create_fault f) in
  match err with
  | Some e => ([], Some ("failed to create temp file: " +:+ Error e))
  | None =>
      let '(writes, fs2, err) := io_Copy fs1 tmpPath data (copy_fault f) in
      let remove (fs' : FS) : FS := (os_Remove fs' tmpPath (remove_fault f)).1 in
      match err with
      | Some e =>
          (fs1 :: writes ++ [remove fs2],
           Some ("failed to write to temp file: " +:+ Error e))
      | None =>
          match sync_fault f with
          | Some m =>
              (fs1 :: writes ++ [remove fs2],
               Some ("failed to sync temp file: " +:+ m))
          | None =>
              let '(fs3, err) := os_Rename fs2 tmpPath path (rename_fault f) in
              match err with
              | Some e =>
                  (fs1 :: writes ++ [remove fs3],
                   Some ("failed to rename temp file: " +:+ Error e))
              | None => (fs1 :: writes ++ [fs3], None)
              end
          end
      end
  end.

(** [LocalStorage.Upload]: the file system it leaves and its error. *)
Definition Upload (s : LocalStorage) (fs : FS) (dbName : string)
    (data : list Byte.byte) (f : UploadFaults) : FS * error :=
  let '(states, err) := Upload_trace s fs dbName data f in
  (List.last states fs, err).

(** [LocalStorage.Delete]. *)
Definition Delete (s : LocalStorage) (fs : FS) (dbName : string)
    (remove_fault : fault) : FS * error :=
  let path := db_path s dbName in
  let '(fs', err) := os_Remove fs path remove_fault in
  match err with
  | Some e =>
      if IsNotExist e then (fs', None)
      else (fs', Some ("failed to delete database: " +:+ Error e))
  | None => (fs', None)
  end.

(** [LocalStorage.Exists]. *)
Definition Exists (s : LocalStorage) (fs : FS) (dbName : string)
    (stat_fault : fault) : bool * error :=
  let path := db_path s dbName in
  match os_Stat fs path stat_fault with
  | None => (true, None)
  | Some e =>
      if IsNotExist e then (false, None) else (false, Some (Error e))
  end.

End WithJoin.

(** [BlobStorage], the part of the interface the cache downloads
    through: what [Download] returns for a name, the file system being
    what it is. *)
Record BlobStorage := mkBlobStorage {
  bs_Download : FS → string → option (list Byte.byte) * error
}.

(** A [LocalStorage] as a [BlobStorage]. *)
Definition local_blob (Join : string → string → string)
    (s : LocalStorage) (open_fault : fault) : BlobStorage :=
  mkBlobStorage (λ fs dbName, Download Join s fs dbName open_fault).

(** [DatabaseCache]; times are the clock's readings. *)
Record DatabaseCache := mkCache {
  storage : BlobStorage;
  localPath : string;
  lastSync : Z;
  ttlMinutes : Z;
  dbName : string
}.

Definition set_lastSync (c : DatabaseCache) (now : Z) : DatabaseCache :=
  mkCache (storage c) (localPath c) now (ttlMinutes c) (dbName c).

(** [DatabaseCache.Download]: [now] is what [time.Now()] reads,
    [create] and [copy] what the operating system does to [os.Create] and
    [io.Copy] on the local file. *)
Definition cache_Download (c : DatabaseCache) (fs : FS) (now : Z)
    (create : fault) (copy : option (nat * string))
  : FS * DatabaseCache * error :=
  let '(reader, err) := bs_Download (storage c) fs (dbName c) in
  match err with
  | Some m => (fs, c, Some ("failed to download database: " +:+ m))
  | None =>
      match reader with
      | None =>
          let '(fs', err) := os_Create fs (localPath c) create in
          match err with
          | Some e =>
              (fs', c, Some ("failed to create empty database: " +:+ Error e))
          | None => (fs', set_lastSync c now, None)
          end
      | Some content =>
          let '(fs', err) := os_Create fs (localPath c) create in
          match err with
          | Some e =>
              (fs', c,
               Some ("failed to create local database file: " +:+ Error e))
          | None =>
              let '(_, fs'', err) := io_Copy fs' (localPath c) content copy in
              match err with
              | Some e =>
                  (fs'', c,
                   Some ("failed to write database to local file: "
                         +:+ Error e))
              | None => (fs'', set_lastSync c now, None)
              end
          end
      end
  end.

(** A plain [Join] for the examples. *)
Definition slash_join (dir name : string) : string := dir +:+ "/" +:+ name.

Section LocalStorageFacts.

Context (Join : string → string → string).

Lemma tmp_path_differs (path : string) : path +:+ ".tmp" ≠ path.
Proof.
  induction path as [|c path IH]; [done|].
  rewrite GoStrings.append_cons. intros [= H]. by apply IH.
Qed.

Lemma os_Remove_other (fs : FS) (path path' : string) (f : fault) :
  path ≠ path' → (os_Remove fs path f).1 !! path' = fs !! path'.
Proof.
  intros Hne. unfold os_Remove. destruct f; [done|].
  destruct (fs !! path); [|done]. simpl. by rewrite lookup_delete_ne.
Qed.

Lemma io_Copy_other (fs st : FS) (path path' : string)
    (data : list Byte.byte) (f : option (nat * string)) :
  path ≠ path' →
  ((io_Copy fs path data f).1.2 !! path' = fs !! path')
  ∧ (st ∈ (io_Copy fs path data f).1.1 → st !! path' = fs !! path').
Proof.
  intros Hne. unfold io_Copy. simpl. split.
  - by rewrite lookup_insert_ne.
  - intros Hin. apply list_elem_of_fmap in Hin as (k & -> & _).
    by rewrite lookup_insert_ne.
Qed.

Lemma io_Copy_complete (fs : FS) (path : string) (data : list Byte.byte) :
  (io_Copy fs path data None).1.2 = <[path := data]> fs.
Proof. unfold io_Copy. simpl. by rewrite firstn_all. Qed.

(** The shape of the trace: the writes to the temporary file, then one
    last state, which the rename produces when the upload succeeds. *)
Lemma Upload_trace_shape (s : LocalStorage) (fs : FS) (name : string)
    (data : list Byte.byte) (f : UploadFaults) :
  let path := db_path Join s name in
  let '(states, err) := Upload_trace Join s fs name data f in
  (states = [] ∧ is_Some err)
  ∨ ∃ pre final,
      states = pre ++ [final]
      ∧ (∀ st, st ∈ pre → st !! path = fs !! path)
      ∧ match err with
        | None => final = <[path := data]> (delete (path +:+ ".tmp") fs)
        | Some _ => final !! path = fs !! path
        end.
Proof.
  intros path. unfold Upload_trace. fold path.
  pose proof (tmp_path_differs path) as Hne.
  unfold os_Create. destruct (create_fault f) as [m|]; [left; by eauto|].
  set (tmp := path +:+ ".tmp") in *. set (fs1 := <[tmp := []]> fs).
  assert (fs1 !! path = fs !! path) as H1 by by apply lookup_insert_ne.
  destruct (io_Copy_other fs1 fs1 tmp path data (copy_fault f) Hne) as [H2 _].
  assert (∀ st, st ∈ fs1 :: (io_Copy fs1 tmp data (copy_fault f)).1.1 →
            st !! path = fs !! path) as Hpre.
  { intros st Hin. apply elem_of_cons in Hin as [->|Hin]; [done|].
    rewrite <- H1. by apply (io_Copy_other fs1 st tmp path data (copy_fault f)). }
  pose proof (io_Copy_complete fs1 tmp data) as Hdone.
  destruct (io_Copy fs1 tmp data (copy_fault f)) as [[writes fs2] err] eqn:Hcopy.
  simpl in H2, Hpre.
  assert (∀ fs', fs' !! path = fs !! path →
            (os_Remove fs' tmp (remove_fault f)).1 !! path = fs !! path) as Hrm.
  { intros fs' <-. by apply os_Remove_other. }
  destruct err as [e|].
  { right. exists (fs1 :: writes), ((os_Remove fs2 tmp (remove_fault f)).1).
    split; [done|]. split; [done|]. apply Hrm. by rewrite H2. }
  assert (copy_fault f = None) as Hnone.
  { unfold io_Copy in Hcopy. by destruct (copy_fault f) as [[? ?]|]. }
  rewrite Hnone in Hcopy. rewrite Hcopy in Hdone. simpl in Hdone. subst fs2.
  destruct (sync_fault f) as [m|].
  { right.
    exists (fs1 :: writes), ((os_Remove (<[tmp:=data]> fs1) tmp (remove_fault f)).1).
    split; [done|]. split; [done|]. apply Hrm. by rewrite H2. }
  unfold os_Rename. destruct (rename_fault f) as [m|].
  { right.
    exists (fs1 :: writes), ((os_Remove (<[tmp:=data]> fs1) tmp (remove_fault f)).1).
    split; [done|]. split; [done|]. apply Hrm. by rewrite H2. }
  rewrite lookup_insert_eq. right.
  exists (fs1 :: writes), (<[path:=data]> (delete tmp (<[tmp:=data]> fs1))).
  split; [done|]. split; [done|]. unfold fs1.
  by rewrite !delete_insert_eq.
Qed.

(** The states an upload that nothing stops goes through: the empty
    temporary file, the temporary file after each byte, and the rename. *)
Lemma Upload_trace_no_faults (s : LocalStorage) (fs : FS) (name : string)
    (data : list Byte.byte) (f : UploadFaults) :
  let path := db_path Join s name in
  let tmp := path +:+ ".tmp" in
  create_fault f = None → copy_fault f = None →
  sync_fault f = None → rename_fault f = None →
  Upload_trace Join s fs name data f
  = (((λ k, <[tmp := take k data]> fs) <$> seq 0 (S (length data)))
      ++ [<[path := data]> (delete tmp fs)],
     None).
Proof.
  intros path tmp Hc Hw Hs Hr. unfold Upload_trace. fold path. fold tmp.
  rewrite Hc, Hw, Hs, Hr. unfold os_Create, io_Copy, os_Rename.
  rewrite lookup_insert_eq, firstn_all, !delete_insert_eq.
  cbn [seq fmap list_fmap app take]. f_equal. f_equal. f_equal.
  apply list_fmap_ext. intros i k _. by rewrite insert_insert_eq.
Qed.

(** An upload returns no error exactly when the operating system lets
    the creation, the copy, the sync and the rename through. *)
Lemma Upload_trace_error (s : LocalStorage) (fs : FS) (name : string)
    (data : list Byte.byte) (f : UploadFaults) :
  (Upload_trace Join s fs name data f).2 = None
  ↔ create_fault f = None ∧ copy_fault f = None
    ∧ sync_fault f = None ∧ rename_fault f = None.
Proof.
  split.
  - unfold Upload_trace, os_Create, io_Copy, os_Rename.
    destruct (create_fault f) as [m|]; [done|].
    destruct (copy_fault f) as [[k m]|]; [done|].
    destruct (sync_fault f) as [m|]; [done|].
    destruct (rename_fault f) as [m|]; [done|]. done.
  - intros (Hc & Hw & Hs & Hr).
    by rewrite (Upload_trace_no_faults s fs name data f Hc Hw Hs Hr).
Qed.

(** C6: on the local file system, an Upload of the bytes [B] under the
    name [N] returns no error exactly when the operating system refuses
    none of its steps, and then it leaves a store from which Download of
    [N] reads exactly [B].  The upload writes to the temporary file
    [path.tmp] and renames it onto [path] as its last step: the states
    before the last hold the first bytes of [B] in the temporary file and
    under [N] what was there before.  Whatever the operating system
    refuses, in every state the file system goes through, what is found
    under [N] is what was there before the upload or all of [B], never a
    part of it; and an upload that fails leaves under [N] what was there
    before. *)
Theorem upload_download_roundtrip (s : LocalStorage) (fs : FS)
    (N : string) (B : list Byte.byte) (f : UploadFaults) :
  let path := db_path Join s N in
  let tmp := path +:+ ".tmp" in
  ((Upload Join s fs N B f).2 = None
   ↔ create_fault f = None ∧ copy_fault f = None
     ∧ sync_fault f = None ∧ rename_fault f = None)
  ∧ (create_fault f = None → copy_fault f = None →
     sync_fault f = None → rename_fault f = None →
     let fs' := <[path := B]> (delete tmp fs) in
     Upload Join s fs N B f = (fs', None)
     ∧ Download Join s fs' N None = (Some B, None)
     ∧ (Upload_trace Join s fs N B f).1
       = ((λ k, <[tmp := take k B]> fs) <$> seq 0 (S (length B))) ++ [fs']
     ∧ ∀ k, (<[tmp := take k B]> fs) !! path = fs !! path)
  ∧ (∀ m, create_fault f = Some m →
       Upload_trace Join s fs N B f
       = ([], Some ("failed to create temp file: " +:+ m))
       ∧ (Upload Join s fs N B f).1 = fs)
  ∧ (create_fault f = None → (Upload_trace Join s fs N B f).1 ≠ [])
  ∧ (∀ st, st ∈ (Upload_trace Join s fs N B f).1 →
       st !! path = fs !! path ∨ st !! path = Some B)
  ∧ (∀ fs', Upload Join s fs N B f = (fs', None) →
       Download Join s fs' N None = (Some B, None)
       ∧ ∃ pre,
           (Upload_trace Join s fs N B f).1 = pre ++ [fs']
           ∧ (∀ st, st ∈ pre → st !! path = fs !! path)
           ∧ fs' = <[path := B]> (delete tmp fs))
  ∧ (∀ fs' m, Upload Join s fs N B f = (fs', Some m) →
       fs' !! path = fs !! path).
Proof.
  intros path tmp.
  pose proof (tmp_path_differs path) as Hne. fold tmp in Hne.
  pose proof (Upload_trace_error s fs N B f) as Herr.
  pose proof (Upload_trace_no_faults s fs N B f) as Hfree.
  fold path in Hfree. fold tmp in Hfree. cbv zeta in Hfree.
  split; [|split; [|split; [|split]]].
  - unfold Upload.
    by destruct (Upload_trace Join s fs N B f) as [states err].
  - intros Hc Hw Hs Hr fs'. specialize (Hfree Hc Hw Hs Hr).
    unfold Upload. rewrite Hfree. rewrite List.last_last.
    split; [done|]. split.
    { unfold Download, os_Open. fold path. unfold fs'.
      by rewrite lookup_insert_eq. }
    split; [done|]. intros k. by apply lookup_insert_ne.
  - intros m Hc. unfold Upload, Upload_trace, os_Create. by rewrite Hc.
  - intros Hc. unfold Upload_trace, os_Create. rewrite Hc.
    destruct (io_Copy _ _ _ _) as [[writes fs2] [e|]]; [done|].
    destruct (sync_fault f); [done|].
    by destruct (os_Rename _ _ _ _) as [fs3 [e|]].
  - pose proof (Upload_trace_shape s fs N B f) as Hshape.
    unfold Upload. fold path in Hshape. fold tmp in Hshape.
    destruct (Upload_trace Join s fs N B f) as [states err].
    cbn [fst snd].
    destruct Hshape as [[-> [m ->]]|(pre & final & -> & Hpre & Hfinal)].
    + split; [intros st Hin; by apply elem_of_nil in Hin|].
      split; [by intros fs' [= _]|]. by intros fs' m' [= <- _].
    + rewrite List.last_last. split; [|split].
      * intros st Hin.
        apply elem_of_app in Hin as [Hin|Hin]; [left; by apply Hpre|].
        apply list_elem_of_singleton in Hin as ->.
        destruct err as [m|]; [by left|]. right. subst final.
        apply lookup_insert_eq.
      * intros fs' [= <- ->]. split; [|by exists pre].
        unfold Download, os_Open. fold path. subst final.
        by rewrite lookup_insert_eq.
      * intros fs' m [= <- ->]. done.
Qed.

(** C7: a Delete that the operating system does not refuse removes the
    file of the name and returns no error, whether the name was in the
    store or not: deleting a name that is not in the store changes
    nothing; a Delete the system refuses returns its error and changes
    nothing.  After a Delete of [N] that returned no error, Exists of [N]
    answers false, with no error when nothing stops the operating system
    from looking. *)
Theorem delete_then_not_exists (s : LocalStorage) (fs : FS) (N : string) :
  let path := db_path Join s N in
  Delete Join s fs N None = (delete path fs, None)
  ∧ Exists Join s (delete path fs) N None = (false, None)
  ∧ (∀ m, Delete Join s fs N (Some m)
          = (fs, Some ("failed to delete database: " +:+ m)))
  ∧ (fs !! path = None → Delete Join s fs N None = (fs, None))
  ∧ (∀ f fs', Delete Join s fs N f = (fs', None) →
       Exists Join s fs' N None = (false, None)
       ∧ ∀ stat_fault, (Exists Join s fs' N stat_fault).1 = false).
Proof.
  intros path. split; [|split; [|split; [|split]]].
  - unfold Delete, os_Remove. fold path.
    destruct (fs !! path) eqn:Hl; [done|]. cbn [IsNotExist].
    by rewrite delete_id.
  - unfold Exists, os_Stat. fold path. by rewrite lookup_delete_eq.
  - done.
  - intros Hnone. unfold Delete, os_Remove. fold path. by rewrite Hnone.
  - intros f fs'. unfold Delete, os_Remove. destruct f as [m|]; [done|].
    fold path.
    destruct (fs !! path) eqn:Hl; simpl; intros [= <-];
      unfold Exists, os_Stat; fold path; rewrite ?lookup_delete_eq, ?Hl;
      (split; [done|]); by intros [m|].
Qed.

(** A name that is not in the store is reported absent. *)
Lemma Download_absent (s : LocalStorage) (fs : FS) (N : string) :
  fs !! db_path Join s N = None → Download Join s fs N None = (None, None).
Proof. unfold Download, os_Open. by intros ->. Qed.

End LocalStorageFacts.

(** C8: when the blob store reports the named database absent (a nil
    reader and a nil error, as every backend does for a missing object),
    and the operating system lets the local file be created, the cache's
    Download returns no error, leaves an empty file at the cache's local
    path and every other file as it was, and sets the last-sync time to
    the time of the call. *)
Theorem cache_bootstrap (c : DatabaseCache) (fs : FS) (now : Z)
    (copy : option (nat * string)) :
  bs_Download (storage c) fs (dbName c) = (None, None) →
  ∃ fs' c',
    cache_Download c fs now None copy = (fs', c', None)
    ∧ fs' !! localPath c = Some []
    ∧ (∀ content, fs' !! localPath c = Some content → length content = 0)
    ∧ (∀ path, path ≠ localPath c → fs' !! path = fs !! path)
    ∧ lastSync c' = now
    ∧ localPath c' = localPath c.
Proof.
  intros Habsent. unfold cache_Download. rewrite Habsent. simpl.
  eexists _, _. split; [reflexivity|].
  rewrite lookup_insert_eq. split; [done|]. split; [by intros ? [= <-]|].
  split; [|done]. intros path Hne. by rewrite lookup_insert_ne.
Qed.

(** TestDatabaseCache: a cache over an empty local store. *)
Lemma cache_bootstrap_empty_store :
  let c := mkCache (local_blob slash_join (mkLocalStorage "/data") None)
             "/tmp/appdb-1700000000.sqlite" 0 5 "appdb" in
  ∃ fs' c',
    cache_Download c ∅ 1700000000 None None = (fs', c', None)
    ∧ fs' !! localPath c = Some []
    ∧ (∀ content, fs' !! localPath c = Some content → length content = 0)
    ∧ (∀ path, path ≠ localPath c → fs' !! path = (∅ : FS) !! path)
    ∧ lastSync c' = 1700000000%Z
    ∧ localPath c' = localPath c.
Proof.
  intros c. apply (cache_bootstrap c ∅ 1700000000 None).
  apply Download_absent. apply lookup_empty.
Defined.

(** Five bytes uploaded to an empty directory, nothing refused: they are
    read back. *)
Lemma upload_download_roundtrip_example :
  let s := mkLocalStorage "/data" in
  let B := [Byte.x68; Byte.x65; Byte.x6c; Byte.x6c; Byte.x6f] in
  let fs' : FS := <["/data/db1.sqlite" := B]>
                    (delete "/data/db1.sqlite.tmp" ∅) in
  Upload slash_join s ∅ "db1" B no_faults = (fs', None)
  ∧ Download slash_join s fs' "db1" None = (Some B, None).
Proof.
  intros s B fs'.
  destruct (upload_download_roundtrip slash_join s ∅ "db1" B no_faults)
    as (_ & Hfree & _).
  destruct (Hfree eq_refl eq_refl eq_refl eq_refl) as (Hup & Hdown & _).
  split; [exact Hup|exact Hdown].
Defined.

(** A database that is in the store is deleted, and is then reported
    absent. *)
Lemma delete_then_not_exists_example :
  let s := mkLocalStorage "/data" in
  let fs : FS := {[ "/data/db1.sqlite" := [Byte.x68; Byte.x69] ]} in
  Delete slash_join s fs "db1" None = (delete "/data/db1.sqlite" fs, None)
  ∧ Exists slash_join s (delete "/data/db1.sqlite" fs) "db1" None
    = (false, None).
Proof.
  intros s fs.
  destruct (delete_then_not_exists slash_join s fs "db1") as (Hdel & Hex & _).
  split; [exact Hdel|exact Hex].
Defined.

(** TestLocalStorage: upload, exists, download, delete, exists. *)
Example local_storage_lifecycle :
  let s := mkLocalStorage "/data" in
  let B := [Byte.x68; Byte.x65; Byte.x6c; Byte.x6c; Byte.x6f] in
  let fs1 := (Upload slash_join s ∅ "db1" B no_faults).1 in
  let fs2 := (Delete slash_join s fs1 "db1" None).1 in
  Exists slash_join s fs1 "db1" None = (true, None)
  ∧ Download slash_join s fs1 "db1" None = (Some B, None)
  ∧ fs1 = {[ "/data/db1.sqlite" := B ]}
  ∧ Exists slash_join s fs2 "db1" None = (false, None)
  ∧ Delete slash_join s fs2 "db1" None = (fs2, None)
  ∧ fs2 = ∅.
Proof. vm_compute. done. Qed.

(** An upload cut short by the disk: the name keeps its old content. *)
Example upload_cut_short :
  let s := mkLocalStorage "/data" in
  let old := [Byte.x6f; Byte.x6c; Byte.x64] in
  let B := [Byte.x68; Byte.x65; Byte.x6c; Byte.x6c; Byte.x6f] in
  let fs := {[ "/data/db1.sqlite" := old ]} in
  let f := mkUploadFaults None (Some (2, "no space left on device"))
             None None None in
  Upload slash_join s fs "db1" B f
  = (fs, Some "failed to write to temp file: no space left on device")
  ∧ (λ st : FS, st !! "/data/db1.sqlite.tmp")
      <$> (Upload_trace slash_join s fs "db1" B f).1
    = [Some []; Some [Byte.x68]; Some [Byte.x68; Byte.x65]; None].
Proof. vm_compute. done. Qed.

End Storage.

(** ** More of the backend: connections, statements, transaction modes *)

Module BackendFacts.
Import GoStrings Backend.

(** The connection an operation is issued on. *)
Definition op_connection (op : Op) : string :=
  match op with
  | OpBegin id _ | OpCommit id | OpRollback id | OpQuery id _ _
  | OpExec id _ _ | OpPrepare id _ _ | OpExecutePrepared id _ _
  | OpClosePrepared id _ | OpRemove id _ | OpStatus id => id
  end.

Section WithEngine.

Context {tables : Unicode} {ranges : MapRange}.
Context {E : Type} (engine : E → EngineCall → E * Reply).

Abbreviation call := (call engine).
Abbreviation SQLiteBackend := (SQLiteBackend (E := E)).

Lemma GetOrCreateConnection_other (b b1 : SQLiteBackend) (id id' : string)
    (conn : ConnectionState) :
  GetOrCreateConnection b id = (b1, conn) → id ≠ id' →
  connections b1 !! id' = connections b !! id'.
Proof.
  intros Hg Hne. apply GetOrCreateConnection_spec in Hg
    as (_ & _ & _ & _ & [->|(_ & _ & ->)]); [done|].
  by apply lookup_insert_ne.
Qed.

Lemma store_other (b : SQLiteBackend) (id id' : string)
    (conn : ConnectionState) :
  id ≠ id' → connections (store b id conn) !! id' = connections b !! id'.
Proof. intros Hne. simpl. by apply lookup_insert_ne. Qed.

(** Reduces a goal about the connections of a backend built from calls
    and one [store] to the connections the calls started from. *)
Ltac other_conn Hne :=
  repeat match goal with
         | H : Backend.call _ ?b ?c = (?b', ?r) |- _ =>
             let H1 := fresh "Hconns" in
             pose proof (call_connections engine b c) as H1;
             rewrite H in H1; simpl in H1; clear H
         end;
  simpl; rewrite ?(lookup_insert_ne _ _ _ _ Hne); congruence.

Lemma apply_op_other (b : SQLiteBackend) (op : Op)
    (id' : string) :
  op_connection op ≠ id' →
  connections (apply_op engine b op) !! id' = connections b !! id'.
Proof.
  intros Hne.
  destruct op as [id mode|id|id|id q args|id q args|id name q
                 |id name args|id name|id seed|id]; simpl in *.
  - unfold BeginTransaction.
    destruct (GetOrCreateConnection b id) as [b1 conn] eqn:Hg.
    rewrite <- (GetOrCreateConnection_other _ _ _ _ _ Hg Hne). clear Hg.
    repeat (case_match; simplify_eq/=); other_conn Hne.
  - unfold CommitTransaction.
    destruct (GetOrCreateConnection b id) as [b1 conn] eqn:Hg.
    rewrite <- (GetOrCreateConnection_other _ _ _ _ _ Hg Hne). clear Hg.
    repeat (case_match; simplify_eq/=); other_conn Hne.
  - unfold RollbackTransaction.
    destruct (GetOrCreateConnection b id) as [b1 conn] eqn:Hg.
    rewrite <- (GetOrCreateConnection_other _ _ _ _ _ Hg Hne). clear Hg.
    repeat (case_match; simplify_eq/=); other_conn Hne.
  - unfold Query.
    destruct (GetOrCreateConnection b id) as [b1 conn] eqn:Hg.
    rewrite <- (GetOrCreateConnection_other _ _ _ _ _ Hg Hne). clear Hg.
    destruct (active_tx conn); by rewrite call_connections.
  - unfold Exec.
    destruct (GetOrCreateConnection b id) as [b1 conn] eqn:Hg.
    rewrite <- (GetOrCreateConnection_other _ _ _ _ _ Hg Hne). clear Hg.
    destruct (active_tx conn); by rewrite call_connections.
  - unfold Prepare.
    destruct (GetOrCreateConnection b id) as [b1 conn] eqn:Hg.
    rewrite <- (GetOrCreateConnection_other _ _ _ _ _ Hg Hne). clear Hg.
    set (b2 := match PreparedStmts conn !! name with
               | Some stmt => (call b1 (CStmtClose stmt)).1
               | None => b1
               end).
    assert (connections b2 = connections b1) as Hb2.
    { unfold b2. destruct (PreparedStmts conn !! name); [|done].
      apply call_connections. }
    clearbody b2. rewrite <- Hb2.
    repeat (case_match; simplify_eq/=); other_conn Hne.
  - unfold ExecutePrepared.
    destruct (GetOrCreateConnection b id) as [b1 conn] eqn:Hg.
    rewrite <- (GetOrCreateConnection_other _ _ _ _ _ Hg Hne). clear Hg.
    destruct (PreparedStmts conn !! name); [|done].
    by rewrite call_connections.
  - unfold ClosePrepared.
    destruct (GetOrCreateConnection b id) as [b1 conn] eqn:Hg.
    rewrite <- (GetOrCreateConnection_other _ _ _ _ _ Hg Hne). clear Hg.
    repeat (case_match; simplify_eq/=); other_conn Hne.
  - unfold RemoveConnection.
    destruct (connections b !! id) as [conn|]; [|done]. simpl.
    rewrite lookup_delete_ne by done.
    destruct (active_tx conn);
      by rewrite ?call_connections, foldl_close_connections.
  - unfold GetTransactionStatus.
    destruct (GetOrCreateConnection b id) as [b1 conn] eqn:Hg.
    by rewrite <- (GetOrCreateConnection_other _ _ _ _ _ Hg Hne).
Qed.

(** X1. An operation on one connection leaves the state of every other
    connection (its transaction, its status, its prepared statements) as
    it was, whatever the engine answers. *)
Theorem apply_op_other_connection (b : SQLiteBackend) (op : Op)
    (id' : string) :
  op_connection op ≠ id' →
  let b' := apply_op engine b op in
  connections b' !! id' = connections b !! id'
  ∧ status_of b' id' = status_of b id'
  ∧ tx_of b' id' = tx_of b id'
  ∧ ∀ name, bound b' id' name = bound b id' name.
Proof.
  intros Hne b'. pose proof (apply_op_other b op id' Hne) as Hl.
  fold b' in Hl. split; [done|].
  unfold status_of, tx_of, bound. rewrite Hl. by repeat split.
Qed.

Lemma foldl_close_calls (b : SQLiteBackend) (l : list nat) :
  (calls (foldl (λ b stmt, (call b (CStmtClose stmt)).1) b l)).*1
  = (calls b).*1 ++ (CStmtClose <$> l).
Proof.
  revert b. induction l as [|x l IH]; intros b; simpl.
  - by rewrite app_nil_r.
  - rewrite IH, call_calls, fmap_app. simpl. by rewrite <- app_assoc.
Qed.

(** X2. [RemoveConnection] of an unknown connection changes nothing.  Of
    a known one it closes every prepared statement of the connection, each
    once, in the order the loop over the map takes them, whichever it is;
    then it rolls back the transaction the connection holds, if it holds
    one, makes no other engine call, and forgets the connection; the
    engine's errors are ignored.  None of the connection's statements is
    open afterwards. *)
Theorem RemoveConnection_releases (b : SQLiteBackend) (id : string)
    (seed : nat) :
  let b' := RemoveConnection engine b id seed in
  match connections b !! id with
  | None => b' = b
  | Some conn =>
      connections b' = delete id (connections b)
      ∧ (∃ stmts,
           stmts ≡ₚ (map_to_list (PreparedStmts conn)).*2
           ∧ (calls b').*1
             = (calls b).*1
               ++ (CStmtClose <$> stmts)
               ++ match active_tx conn with
                  | Some tx => [CRollback tx]
                  | None => []
                  end)
      ∧ ∀ name stmt, PreparedStmts conn !! name = Some stmt →
          stmt ∉ open_stmts (calls b')
  end.
Proof.
  intros b'. unfold b', RemoveConnection.
  destruct (connections b !! id) as [conn|] eqn:Hl; [|done].
  pose proof (range_order_perm _ seed ((map_to_list (PreparedStmts conn)).*2))
    as Hperm.
  set (l := range_order seed ((map_to_list (PreparedStmts conn)).*2)) in *.
  pose proof (foldl_close_open engine b l) as Ho.
  pose proof (foldl_close_calls b l) as Hc.
  pose proof (foldl_close_connections engine b l) as Hconns.
  set (b1 := foldl _ b l) in *. clearbody b1.
  assert (∀ name stmt, PreparedStmts conn !! name = Some stmt →
            stmt ∉ open_stmts (calls b1)) as Hclosed.
  { intros name stmt Hb. rewrite Ho, elem_of_difference.
    intros [_ Hnot]. apply Hnot, elem_of_list_to_set. rewrite Hperm.
    apply list_elem_of_fmap.
    exists (name, stmt). split; [done|]. by apply elem_of_map_to_list. }
  destruct (active_tx conn) as [tx|]; simpl.
  - rewrite call_connections, call_calls, fmap_app, Hc, Hconns.
    split; [done|]. split; [exists l; split; [done|by rewrite <- app_assoc]|].
    intros name stmt Hb. rewrite open_stmts_snoc. simpl. by eapply Hclosed.
  - rewrite Hc, Hconns. split; [done|]. split; [|done].
    exists l. split; [done|]. by rewrite app_nil_r.
Qed.

(** X3. [ExecutePrepared] under a name that is not bound returns the
    error "prepared statement not found: <name>" without calling the
    engine.  Under a bound name it makes one call, the query of the bound
    statement, whether or not the connection holds a transaction, and
    returns what the engine answers; the bindings stay as they are. *)
Theorem ExecutePrepared_spec (b : SQLiteBackend) (id name : string)
    (args : list string) :
  ∃ b' r,
    ExecutePrepared engine b id name args = (b', r)
    ∧ (∀ id' name', bound b' id' name' = bound b id' name')
    ∧ (∀ id', tx_of b' id' = tx_of b id')
    ∧ match bound b id name with
      | None =>
          r = RErr ("prepared statement not found: " +:+ name)
          ∧ calls b' = calls b
      | Some stmt => calls b' = calls b ++ [(CStmtQuery stmt args, r)]
      end.
Proof.
  unfold ExecutePrepared.
  destruct (GetOrCreateConnection b id) as [b1 conn] eqn:Hg.
  pose proof (GetOrCreateConnection_spec _ _ _ _ Hg) as (Hl & Hc & _).
  assert (∀ id', (∀ name', bound b1 id' name' = bound b id' name')
                 ∧ tx_of b1 id' = tx_of b id') as Hsame.
  { intros id'.
    by destruct (status_of_GetOrCreateConnection _ _ _ id' _ Hg) as (_ & ? & ?). }
  destruct (Hsame id) as [Hb _]. rewrite <- (Hb name), (bound_lookup _ _ _ _ Hl).
  destruct (PreparedStmts conn !! name) as [stmt|].
  - pose proof (call_connections engine b1 (CStmtQuery stmt args)) as Hconns.
    pose proof (call_calls engine b1 (CStmtQuery stmt args)) as Hcalls.
    destruct (call b1 (CStmtQuery stmt args)) as [b2 r]. simpl in *.
    exists b2, r. split; [done|]. split; [|split].
    + intros id' name'. rewrite (bound_same _ _ _ _ Hconns). apply Hsame.
    + intros id'. unfold tx_of at 1. rewrite Hconns. apply Hsame.
    + by rewrite Hcalls, Hc.
  - eexists _, _. split; [done|]. split; [|split; [|done]]; intros ?; apply Hsame.
Qed.

(** X4. [ClosePrepared] under a name that is not bound returns no error
    and calls nothing.  Under a bound name it closes the bound statement;
    when the engine reports no error the name is unbound, otherwise the
    error is returned and the name stays bound to the statement.  Other
    names keep their bindings.  So closing twice is harmless: after a
    close that returned no error, a second close returns no error and
    makes no engine call. *)
Theorem ClosePrepared_spec (b : SQLiteBackend) (id name : string) :
  ∃ b' err,
    ClosePrepared engine b id name = (b', err)
    ∧ (∀ id' name', (id', name') ≠ (id, name) →
         bound b' id' name' = bound b id' name')
    ∧ match bound b id name with
      | None => err = None ∧ calls b' = calls b ∧ bound b' id name = None
      | Some stmt =>
          (∃ r, calls b' = calls b ++ [(CStmtClose stmt, r)]
                ∧ (stmt ∉ open_stmts (calls b'))
                ∧ match r with
                  | ROk _ => err = None ∧ bound b' id name = None
                  | RErr m =>
                      err = Some ("failed to close prepared statement: " +:+ m)
                      ∧ bound b' id name = Some stmt
                  end)
      end
    ∧ (err = None →
       ∃ b'', ClosePrepared engine b' id name = (b'', None)
              ∧ calls b'' = calls b').
Proof.
  assert (∀ b0 : SQLiteBackend, bound b0 id name = None →
            ∃ b1, ClosePrepared engine b0 id name = (b1, None)
                  ∧ calls b1 = calls b0
                  ∧ ∀ id' name', bound b1 id' name' = bound b0 id' name')
    as Hunbound.
  { intros b0 Hnone. unfold ClosePrepared.
    destruct (GetOrCreateConnection b0 id) as [b1 conn] eqn:Hg.
    pose proof (GetOrCreateConnection_spec _ _ _ _ Hg) as (Hl & Hc & _).
    assert (∀ id' name', bound b1 id' name' = bound b0 id' name') as Hb.
    { intros id' name'.
      by destruct (status_of_GetOrCreateConnection _ _ _ id' _ Hg) as (_ & _ & ?). }
    rewrite <- (Hb id name), (bound_lookup _ _ _ _ Hl) in Hnone.
    rewrite Hnone. by exists b1. }
  destruct (bound b id name) as [stmt|] eqn:Hbound.
  2:{ destruct (Hunbound b Hbound) as (b1 & Heq & Hc & Hb).
      exists b1, None. split; [done|]. split; [by intros; apply Hb|].
      split; [by rewrite Hb|]. intros _.
      destruct (Hunbound b1) as (b2 & ? & ? & _); [by rewrite Hb|].
      by exists b2. }
  unfold ClosePrepared.
  destruct (GetOrCreateConnection b id) as [b1 conn] eqn:Hg.
  pose proof (GetOrCreateConnection_spec _ _ _ _ Hg) as (Hl & Hc & _).
  assert (∀ id' name', bound b1 id' name' = bound b id' name') as Hb.
  { intros id' name'.
    by destruct (status_of_GetOrCreateConnection _ _ _ id' _ Hg) as (_ & _ & ?). }
  rewrite <- (Hb id name), (bound_lookup _ _ _ _ Hl) in Hbound. rewrite Hbound.
  pose proof (call_connections engine b1 (CStmtClose stmt)) as Hconns.
  pose proof (call_calls engine b1 (CStmtClose stmt)) as Hcalls.
  destruct (call b1 (CStmtClose stmt)) as [b2 r]. simpl in *.
  assert (stmt ∉ open_stmts (calls b2)) as Hclosed.
  { rewrite Hcalls, open_stmts_snoc. simpl.
    rewrite elem_of_difference, elem_of_singleton. by intros [_ ?]. }
  destruct r as [v|m].
  - set (conn' := mkConn (ID conn) (Tx conn) (InTx conn) (TxStatus conn)
                    (delete name (PreparedStmts conn))).
    assert (∀ id' name', bound (store b2 id conn') id' name'
              = if decide (id = id') then delete name (PreparedStmts conn) !! name'
                else bound b id' name') as Hnew.
    { intros id' name'. rewrite (bound_insert b2 _ id id' name' conn') by done.
      case_decide; [done|]. by rewrite (bound_same _ _ _ _ Hconns), Hb. }
    assert (bound (store b2 id conn') id name = None) as Hgone.
    { rewrite Hnew, decide_True by done. apply lookup_delete_eq. }
    exists (store b2 id conn'), None. split; [done|]. split; [|split].
    + intros id' name' Hne. rewrite Hnew. case_decide as Hd; [|done].
      subst id'. rewrite lookup_delete_ne by congruence.
      by rewrite <- Hb, (bound_lookup _ _ _ _ Hl).
    + exists (ROk v). simpl. split; [by rewrite Hcalls, Hc|]. done.
    + intros _. destruct (Hunbound _ Hgone) as (b3 & ? & ? & _). by exists b3.
  - exists b2, (Some ("failed to close prepared statement: " +:+ m)).
    split; [done|]. split; [|split; [|done]].
    + intros id' name' _. by rewrite (bound_same _ _ _ _ Hconns), Hb.
    + exists (RErr m). split; [by rewrite Hcalls, Hc|]. split; [done|].
      split; [done|].
      by rewrite (bound_same _ _ _ _ Hconns), (bound_lookup _ _ _ _ Hl).
Qed.

(** *** The mode of a transaction *)

Lemma call_transactionMode (b : SQLiteBackend) (c : EngineCall) :
  transactionMode (call b c).1 = transactionMode b.
Proof.
  unfold Backend.call. destruct (engine (db b) c) as [db' [v|m]]; [|done].
  by destruct (allocates c).
Qed.

Lemma foldl_close_transactionMode (b : SQLiteBackend) (l : list nat) :
  transactionMode (foldl (λ b stmt, (call b (CStmtClose stmt)).1) b l)
  = transactionMode b.
Proof.
  revert b. induction l as [|x l IH]; intros b; simpl; [done|].
  by rewrite IH, call_transactionMode.
Qed.

(** The configured mode is never changed. *)
Lemma apply_op_transactionMode (b : SQLiteBackend) (op : Op) :
  transactionMode (apply_op engine b op) = transactionMode b.
Proof.
  assert (∀ id b1 conn, GetOrCreateConnection b id = (b1, conn) →
            transactionMode b1 = transactionMode b) as Hg.
  { intros id b1 conn H. by apply GetOrCreateConnection_spec in H
      as (_ & _ & _ & ? & _). }
  destruct op as [id mode|id|id|id q args|id q args|id name q
                 |id name args|id name|id seed|id]; simpl.
  - unfold BeginTransaction.
    destruct (GetOrCreateConnection b id) as [b1 conn] eqn:H.
    rewrite <- (Hg _ _ _ H). clear H Hg.
    repeat (case_match; simplify_eq/=);
      repeat match goal with
             | H : Backend.call _ ?b ?c = _ |- _ =>
                 let Hc := fresh in
                 pose proof (call_transactionMode b c) as Hc;
                 rewrite H in Hc; simpl in Hc; clear H
             end; congruence.
  - unfold CommitTransaction.
    destruct (GetOrCreateConnection b id) as [b1 conn] eqn:H.
    rewrite <- (Hg _ _ _ H). clear H Hg.
    destruct (active_tx conn); [|done].
    pose proof (call_transactionMode b1 (CCommit n)) as Hc.
    destruct (call b1 (CCommit n)) as [b2 [v|m]]; done.
  - unfold RollbackTransaction.
    destruct (GetOrCreateConnection b id) as [b1 conn] eqn:H.
    rewrite <- (Hg _ _ _ H). clear H Hg.
    destruct (active_tx conn); [|done].
    pose proof (call_transactionMode b1 (CRollback n)) as Hc.
    destruct (call b1 (CRollback n)) as [b2 [v|m]]; done.
  - unfold Query.
    destruct (GetOrCreateConnection b id) as [b1 conn] eqn:H.
    rewrite <- (Hg _ _ _ H).
    destruct (active_tx conn); apply call_transactionMode.
  - unfold Exec.
    destruct (GetOrCreateConnection b id) as [b1 conn] eqn:H.
    rewrite <- (Hg _ _ _ H).
    destruct (active_tx conn); apply call_transactionMode.
  - unfold Prepare.
    destruct (GetOrCreateConnection b id) as [b1 conn] eqn:H.
    rewrite <- (Hg _ _ _ H). clear H Hg.
    set (b2 := match PreparedStmts conn !! name with
               | Some stmt => (call b1 (CStmtClose stmt)).1
               | None => b1
               end).
    assert (transactionMode b2 = transactionMode b1) as <-.
    { unfold b2. destruct (PreparedStmts conn !! name); [|done].
      apply call_transactionMode. }
    clearbody b2.
    destruct (active_tx conn);
      match goal with |- context [call ?b ?c] =>
        pose proof (call_transactionMode b c) as Hc;
        destruct (call b c) as [b3 [v|m]] end; done.
  - unfold ExecutePrepared.
    destruct (GetOrCreateConnection b id) as [b1 conn] eqn:H.
    rewrite <- (Hg _ _ _ H).
    destruct (PreparedStmts conn !! name); [|done].
    apply call_transactionMode.
  - unfold ClosePrepared.
    destruct (GetOrCreateConnection b id) as [b1 conn] eqn:H.
    rewrite <- (Hg _ _ _ H). clear H Hg.
    destruct (PreparedStmts conn !! name) as [stmt|]; [|done].
    pose proof (call_transactionMode b1 (CStmtClose stmt)) as Hc.
    destruct (call b1 (CStmtClose stmt)) as [b2 [v|m]]; done.
  - unfold RemoveConnection. destruct (connections b !! id) as [conn|]; [|done].
    simpl. destruct (active_tx conn);
      by rewrite ?call_transactionMode, foldl_close_transactionMode.
  - unfold GetTransactionStatus.
    destruct (GetOrCreateConnection b id) as [b1 conn] eqn:H.
    by rewrite <- (Hg _ _ _ H).
Qed.

Lemma run_transactionMode (b : SQLiteBackend) (ops : list Op) :
  transactionMode (run engine b ops) = transactionMode b.
Proof.
  unfold run. revert b. induction ops as [|op ops IH]; intros b; simpl; [done|].
  by rewrite IH, apply_op_transactionMode.
Qed.

(** X5. [BeginTransaction] on an idle connection.  An empty mode stands
    for the mode the backend was created with; the mode is read without
    regard to letter case; every mode other than immediate and exclusive
    begins a plain transaction.  The engine sees [db.Begin] and, for
    immediate and exclusive, one [Exec] of the lock statement inside the
    new transaction, and nothing else.  The connection holds the new
    transaction exactly when no error is returned; when the lock statement
    fails, the transaction just begun is left as it is, not rolled back. *)
Theorem BeginTransaction_calls (db0 : E) (mode0 : string) (ops : list Op)
    (id mode : string) (b' : SQLiteBackend) (err : error) :
  let b := run engine (NewSQLiteBackend db0 mode0) ops in
  let txMode := if String.eqb mode "" then mode0 else mode in
  let tx := next_handle b in
  status_of b id = TxIdle →
  BeginTransaction engine b id mode = (b', err) →
  (∃ m, calls b' = calls b ++ [(CBegin, RErr m)]
        ∧ err = Some ("failed to begin transaction: " +:+ m)
        ∧ tx_of b' id = None)
  ∨ match lock_statement txMode with
    | None =>
        calls b' = calls b ++ [(CBegin, ROk tx)]
        ∧ err = None ∧ tx_of b' id = Some tx
    | Some sql =>
        ∃ r, calls b' = calls b ++ [(CBegin, ROk tx); (CExec (HTx tx) sql [], r)]
             ∧ match r with
               | ROk _ => err = None ∧ tx_of b' id = Some tx
               | RErr m =>
                   err = Some ("failed to begin transaction: " +:+ m)
                   ∧ tx_of b' id = None
               end
    end.
Proof.
  intros b txMode tx Hs.
  assert (backend_ok b) as Hb by apply run_ok, NewSQLiteBackend_ok.
  assert (transactionMode b = mode0) as Hmode by apply run_transactionMode.
  pose proof (idle_holds_no_tx _ _ Hb Hs) as Hnone.
  unfold BeginTransaction.
  destruct (GetOrCreateConnection b id) as [b1 conn] eqn:Hg.
  pose proof (GetOrCreateConnection_spec _ _ _ _ Hg) as (Hl & Hc & Hn & Hm & _).
  pose proof (GetOrCreateConnection_ok _ _ _ _ Hg Hb) as [Hb1 [_ Hidle]].
  destruct (status_of_GetOrCreateConnection _ _ _ id _ Hg) as (Hs1 & Ht1 & _).
  rewrite <- Hs1 in Hs. unfold status_of in Hs. rewrite Hl in Hs.
  rewrite (proj1 Hidle Hs), Hm, Hmode. fold txMode.
  assert (∀ b2 : SQLiteBackend, connections b2 = connections b1 →
            tx_of b2 id = None) as Hkeep.
  { intros b2 Heq. unfold tx_of. rewrite Heq. fold (tx_of b1 id). congruence. }
  assert (∀ (b2 : SQLiteBackend) t,
            tx_of (store b2 id (mkConn (ID conn) (Some t) true TxInTransaction
                                  (PreparedStmts conn))) id = Some t) as Hnew.
  { intros b2 t. unfold tx_of, store. simpl. by rewrite lookup_insert_eq. }
  unfold lock_statement.
  pose proof (call_connections engine b1 CBegin) as Hc1.
  pose proof (call_calls engine b1 CBegin) as Hl1.
  pose proof (call_allocated engine b1 CBegin) as Ha1.
  destruct (String.eqb (ToLower txMode) "immediate");
    [|destruct (String.eqb (ToLower txMode) "exclusive")];
    destruct (call b1 CBegin) as [b2 [v|m]]; simpl in Hc1, Hl1, Ha1;
    try (intros [= <- <-]; left; exists m;
         rewrite Hl1, Hc; by rewrite (Hkeep _ Hc1));
    rewrite (Ha1 v eq_refl eq_refl), Hn in *; fold tx.
  - pose proof (call_connections engine b2 (CExec (HTx tx) "BEGIN IMMEDIATE" [])) as Hc2.
    pose proof (call_calls engine b2 (CExec (HTx tx) "BEGIN IMMEDIATE" [])) as Hl2.
    destruct (call b2 (CExec (HTx tx) "BEGIN IMMEDIATE" [])) as [b3 [w|m]];
      simpl in *; intros [= <- <-]; right.
    + exists (ROk w). simpl. split; [by rewrite Hl2, Hl1, Hc, <- app_assoc|].
      split; [done|apply Hnew].
    + exists (RErr m). split; [by rewrite Hl2, Hl1, Hc, <- app_assoc|].
      split; [done|]. apply Hkeep. congruence.
  - pose proof (call_connections engine b2 (CExec (HTx tx) "BEGIN EXCLUSIVE" [])) as Hc2.
    pose proof (call_calls engine b2 (CExec (HTx tx) "BEGIN EXCLUSIVE" [])) as Hl2.
    destruct (call b2 (CExec (HTx tx) "BEGIN EXCLUSIVE" [])) as [b3 [w|m]];
      simpl in *; intros [= <- <-]; right.
    + exists (ROk w). simpl. split; [by rewrite Hl2, Hl1, Hc, <- app_assoc|].
      split; [done|apply Hnew].
    + exists (RErr m). split; [by rewrite Hl2, Hl1, Hc, <- app_assoc|].
      split; [done|]. apply Hkeep. congruence.
  - intros [= <- <-]. right. simpl. split; [by rewrite Hl1, Hc|].
    split; [done|apply Hnew].
Qed.

(** *** Closing the backend *)

(** The statements of a connection, as the map lists them. *)
Definition statements (conn : ConnectionState) : list nat :=
  (map_to_list (PreparedStmts conn)).*2.

(** What [Close] does to one connection: its statements are closed in
    the order the map is ranged over, which [seed] decides, its
    transaction is rolled back, and what the engine answers is dropped. *)
Definition close_connection (b : SQLiteBackend) (conn : ConnectionState)
    (seed : nat) : SQLiteBackend :=
  let b :=
    foldl (λ b stmt, (call b (CStmtClose stmt)).1) b
      (range_order seed (statements conn)) in
  match active_tx conn with
  | Some tx => (call b (CRollback tx)).1
  | None => b
  end.

(** [Close]: every connection in turn, in the order the map of the
    connections is ranged over, which [seed] decides, [stmt_seed] deciding
    the order of the statements of each; then the database, whose closing
    is no call of the engine here: [db_close] is what [b.db.Close()]
    returns. *)
Definition Close (b : SQLiteBackend) (db_close : error) (seed : nat)
    (stmt_seed : string → nat) : SQLiteBackend * error :=
  let b :=
    foldl (λ b p, close_connection b p.2 (stmt_seed p.1)) b
      (range_order seed (map_to_list (connections b))) in
  match db_close with
  | Some m => (b, Some ("failed to close database: " +:+ m))
  | None => (b, None)
  end.

(** The calls that close the statements [stmts] of a connection and
    roll its transaction back. *)
Definition close_calls (conn : ConnectionState) (stmts : list nat)
  : list EngineCall :=
  (CStmtClose <$> stmts)
  ++ match active_tx conn with
     | Some tx => [CRollback tx]
     | None => []
     end.

Lemma close_connection_spec (b : SQLiteBackend) (conn : ConnectionState)
    (seed : nat) :
  connections (close_connection b conn seed) = connections b
  ∧ (calls (close_connection b conn seed)).*1
    = (calls b).*1 ++ close_calls conn (range_order seed (statements conn))
  ∧ open_stmts (calls (close_connection b conn seed))
    = open_stmts (calls b) ∖ list_to_set (statements conn).
Proof.
  unfold close_connection, close_calls.
  pose proof (range_order_perm _ seed (statements conn)) as Hperm.
  set (l := range_order seed (statements conn)) in *.
  pose proof (foldl_close_open engine b l) as Ho.
  pose proof (foldl_close_calls b l) as Hc.
  pose proof (foldl_close_connections engine b l) as Hconns.
  rewrite (list_to_set_perm_L _ _ Hperm) in Ho.
  set (b1 := foldl _ b l) in *. clearbody b1.
  destruct (active_tx conn) as [tx|].
  - rewrite call_connections, call_calls, fmap_app, Hc, open_stmts_snoc.
    simpl. by rewrite <- app_assoc.
  - by rewrite app_nil_r.
Qed.

Lemma foldl_close_connection_spec (b : SQLiteBackend)
    (stmt_seed : string → nat) (l : list (string * ConnectionState)) :
  let b' := foldl (λ b p, close_connection b p.2 (stmt_seed p.1)) b l in
  connections b' = connections b
  ∧ (calls b').*1
    = (calls b).*1
      ++ (l ≫= λ p, close_calls p.2
                       (range_order (stmt_seed p.1) (statements p.2)))
  ∧ ∀ stmt, stmt ∈ open_stmts (calls b') →
      stmt ∈ open_stmts (calls b)
      ∧ ∀ p name, p ∈ l → PreparedStmts p.2 !! name ≠ Some stmt.
Proof.
  revert b. induction l as [|[id conn] l IH]; intros b; simpl.
  - rewrite app_nil_r. repeat apply conj; try done.
    intros stmt Hin. split; [done|].
    intros p name Hp. by apply elem_of_nil in Hp.
  - destruct (close_connection_spec b conn (stmt_seed id)) as (Hc1 & Hc2 & Hc3).
    destruct (IH (close_connection b conn (stmt_seed id))) as (H1 & H2 & H3).
    split; [congruence|]. split; [by rewrite H2, Hc2, <- app_assoc|].
    intros stmt Hin. destruct (H3 stmt Hin) as [Ho Hl].
    rewrite Hc3, elem_of_difference in Ho. destruct Ho as [Ho Hnot].
    split; [done|]. intros p name [->|Hin']%elem_of_cons; [|by eapply Hl].
    simpl. intros Hb. apply Hnot, elem_of_list_to_set, list_elem_of_fmap.
    exists (name, stmt). split; [done|]. by apply elem_of_map_to_list.
Qed.

(** X6. In every state the backend reaches, [Close] goes through the
    connections, each once, in the order the loop over the map takes
    them, whichever it is; for each it closes the prepared statements of
    the connection, each once and again in whichever order, and then
    rolls back the transaction of the connection if it holds one; and it
    calls the engine for nothing else.  No statement is left open.  The
    connections themselves are left as they were, still holding the
    handles of what was closed; the error of closing the database is
    wrapped. *)
Theorem Close_releases (db0 : E) (mode0 : string) (ops : list Op)
    (db_close : error) (seed : nat) (stmt_seed : string → nat) :
  let b := run engine (NewSQLiteBackend db0 mode0) ops in
  let b' := (Close b db_close seed stmt_seed).1 in
  (∃ order : list (ConnectionState * list nat),
     order.*1 ≡ₚ (map_to_list (connections b)).*2
     ∧ Forall (λ p, p.2 ≡ₚ statements p.1) order
     ∧ (calls b').*1
       = (calls b).*1 ++ (order ≫= λ p, close_calls p.1 p.2))
  ∧ open_stmts (calls b') = ∅
  ∧ connections b' = connections b
  ∧ (Close b db_close seed stmt_seed).2
    = (λ m, "failed to close database: " +:+ m) <$> db_close.
Proof.
  intros b b'.
  assert (Hok : stmts_ok b).
  { apply run_stmts_ok, NewSQLiteBackend_stmts_ok. }
  pose proof (range_order_perm _ seed (map_to_list (connections b))) as Hperm.
  set (l := range_order seed (map_to_list (connections b))) in *.
  destruct (foldl_close_connection_spec b stmt_seed l) as (H1 & H2 & H3).
  assert (Hb' : b' = foldl (λ b p, close_connection b p.2 (stmt_seed p.1)) b l).
  { unfold b', Close. fold l. by destruct db_close. }
  rewrite Hb'. split; [|split; [|split; [done|]]].
  - exists ((λ p, (p.2, range_order (stmt_seed p.1) (statements p.2))) <$> l).
    split; [|split].
    + rewrite <- list_fmap_compose. by rewrite <- Hperm.
    + apply Forall_fmap, Forall_forall. intros p _. simpl.
      apply range_order_perm.
    + rewrite H2. f_equal. clear. induction l as [|p l IH]; [done|].
      by rewrite fmap_cons, !bind_cons, IH.
  - apply set_eq. intros stmt. rewrite elem_of_empty. split; [|done].
    intros Hin. destruct (H3 stmt Hin) as [Ho Hl].
    destruct (open_bound _ Hok stmt Ho) as (id & name & Hb).
    unfold bound in Hb.
    destruct (connections b !! id) as [conn|] eqn:Hc; [|done]. simpl in Hb.
    apply (Hl (id, conn) name); [|done].
    rewrite Hperm. by apply elem_of_map_to_list.
  - unfold Close. by destruct db_close.
Qed.

End WithEngine.

#[local] Existing Instance no_tables.
#[local] Existing Instance in_listing_order.

(** Two clients at work: what the first does never shows on the second. *)
Lemma apply_op_other_connection_example :
  let b := run scripted (NewSQLiteBackend [] "deferred")
             [OpBegin "alice" ""; OpPrepare "alice" "q" "SELECT 1"] in
  let b' := apply_op scripted b (OpRemove "bob" 0) in
  connections b' !! "alice" = connections b !! "alice"
  ∧ status_of b' "alice" = status_of b "alice"
  ∧ tx_of b' "alice" = tx_of b "alice"
  ∧ ∀ name, bound b' "alice" name = bound b "alice" name.
Proof.
  intros b.
  apply (apply_op_other_connection scripted b (OpRemove "bob" 0) "alice").
  simpl. discriminate.
Defined.

(** A backend created in exclusive mode, a BEGIN that names no mode, and
    an engine that refuses the lock. *)
Lemma BeginTransaction_calls_example :
  let '(b', err) :=
    BeginTransaction scripted
      (run scripted (NewSQLiteBackend [ROk 0; RErr "database is locked"]
                       "Exclusive") [OpStatus "c1"]) "c1" "" in
  (calls b').*1 = [CBegin; CExec (HTx 0) "BEGIN EXCLUSIVE" []]
  ∧ err = Some "failed to begin transaction: database is locked"
  ∧ tx_of b' "c1" = None.
Proof.
  destruct (BeginTransaction scripted _ "c1" "") as [b' err] eqn:Hbegin.
  destruct (BeginTransaction_calls scripted
              [ROk 0; RErr "database is locked"] "Exclusive" [OpStatus "c1"]
              "c1" "" b' err eq_refl Hbegin) as [(m & Hc & _)|H].
  - vm_compute in Hbegin. injection Hbegin as <- <-. vm_compute in Hc.
    discriminate Hc.
  - vm_compute in Hbegin. injection Hbegin as <- <-. vm_compute. done.
Defined.

End BackendFacts.

(** ** Column types and error codes ([SQLiteTypeToPostgres],
       [MapSQLiteError]) *)

Module TypeMapping.
Import GoStrings ErrorTranslator.

(** *** White space *)

(** The white space of ASCII: tab, line feed, vertical tab, form feed,
    carriage return and space. *)
Definition is_space (c : ascii) : bool :=
  let n := nat_of_ascii c in
  ((9 <=? n) && (n <=? 13)) || (n =? 32).

(** The white space of Unicode beyond ASCII ([unicode.IsSpace]), in
    UTF-8.  Two bytes: U+0085 (C2 85) and U+00A0 (C2 A0). *)
Definition is_space2 (c1 c2 : ascii) : bool :=
  let n1 := nat_of_ascii c1 in
  let n2 := nat_of_ascii c2 in
  (n1 =? 194) && ((n2 =? 133) || (n2 =? 160)).

(** Three bytes: U+1680 (E1 9A 80), U+2000 to U+200A (E2 80 80 to
    E2 80 8A), U+2028, U+2029 and U+202F (E2 80 A8, A9 and AF), U+205F
    (E2 81 9F) and U+3000 (E3 80 80). *)
Definition is_space3 (c1 c2 c3 : ascii) : bool :=
  let n1 := nat_of_ascii c1 in
  let n2 := nat_of_ascii c2 in
  let n3 := nat_of_ascii c3 in
  ((n1 =? 225) && (n2 =? 154) && (n3 =? 128))
  || ((n1 =? 226) && (n2 =? 128)
      && (((128 <=? n3) && (n3 <=? 138))
          || (n3 =? 168) || (n3 =? 169) || (n3 =? 175)))
  || ((n1 =? 226) && (n2 =? 129) && (n3 =? 159))
  || ((n1 =? 227) && (n2 =? 128) && (n3 =? 128)).

(** [strings.TrimLeftFunc(s, unicode.IsSpace)]: the white-space runes
    the text starts with are dropped.  A byte that starts no well-formed
    rune decodes to the error rune, which is no white space. *)
Fixpoint trim_left (s : string) : string :=
  match s with
  | EmptyString => EmptyString
  | String c1 s1 =>
      if is_space c1 then trim_left s1
      else
        match s1 with
        | EmptyString => s
        | String c2 s2 =>
            if is_space2 c1 c2 then trim_left s2
            else
              match s2 with
              | EmptyString => s
              | String c3 s3 =>
                  if is_space3 c1 c2 c3 then trim_left s3 else s
              end
        end
  end.

(** A text of white-space runes only. *)
Definition blank (s : string) : bool :=
  match trim_left s with EmptyString => true | String _ _ => false end.

(** [strings.TrimRightFunc(s, unicode.IsSpace)]: the white-space runes
    the text ends with are dropped, which leaves the shortest beginning of
    the text that only white space follows. *)
Fixpoint trim_right (s : string) : string :=
  match s with
  | EmptyString => EmptyString
  | String c s' => if blank s then EmptyString else String c (trim_right s')
  end.

(** [strings.TrimSpace]. *)
Definition TrimSpace (s : string) : string := trim_right (trim_left s).

(** [SQLiteTypeToPostgres]: the switch of the source, in its order. *)
Definition SQLiteTypeToPostgres `{Unicode} (sqliteType : string) : string :=
  let sqliteType := ToUpper (TrimSpace sqliteType) in
  if Contains sqliteType "INT" then "int8"
  else if Contains sqliteType "CHAR" || Contains sqliteType "CLOB"
          || Contains sqliteType "TEXT" then "text"
  else if Contains sqliteType "BLOB" then "bytea"
  else if Contains sqliteType "REAL" || Contains sqliteType "FLOA"
          || Contains sqliteType "DOUB" then "float8"
  else if Contains sqliteType "NUMERIC" || Contains sqliteType "DECIMAL"
       then "numeric"
  else if Contains sqliteType "DATE" then "date"
  else if Contains sqliteType "TIME" then "timestamp"
  else if Contains sqliteType "BOOL" then "bool"
  else "text".

(** The text the switch looks at: trimmed, in upper case. *)
Definition type_key `{Unicode} (s : string) : string := ToUpper (TrimSpace s).

(** The number of bytes of the white-space rune a text starts with, 0
    when it starts with none. *)
Definition space_width (s : string) : nat :=
  match s with
  | EmptyString => 0
  | String c1 s1 =>
      if is_space c1 then 1
      else
        match s1 with
        | EmptyString => 0
        | String c2 s2 =>
            if is_space2 c1 c2 then 2
            else
              match s2 with
              | EmptyString => 0
              | String c3 _ => if is_space3 c1 c2 c3 then 3 else 0
              end
        end
  end.

(** The encoding of one white-space rune. *)
Definition space_rune (p : string) : bool :=
  match p with
  | String c EmptyString => is_space c
  | String c1 (String c2 EmptyString) => negb (is_space c1) && is_space2 c1 c2
  | String c1 (String c2 (String c3 EmptyString)) =>
      negb (is_space c1) && negb (is_space2 c1 c2) && is_space3 c1 c2 c3
  | _ => false
  end.

(** A byte that continues a rune: 10xxxxxx. *)
Definition continuation (c : ascii) : bool :=
  (128 <=? nat_of_ascii c) && (nat_of_ascii c <? 192).

(** [trims s u]: the text [s] is white-space runes followed by [u],
    which starts with none. *)
Inductive trims : string → string → Prop :=
| trims_stop (u : string) : space_width u = 0 → trims u u
| trims_rune (p s u : string) :
    space_rune p = true → trims s u → trims (p +:+ s) u.

(** *** Text of ASCII bytes *)

(** On ASCII text, white space is the six bytes of [is_space], and
    trimming goes byte by byte. *)
Fixpoint trim_left_ascii (s : string) : string :=
  match s with
  | EmptyString => EmptyString
  | String c s' => if is_space c then trim_left_ascii s' else s
  end.

Fixpoint trim_right_ascii (s : string) : string :=
  match s with
  | EmptyString => EmptyString
  | String c s' =>
      match trim_right_ascii s' with
      | EmptyString => if is_space c then EmptyString else String c EmptyString
      | t => String c t
      end
  end.

Definition TrimSpace_ascii (s : string) : string :=
  trim_right_ascii (trim_left_ascii s).

(** A string of ASCII white space only. *)
Fixpoint blank_ascii (s : string) : bool :=
  match s with
  | EmptyString => true
  | String c s' => is_space c && blank_ascii s'
  end.

(** What the switch looks at, for ASCII text. *)
Definition type_key_ascii (s : string) : string :=
  upper_ascii (TrimSpace_ascii s).

(** A pattern ends well when it is empty or its last byte is no white
    space; a keyword to look for is solid when it is not empty and has no
    white space at either end. *)
Fixpoint ends_solid (p : string) : bool :=
  match p with
  | EmptyString => true
  | String c EmptyString => negb (is_space c)
  | String _ p' => ends_solid p'
  end.

Definition solid (kw : string) : bool :=
  match kw with
  | EmptyString => false
  | String c _ => negb (is_space c) && ends_solid kw
  end.

(** The patterns of the switch that come before ["DATE"]. *)
Definition before_DATE : list string :=
  [ "INT"; "CHAR"; "CLOB"; "TEXT"; "BLOB"; "REAL"; "FLOA"; "DOUB";
    "NUMERIC"; "DECIMAL" ].

(** All the patterns of the switch. *)
Definition type_patterns : list string :=
  before_DATE ++ [ "DATE"; "TIME"; "BOOL" ].

(** The no-break space U+00A0, in UTF-8. *)
Definition nbsp : string :=
  String (ascii_of_nat 194) (String (ascii_of_nat 160) EmptyString).

(** *** Trimming white-space runes *)

Lemma trim_left_cases (s : string) :
  (space_width s = 0 ∧ trim_left s = s)
  ∨ ∃ p s', s = p +:+ s' ∧ space_rune p = true ∧ trim_left s = trim_left s'.
Proof.
  destruct s as [|c1 s1]; [by left|].
  cbn [trim_left space_width]. destruct (is_space c1) eqn:H1.
  { right. exists (String c1 ""), s1. cbn [space_rune].
    by rewrite append_cons, append_nil_l. }
  destruct s1 as [|c2 s2]; [by left|].
  destruct (is_space2 c1 c2) eqn:H2.
  { right. exists (String c1 (String c2 "")), s2. cbn [space_rune].
    by rewrite !append_cons, append_nil_l, H1, H2. }
  destruct s2 as [|c3 s3]; [by left|].
  destruct (is_space3 c1 c2 c3) eqn:H3; [|by left].
  right. exists (String c1 (String c2 (String c3 ""))), s3. cbn [space_rune].
  by rewrite !append_cons, append_nil_l, H1, H2, H3.
Qed.

Lemma length_append (a b : string) :
  String.length (a +:+ b) = String.length a + String.length b.
Proof.
  induction a as [|c a IH]; [done|]. rewrite append_cons. simpl.
  by rewrite IH.
Qed.

Lemma space_rune_length (p : string) :
  space_rune p = true → 0 < String.length p.
Proof. destruct p; [done|]. simpl. lia. Qed.

Lemma trims_trim_left (s : string) : trims s (trim_left s).
Proof.
  remember (String.length s) as n eqn:Hn. revert s Hn.
  induction n as [n IH] using lt_wf_ind. intros s ->.
  destruct (trim_left_cases s) as [[Hw ->]|(p & s' & -> & Hp & ->)].
  - by apply trims_stop.
  - apply trims_rune; [done|]. apply (IH (String.length s')); [|done].
    rewrite length_append. apply space_rune_length in Hp. lia.
Qed.

Lemma trim_left_rune (p s : string) :
  space_rune p = true → trim_left (p +:+ s) = trim_left s.
Proof.
  destruct p as [|c1 [|c2 [|c3 [|c4 p]]]]; cbn [space_rune]; try done.
  - intros H1. rewrite append_cons, append_nil_l. cbn [trim_left].
    by rewrite H1.
  - intros [H1 H2]%andb_prop. apply negb_true_iff in H1.
    rewrite !append_cons, append_nil_l. cbn [trim_left]. by rewrite H1, H2.
  - intros [[H1 H2]%andb_prop H3]%andb_prop.
    apply negb_true_iff in H1, H2.
    rewrite !append_cons, append_nil_l. cbn [trim_left].
    by rewrite H1, H2, H3.
Qed.

Lemma trim_left_stop (u : string) : space_width u = 0 → trim_left u = u.
Proof.
  destruct (trim_left_cases u) as [[_ H]|(p & s' & -> & Hp & _)]; [done|].
  destruct p as [|c1 [|c2 [|c3 [|c4 p]]]]; cbn [space_rune] in Hp; try done.
  - rewrite append_cons. cbn [space_width]. by rewrite Hp.
  - apply andb_prop in Hp as [H1%negb_true_iff H2].
    rewrite !append_cons. cbn [space_width]. by rewrite H1, H2.
  - apply andb_prop in Hp as [[H1%negb_true_iff H2%negb_true_iff]%andb_prop H3].
    rewrite !append_cons. cbn [space_width]. by rewrite H1, H2, H3.
Qed.

Lemma trims_spec (s u : string) : trims s u → trim_left s = u.
Proof.
  induction 1 as [u Hw|p s u Hp _ IH]; [by apply trim_left_stop|].
  by rewrite trim_left_rune.
Qed.

Lemma trims_width (s u : string) : trims s u → space_width u = 0.
Proof. by induction 1. Qed.

Lemma trim_left_idem (s : string) : trim_left (trim_left s) = trim_left s.
Proof. apply trim_left_stop, (trims_width s), trims_trim_left. Qed.

Lemma blank_trim_left (s : string) : blank (trim_left s) = blank s.
Proof. unfold blank. by rewrite trim_left_idem. Qed.

Lemma blank_spec (s : string) : blank s = true ↔ trim_left s = "".
Proof. unfold blank. by destruct (trim_left s). Qed.

(** White space in front is trimmed away. *)
Lemma trim_left_blank (l s : string) :
  blank l = true → trim_left (l +:+ s) = trim_left s.
Proof.
  intros Hl%blank_spec. pose proof (trims_trim_left l) as Ht.
  rewrite Hl in Ht. clear Hl. remember "" as u eqn:Hu.
  induction Ht as [u Hw|p l u Hp _ IH]; [by subst|].
  rewrite append_assoc, trim_left_rune by done. by apply IH.
Qed.

(** The bytes a white-space rune continues with are continuation bytes,
    the byte it starts with is none. *)
Lemma is_space_start (c : ascii) : is_space c = true → continuation c = false.
Proof.
  unfold is_space, continuation. intros H.
  apply andb_false_iff. left. apply Nat.leb_gt.
  apply orb_prop in H as [[H1 H2]%andb_prop|H].
  - apply Nat.leb_le in H2. lia.
  - apply Nat.eqb_eq in H. lia.
Qed.

Lemma is_space2_start (c1 c2 : ascii) :
  is_space2 c1 c2 = true → continuation c1 = false ∧ continuation c2 = true.
Proof.
  unfold is_space2, continuation. intros [H1%Nat.eqb_eq H2]%andb_prop.
  rewrite H1. split; [done|].
  apply orb_prop in H2 as [H2%Nat.eqb_eq|H2%Nat.eqb_eq]; by rewrite H2.
Qed.

Lemma is_space3_start (c1 c2 c3 : ascii) :
  is_space3 c1 c2 c3 = true →
  continuation c1 = false ∧ continuation c2 = true ∧ continuation c3 = true.
Proof.
  unfold is_space3, continuation. intros H.
  repeat match type of H with
         | (_ || _) = true => apply orb_prop in H as [H|H]
         end;
    repeat match goal with
           | H : (_ && _) = true |- _ => apply andb_prop in H as [? ?]
           | H : (_ || _) = true |- _ => apply orb_prop in H as [?|?]
           | H : (_ =? _) = true |- _ => apply Nat.eqb_eq in H
           | H : (_ <=? _) = true |- _ => apply Nat.leb_le in H
           end;
    (split; [|split]); apply andb_true_intro || apply andb_false_iff;
    try (split; [apply Nat.leb_le|apply Nat.ltb_lt]; lia);
    right; apply Nat.ltb_ge; lia.
Qed.

(** The first byte of white space starts a rune. *)
Definition starts_clean (r : string) : Prop :=
  match r with
  | EmptyString => True
  | String d _ => continuation d = false
  end.

Lemma blank_starts_clean (r : string) : blank r = true → starts_clean r.
Proof.
  intros Hr%blank_spec.
  destruct (trim_left_cases r) as [[_ H]|(p & s' & -> & Hp & _)].
  { rewrite H in Hr. by subst. }
  destruct p as [|c1 [|c2 [|c3 [|c4 p]]]]; cbn [space_rune] in Hp; try done;
    rewrite append_cons; cbn [starts_clean].
  - by apply is_space_start.
  - apply andb_prop in Hp as [_ H2]. by apply is_space2_start in H2 as [? _].
  - apply andb_prop in Hp as [_ H3].
    by apply is_space3_start in H3 as (? & _).
Qed.

(** A text that starts with no white space still starts with none when
    white space is put after it. *)
Lemma space_width_app (u r : string) :
  space_width u = 0 → u ≠ "" → starts_clean r → space_width (u +:+ r) = 0.
Proof.
  intros Hw Hne Hr. destruct u as [|c1 u]; [done|]. clear Hne.
  rewrite append_cons. cbn [space_width] in *.
  destruct (is_space c1); [done|].
  destruct u as [|c2 u].
  { rewrite append_nil_l. destruct r as [|d1 r]; [done|].
    cbn [starts_clean] in Hr.
    destruct (is_space2 c1 d1) eqn:H2.
    { apply is_space2_start in H2 as [_ H2]. congruence. }
    destruct r as [|d2 r]; [done|].
    destruct (is_space3 c1 d1 d2) eqn:H3; [|done].
    apply is_space3_start in H3 as (_ & H3 & _). congruence. }
  rewrite append_cons. destruct (is_space2 c1 c2); [done|].
  destruct u as [|c3 u].
  { rewrite append_nil_l. destruct r as [|d1 r]; [done|].
    cbn [starts_clean] in Hr.
    destruct (is_space3 c1 c2 d1) eqn:H3; [|done].
    apply is_space3_start in H3 as (_ & _ & H3). congruence. }
  rewrite append_cons. by destruct (is_space3 c1 c2 c3).
Qed.

(** White space put after a text is not trimmed from the left, unless
    the text is white space itself. *)
Lemma trim_left_app_blank (t r : string) :
  blank r = true →
  trim_left (t +:+ r) = if blank t then "" else trim_left t +:+ r.
Proof.
  intros Hr. pose proof (trims_trim_left t) as Ht.
  unfold blank at 1. remember (trim_left t) as u eqn:Hu. clear Hu.
  induction Ht as [u Hw|p t u Hp _ IH].
  - destruct u as [|c u]; [rewrite append_nil_l; by apply blank_spec|].
    apply trim_left_stop, space_width_app; [done..|].
    by apply blank_starts_clean.
  - by rewrite append_assoc, trim_left_rune.
Qed.

Lemma blank_app_r (t r : string) :
  blank r = true → blank (t +:+ r) = blank t.
Proof.
  intros Hr. unfold blank at 1. rewrite trim_left_app_blank by done.
  destruct (blank t) eqn:Ht; [done|].
  unfold blank in Ht. destruct (trim_left t); [done|].
  by rewrite append_cons.
Qed.

Lemma trim_right_empty (s : string) : trim_right s = "" ↔ blank s = true.
Proof.
  destruct s as [|c s]; [done|]. cbn [trim_right].
  by destruct (blank (String c s)).
Qed.

(** White space at the end is trimmed away. *)
Lemma trim_right_blank (s r : string) :
  blank r = true → trim_right (s +:+ r) = trim_right s.
Proof.
  intros Hr. induction s as [|c s IH].
  - rewrite append_nil_l. by apply trim_right_empty.
  - rewrite append_cons. cbn [trim_right]. rewrite <- append_cons.
    rewrite blank_app_r by done. by rewrite IH.
Qed.

Lemma TrimSpace_empty (s : string) : TrimSpace s = "" ↔ blank s = true.
Proof. unfold TrimSpace. by rewrite trim_right_empty, blank_trim_left. Qed.

(** White space around a text is trimmed away. *)
Lemma TrimSpace_blank (l s r : string) :
  blank l = true → blank r = true →
  TrimSpace (l +:+ s +:+ r) = TrimSpace s.
Proof.
  intros Hl Hr. unfold TrimSpace.
  rewrite trim_left_blank, trim_left_app_blank by done.
  destruct (blank s) eqn:Hs.
  - apply blank_spec in Hs. by rewrite Hs.
  - by apply trim_right_blank.
Qed.

(** *** ASCII text is trimmed byte by byte *)

Lemma isASCII_cons (c : ascii) (s : string) :
  isASCII (String c s) = true →
  nat_of_ascii c < 128 ∧ isASCII s = true.
Proof.
  simpl. intros [H1 H2]%andb_prop. split; [|done]. by apply Nat.ltb_lt.
Qed.

Lemma is_space2_ascii (c1 c2 : ascii) :
  nat_of_ascii c1 < 128 → is_space2 c1 c2 = false.
Proof.
  intros H. unfold is_space2.
  destruct (Nat.eqb_spec (nat_of_ascii c1) 194); [lia|done].
Qed.

Lemma is_space3_ascii (c1 c2 c3 : ascii) :
  nat_of_ascii c1 < 128 → is_space3 c1 c2 c3 = false.
Proof.
  intros H. unfold is_space3.
  destruct (Nat.eqb_spec (nat_of_ascii c1) 225); [lia|].
  destruct (Nat.eqb_spec (nat_of_ascii c1) 226); [lia|].
  destruct (Nat.eqb_spec (nat_of_ascii c1) 227); [lia|]. done.
Qed.

Lemma trim_left_ascii_eq (s : string) :
  isASCII s = true → trim_left s = trim_left_ascii s.
Proof.
  induction s as [|c1 s IH]; [done|].
  intros [H1 Hs]%isASCII_cons. cbn [trim_left trim_left_ascii].
  destruct (is_space c1); [by apply IH|].
  destruct s as [|c2 s]; [done|]. rewrite is_space2_ascii by done.
  destruct s as [|c3 s]; [done|]. by rewrite is_space3_ascii.
Qed.

Lemma trim_left_ascii_empty (s : string) :
  trim_left_ascii s = "" ↔ blank_ascii s = true.
Proof.
  induction s as [|c s IH]; [done|]. simpl. by destruct (is_space c).
Qed.

Lemma blank_ascii_eq (s : string) :
  isASCII s = true → blank s = blank_ascii s.
Proof.
  intros Hs. unfold blank. rewrite trim_left_ascii_eq by done.
  pose proof (trim_left_ascii_empty s) as H.
  destruct (trim_left_ascii s), (blank_ascii s); try done.
  - discriminate (proj1 H eq_refl).
  - discriminate (proj2 H eq_refl).
Qed.

Lemma blank_ascii_isASCII (s : string) :
  blank_ascii s = true → isASCII s = true.
Proof.
  induction s as [|c s IH]; [done|]. simpl.
  intros [Hc Hs]%andb_prop. rewrite (IH Hs), andb_true_r.
  apply Nat.ltb_lt. unfold is_space in Hc.
  apply orb_prop in Hc as [[_ H]%andb_prop|H].
  - apply Nat.leb_le in H. lia.
  - apply Nat.eqb_eq in H. lia.
Qed.

(** ASCII white space is white space. *)
Lemma blank_ascii_blank (s : string) : blank_ascii s = true → blank s = true.
Proof.
  intros H. by rewrite blank_ascii_eq by by apply blank_ascii_isASCII.
Qed.

Lemma isASCII_trim_left_ascii (s : string) :
  isASCII s = true → isASCII (trim_left_ascii s) = true.
Proof.
  induction s as [|c s IH]; [done|]. intros H. simpl trim_left_ascii.
  destruct (is_space c); [|done]. apply IH. by apply isASCII_cons in H as [_ ?].
Qed.

Lemma upper_byte_ascii (c : ascii) :
  (nat_of_ascii (upper_byte c) <? 128) = (nat_of_ascii c <? 128).
Proof. by destruct c as [[] [] [] [] [] [] [] []]. Qed.

Lemma lower_byte_ascii (c : ascii) :
  (nat_of_ascii (lower_byte c) <? 128) = (nat_of_ascii c <? 128).
Proof. by destruct c as [[] [] [] [] [] [] [] []]. Qed.

Lemma isASCII_upper_ascii (s : string) : isASCII (upper_ascii s) = isASCII s.
Proof.
  induction s as [|c s IH]; [done|]. simpl. by rewrite upper_byte_ascii, IH.
Qed.

Lemma isASCII_lower_ascii (s : string) : isASCII (lower_ascii s) = isASCII s.
Proof.
  induction s as [|c s IH]; [done|]. simpl. by rewrite lower_byte_ascii, IH.
Qed.

(** *** Trimming keeps what a keyword search finds *)

Lemma upper_byte_space (c : ascii) : is_space (upper_byte c) = is_space c.
Proof. by destruct c as [[] [] [] [] [] [] [] []]. Qed.

Lemma lower_byte_space (c : ascii) : is_space (lower_byte c) = is_space c.
Proof. by destruct c as [[] [] [] [] [] [] [] []]. Qed.

Lemma upper_lower_byte (c : ascii) : upper_byte (lower_byte c) = upper_byte c.
Proof. by destruct c as [[] [] [] [] [] [] [] []]. Qed.

Lemma upper_upper_byte (c : ascii) : upper_byte (upper_byte c) = upper_byte c.
Proof. by destruct c as [[] [] [] [] [] [] [] []]. Qed.

Lemma trim_right_ascii_empty (s : string) :
  trim_right_ascii s = "" ↔ blank_ascii s = true.
Proof.
  induction s as [|c s IH]; simpl; [done|].
  destruct (trim_right_ascii s) as [|d t] eqn:Ht.
  - destruct (is_space c); simpl; [by rewrite <- IH|done].
  - split; [done|]. intros H. apply andb_prop in H as [_ H].
    by apply IH in H.
Qed.

(** How [trim_right_ascii] acts on a byte in front. *)
Lemma trim_right_ascii_cons (c : ascii) (s : string) :
  trim_right_ascii (String c s)
  = if is_space c && blank_ascii s then "" else String c (trim_right_ascii s).
Proof.
  simpl. destruct (trim_right_ascii s) as [|d t] eqn:Ht.
  - rewrite (proj1 (trim_right_ascii_empty s) Ht), andb_true_r.
    by destruct (is_space c).
  - assert (blank_ascii s = false) as ->.
    { destruct (blank_ascii s) eqn:Hb; [|done].
      apply trim_right_ascii_empty in Hb. congruence. }
    by rewrite andb_false_r.
Qed.

Lemma blank_ascii_app (a b : string) :
  blank_ascii (a +:+ b) = blank_ascii a && blank_ascii b.
Proof.
  induction a as [|c a IH]; [done|]. rewrite append_cons. simpl.
  by rewrite IH, andb_assoc.
Qed.

Lemma ends_solid_tail (c : ascii) (p : string) :
  ends_solid (String c p) = true → ends_solid p = true.
Proof. simpl. by destruct p. Qed.

Lemma ends_solid_not_blank_ascii (p : string) :
  ends_solid p = true → p ≠ "" → blank_ascii p = false.
Proof.
  induction p as [|c p IH]; [done|]. intros Hs _. simpl.
  destruct p as [|d p].
  - simpl in Hs. by destruct (is_space c).
  - rewrite IH; [by rewrite andb_false_r|by apply ends_solid_tail in Hs|done].
Qed.

Lemma HasPrefix_blank_ascii (s p : string) :
  HasPrefix s p = true → blank_ascii s = true → blank_ascii p = true.
Proof.
  revert s. induction p as [|d p IH]; intros s; simpl; [done|].
  destruct s as [|c s]; [done|]. destruct (Ascii.eqb_spec d c) as [->|]; [|done].
  simpl. intros Hp Hb. apply andb_prop in Hb as [-> Hb]. by apply (IH s).
Qed.

Lemma Contains_blank_ascii (s kw : string) :
  blank_ascii s = true → blank_ascii kw = false → Contains s kw = false.
Proof.
  intros Hs Hkw. induction s as [|c s IH]; simpl.
  - destruct (HasPrefix "" kw) eqn:Hp; [|done].
    apply HasPrefix_blank_ascii in Hp; [congruence|done].
  - destruct (HasPrefix (String c s) kw) eqn:Hp.
    + apply HasPrefix_blank_ascii in Hp; [congruence|done].
    + simpl in Hs. apply andb_prop in Hs as [_ Hs]. by apply IH.
Qed.

Lemma HasPrefix_trim_right_ascii (s p : string) :
  ends_solid p = true → HasPrefix (trim_right_ascii s) p = HasPrefix s p.
Proof.
  revert p. induction s as [|c s IH]; intros p Hp; [done|].
  destruct p as [|d p]; [done|]. rewrite trim_right_ascii_cons.
  destruct (is_space c && blank_ascii s) eqn:Hb.
  - symmetry. destruct (HasPrefix (String c s) (String d p)) eqn:Hh; [|done].
    apply HasPrefix_blank_ascii in Hh; [|done].
    by rewrite ends_solid_not_blank_ascii in Hh.
  - simpl. destruct (Ascii.eqb d c); [|done].
    apply IH. by apply ends_solid_tail in Hp.
Qed.

Lemma Contains_trim_right_ascii (s kw : string) :
  ends_solid kw = true → kw ≠ "" →
  Contains (trim_right_ascii s) kw = Contains s kw.
Proof.
  intros Hkw Hne. induction s as [|c s IH]; [done|].
  pose proof (HasPrefix_trim_right_ascii (String c s) kw Hkw) as Hp.
  rewrite trim_right_ascii_cons in *.
  destruct (is_space c && blank_ascii s) eqn:Hb.
  - rewrite (Contains_blank_ascii (String c s)); [|done|by apply ends_solid_not_blank_ascii].
    destruct kw; [done|]. done.
  - simpl in *. rewrite Hp, IH. done.
Qed.

Lemma Contains_trim_left_ascii (s kw : string) :
  solid kw = true → Contains (trim_left_ascii s) kw = Contains s kw.
Proof.
  intros Hkw. induction s as [|c s IH]; [done|]. simpl trim_left_ascii.
  destruct (is_space c) eqn:Hc; [|done]. rewrite IH.
  destruct kw as [|d kw]; [done|]. simpl in Hkw.
  apply andb_prop in Hkw as [Hd _]. simpl.
  destruct (Ascii.eqb_spec d c) as [->|]; [|done].
  by rewrite Hc in Hd.
Qed.

(** A solid keyword is found in the trimmed text exactly when it is
    found in the text. *)
Lemma Contains_TrimSpace_ascii (s kw : string) :
  solid kw = true → Contains (TrimSpace_ascii s) kw = Contains s kw.
Proof.
  intros Hkw. unfold TrimSpace_ascii.
  rewrite Contains_trim_right_ascii, Contains_trim_left_ascii; [done..| |].
  - destruct kw; [done|]. simpl in Hkw. by apply andb_prop in Hkw as [_ ?].
  - by destruct kw.
Qed.

(** *** Letter case and trimming commute *)

Lemma blank_ascii_upper_ascii (s : string) :
  blank_ascii (upper_ascii s) = blank_ascii s.
Proof.
  induction s as [|c s IH]; [done|]. simpl. by rewrite upper_byte_space, IH.
Qed.

Lemma trim_left_ascii_upper_ascii (s : string) :
  trim_left_ascii (upper_ascii s) = upper_ascii (trim_left_ascii s).
Proof.
  induction s as [|c s IH]; [done|]. simpl. rewrite upper_byte_space.
  by destruct (is_space c).
Qed.

Lemma trim_right_ascii_upper_ascii (s : string) :
  trim_right_ascii (upper_ascii s) = upper_ascii (trim_right_ascii s).
Proof.
  induction s as [|c s IH]; [done|].
  change (upper_ascii (String c s)) with (String (upper_byte c) (upper_ascii s)).
  rewrite !trim_right_ascii_cons, upper_byte_space, blank_ascii_upper_ascii, IH.
  by destruct (is_space c && blank_ascii s).
Qed.

Lemma TrimSpace_ascii_upper_ascii (s : string) :
  TrimSpace_ascii (upper_ascii s) = upper_ascii (TrimSpace_ascii s).
Proof. unfold TrimSpace_ascii. by rewrite trim_left_ascii_upper_ascii, trim_right_ascii_upper_ascii. Qed.

Lemma upper_ascii_lower_ascii (s : string) :
  upper_ascii (lower_ascii s) = upper_ascii s.
Proof.
  induction s as [|c s IH]; [done|]. simpl. by rewrite upper_lower_byte, IH.
Qed.

Lemma upper_ascii_upper_ascii (s : string) :
  upper_ascii (upper_ascii s) = upper_ascii s.
Proof.
  induction s as [|c s IH]; [done|]. simpl. by rewrite upper_upper_byte, IH.
Qed.

(** *** White space around the text *)

Lemma trim_left_ascii_blank_ascii (l s : string) :
  blank_ascii l = true → trim_left_ascii (l +:+ s) = trim_left_ascii s.
Proof.
  induction l as [|c l IH]; [done|]. intros H. simpl in H.
  apply andb_prop in H as [Hc Hl]. rewrite append_cons. simpl trim_left_ascii.
  rewrite Hc. by apply IH.
Qed.

Lemma trim_right_ascii_blank_ascii (s r : string) :
  blank_ascii r = true → trim_right_ascii (s +:+ r) = trim_right_ascii s.
Proof.
  intros Hr. induction s as [|c s IH].
  - rewrite append_nil_l. by apply trim_right_ascii_empty.
  - rewrite append_cons, !trim_right_ascii_cons, blank_ascii_app, Hr, andb_true_r, IH.
    done.
Qed.

Lemma TrimSpace_ascii_blank_ascii_r (s r : string) :
  blank_ascii r = true → TrimSpace_ascii (s +:+ r) = TrimSpace_ascii s.
Proof.
  intros Hr. unfold TrimSpace_ascii. induction s as [|c s IH].
  - rewrite append_nil_l. simpl.
    assert (trim_left_ascii r = "") as ->; [|done].
    clear -Hr. induction r as [|c r IH]; [done|]. simpl in *.
    apply andb_prop in Hr as [-> Hr]. by apply IH.
  - rewrite append_cons. simpl trim_left_ascii. destruct (is_space c); [done|].
    by rewrite <- append_cons, trim_right_ascii_blank_ascii.
Qed.

Lemma type_key_ascii_invariant (s l r : string) :
  blank_ascii l = true → blank_ascii r = true →
  type_key_ascii (l +:+ s +:+ r) = type_key_ascii s
  ∧ type_key_ascii (lower_ascii s) = type_key_ascii s
  ∧ type_key_ascii (upper_ascii s) = type_key_ascii s.
Proof.
  intros Hl Hr. unfold type_key_ascii. split; [|split].
  - unfold TrimSpace_ascii at 1. rewrite trim_left_ascii_blank_ascii by done.
    fold (TrimSpace_ascii (s +:+ r)). by rewrite TrimSpace_ascii_blank_ascii_r.
  - by rewrite <- !TrimSpace_ascii_upper_ascii, upper_ascii_lower_ascii.
  - by rewrite <- !TrimSpace_ascii_upper_ascii, upper_ascii_upper_ascii.
Qed.

(** What the switch tests: a keyword occurs in the text the switch looks
    at exactly when it occurs in the declared type in some letter case. *)
Lemma Contains_type_key_ascii (s kw : string) :
  solid kw = true → upper_ascii kw = kw →
  Contains (type_key_ascii s) kw = true ↔ contains_ci s kw.
Proof.
  intros Hs Hu. unfold type_key_ascii.
  rewrite <- TrimSpace_ascii_upper_ascii, Contains_TrimSpace_ascii by done.
  by apply Contains_upper_ascii_ci.
Qed.

Lemma trim_right_ascii_eq (s : string) :
  isASCII s = true → trim_right s = trim_right_ascii s.
Proof.
  induction s as [|c s IH]; [done|]. intros Hs.
  rewrite trim_right_ascii_cons. cbn [trim_right].
  rewrite (blank_ascii_eq _ Hs). cbn [blank_ascii].
  apply isASCII_cons in Hs as [_ Hs]. by rewrite IH.
Qed.

Lemma TrimSpace_ascii_eq (s : string) :
  isASCII s = true → TrimSpace s = TrimSpace_ascii s.
Proof.
  intros Hs. unfold TrimSpace, TrimSpace_ascii.
  rewrite trim_left_ascii_eq by done.
  by apply trim_right_ascii_eq, isASCII_trim_left_ascii.
Qed.

Lemma isASCII_trim_right_ascii (s : string) :
  isASCII s = true → isASCII (trim_right_ascii s) = true.
Proof.
  induction s as [|c s IH]; [done|]. intros Hs.
  rewrite trim_right_ascii_cons. destruct (is_space c && blank_ascii s); [done|].
  simpl in *. apply andb_prop in Hs as [-> Hs]. by apply IH.
Qed.

Lemma isASCII_TrimSpace_ascii (s : string) :
  isASCII s = true → isASCII (TrimSpace_ascii s) = true.
Proof.
  intros Hs. by apply isASCII_trim_right_ascii, isASCII_trim_left_ascii.
Qed.

Section Tables.

Context {tables : Unicode}.

(** On ASCII text the switch looks at the text trimmed and upper-cased
    byte by byte. *)
Lemma type_key_ascii_eq (s : string) :
  isASCII s = true → type_key s = type_key_ascii s.
Proof.
  intros Hs. unfold type_key, type_key_ascii.
  rewrite TrimSpace_ascii_eq by done.
  by apply ToUpper_ascii, isASCII_TrimSpace_ascii.
Qed.

(** X7. The type mapping does not depend on the white space around the
    declared type, whichever white space of Unicode it is, nor, for a
    declared type of ASCII bytes, on its letter case. *)
Theorem SQLiteTypeToPostgres_insensitive (s : string) :
  (∀ l r, blank l = true → blank r = true →
     SQLiteTypeToPostgres (l +:+ s +:+ r) = SQLiteTypeToPostgres s)
  ∧ (isASCII s = true →
     SQLiteTypeToPostgres (ToLower s) = SQLiteTypeToPostgres s
     ∧ SQLiteTypeToPostgres (ToUpper s) = SQLiteTypeToPostgres s).
Proof.
  split.
  - intros l r Hl Hr. unfold SQLiteTypeToPostgres.
    by rewrite TrimSpace_blank.
  - intros Hs. unfold SQLiteTypeToPostgres.
    fold (type_key s) (type_key (ToLower s)) (type_key (ToUpper s)).
    rewrite (ToLower_ascii s Hs), (ToUpper_ascii s Hs).
    rewrite !type_key_ascii_eq
      by by rewrite ?isASCII_lower_ascii, ?isASCII_upper_ascii.
    by destruct (type_key_ascii_invariant s "" "" eq_refl eq_refl)
      as (_ & -> & ->).
Qed.

(** X8. For a declared type of ASCII bytes the type mapping is ordered
    matching on keywords found in any letter case.  A declared type with
    INT anywhere in it is int8, whatever else it contains; one with DATE
    in it and none of the ten keywords tested before DATE is date; one
    with none of the keywords is text.  For every declared type the
    answer is one of eight type names. *)
Theorem SQLiteTypeToPostgres_ordered (s : string) :
  (isASCII s = true →
     (contains_ci s "INT" → SQLiteTypeToPostgres s = "int8")
     ∧ (contains_ci s "DATE" →
        Forall (λ kw, ¬ contains_ci s kw) before_DATE →
        SQLiteTypeToPostgres s = "date")
     ∧ (Forall (λ kw, ¬ contains_ci s kw) type_patterns →
        SQLiteTypeToPostgres s = "text"))
  ∧ SQLiteTypeToPostgres s
    ∈ [ "int8"; "text"; "bytea"; "float8"; "numeric"; "date"; "timestamp";
        "bool" ].
Proof.
  split.
  2:{ unfold SQLiteTypeToPostgres. fold (type_key s).
      repeat (destruct (Contains (type_key s) _); simpl;
              [by repeat constructor|]); by repeat constructor. }
  intros Hs.
  assert (∀ kw, kw ∈ type_patterns →
            Contains (type_key s) kw = true ↔ contains_ci s kw) as Hkw.
  { intros kw Hin. rewrite type_key_ascii_eq by done.
    apply Contains_type_key_ascii;
      unfold type_patterns, before_DATE in Hin; simpl in Hin;
      repeat (apply elem_of_cons in Hin as [->|Hin]; [reflexivity|]);
      by apply elem_of_nil in Hin. }
  assert (∀ l, l ⊆ type_patterns → Forall (λ kw, ¬ contains_ci s kw) l →
            Forall (λ kw, Contains (type_key s) kw = false) l) as Hnot.
  { intros l Hsub Hall. apply Forall_forall. intros kw Hin.
    rewrite Forall_forall in Hall. specialize (Hall kw Hin).
    destruct (Contains (type_key s) kw) eqn:Hc; [|done].
    destruct Hall. apply Hkw; [by apply Hsub|done]. }
  unfold SQLiteTypeToPostgres. fold (type_key s).
  split; [|split].
  - intros Hint. apply Hkw in Hint; [by rewrite Hint|].
    apply elem_of_app. left. by left.
  - intros Hdate Hbefore. apply Hkw in Hdate;
      [|apply elem_of_app; right; by left].
    apply Hnot in Hbefore;
      [|intros kw Hin; apply elem_of_app; by left].
    unfold before_DATE in Hbefore.
    repeat (apply Forall_cons in Hbefore as [-> Hbefore]). by rewrite Hdate.
  - intros Hnone. apply Hnot in Hnone; [|done].
    unfold type_patterns, before_DATE in Hnone. simpl in Hnone.
    repeat (apply Forall_cons in Hnone as [-> Hnone]). done.
Qed.

End Tables.

(** X9. [MapSQLiteError] answers the success code for the nil error and
    for no other, and every answer is a code of five bytes. *)
Theorem MapSQLiteError_codes (err : option string) :
  (MapSQLiteError err = "00000" ↔ err = None)
  ∧ String.length (MapSQLiteError err) = 5.
Proof.
  destruct err as [msg|]; [|done]. unfold MapSQLiteError.
  repeat (destruct (Contains msg _); [done|]). done.
Qed.

#[local] Existing Instance no_tables.

(** Lines of the table of TestSQLiteTypeMapping (storage_test.go). *)
Example SQLiteTypeToPostgres_tests :
  map SQLiteTypeToPostgres
    [ "INTEGER"; "INT"; "TEXT"; "VARCHAR(255)"; "REAL"; "FLOAT"; "DOUBLE";
      "BLOB"; "NUMERIC"; "DATE"; "BOOLEAN" ]
  = [ "int8"; "int8"; "text"; "text"; "float8"; "float8"; "float8";
      "bytea"; "numeric"; "date"; "bool" ].
Proof. reflexivity. Qed.

(** White space of ASCII and of Unicode is trimmed from both ends, and
    kept inside the text. *)
Example TrimSpace_tests :
  TrimSpace ("  a b" +:+ nbsp +:+ " ") = "a b"
  ∧ TrimSpace (nbsp +:+ "x" +:+ nbsp +:+ "y") = "x" +:+ nbsp +:+ "y"
  ∧ TrimSpace (nbsp +:+ " " +:+ nbsp) = ""
  ∧ TrimSpace (String (ascii_of_nat 160) " ") = String (ascii_of_nat 160) "".
Proof. vm_compute. done. Qed.

(** A declared type in mixed case between a line feed and a no-break
    space. *)
Lemma SQLiteTypeToPostgres_insensitive_example :
  SQLiteTypeToPostgres (String (ascii_of_nat 10) "" +:+ "Integer" +:+ nbsp)
  = SQLiteTypeToPostgres "Integer"
  ∧ SQLiteTypeToPostgres (ToLower "Integer") = SQLiteTypeToPostgres "Integer".
Proof.
  destruct (SQLiteTypeToPostgres_insensitive "Integer") as [Hspace Hcase].
  split; [by apply Hspace|]. by apply Hcase.
Defined.

(** A declared type with DATE in it and none of the keywords before. *)
Lemma SQLiteTypeToPostgres_ordered_example :
  isASCII "date" = true ∧ SQLiteTypeToPostgres "date" = "date".
Proof.
  split; [reflexivity|].
  destruct (SQLiteTypeToPostgres_ordered "date") as [Hascii _].
  apply Hascii; [reflexivity| |].
  - by exists "", "date", "".
  - assert (∀ kw, Contains (upper_ascii "date") kw = false →
              upper_ascii kw = kw → ¬ contains_ci "date" kw) as Hno.
    { intros kw Hc Hu Hci. apply (Contains_upper_ascii_ci _ _ Hu) in Hci.
      congruence. }
    unfold before_DATE. repeat (apply Forall_cons; split; [by apply Hno|]).
    by apply Forall_nil.
Defined.

End TypeMapping.
(** ** The transaction monitor (transaction.go, [TransactionMonitor]) *)

Module Monitor.

Local Open Scope Z_scope.

(** [int64] arithmetic: a result is wrapped around into the range. *)
Definition wrap64 (z : Z) : Z := (z + 2 ^ 63) `mod` 2 ^ 64 - 2 ^ 63.

Definition MaxInt64 : Z := 2 ^ 63 - 1.
Definition MinInt64 : Z := - 2 ^ 63.

(** [t.Sub(u)] of package time, instants being nanoseconds on the
    monotonic clock: the difference, kept within the range of a
    [Duration]. *)
Definition Sub (t u : Z) : Z := MinInt64 `max` (MaxInt64 `min` (t - u)).

(** [TransactionContext]. *)
Record TransactionContext := mkContext {
  ConnectionID : string;
  StartTime : Z;
  LastQuery : Z;
  QueryCount : Z;
  InTransaction : bool
}.

(** [TransactionMetrics]; the durations are nanoseconds. *)
Record TransactionMetrics := mkMetrics {
  TotalTransactions : Z;
  CommittedTx : Z;
  RolledBackTx : Z;
  ActiveTx : Z;
  AvgTxDuration : Z;
  LongestTx : Z
}.

(** [TransactionMonitor]. *)
Record TransactionMonitor := mkMonitor {
  transactions : gmap string TransactionContext;
  metrics : TransactionMetrics
}.

(** [NewTransactionMonitor]. *)
Definition NewTransactionMonitor : TransactionMonitor :=
  mkMonitor ∅ (mkMetrics 0 0 0 0 0 0).

(** [StartTransaction]; [now1] and [now2] are the two readings of the
    clock it takes. *)
Definition StartTransaction (tm : TransactionMonitor) (connectionID : string)
    (now1 now2 : Z) : TransactionMonitor :=
  let ctx := mkContext connectionID now1 now2 0 true in
  let m := metrics tm in
  mkMonitor (<[connectionID := ctx]> (transactions tm))
    (mkMetrics (wrap64 (TotalTransactions m + 1)) (CommittedTx m)
       (RolledBackTx m) (wrap64 (ActiveTx m + 1)) (AvgTxDuration m)
       (LongestTx m)).

(** [EndTransaction]; [now] is the clock when [time.Since] reads it. *)
Definition EndTransaction (tm : TransactionMonitor) (connectionID : string)
    (committed : bool) (now : Z) : TransactionMonitor :=
  match transactions tm !! connectionID with
  | None => tm
  | Some ctx =>
      let duration := Sub now (StartTime ctx) in
      let m := metrics tm in
      let committedTx :=
        if committed then wrap64 (CommittedTx m + 1) else CommittedTx m in
      let rolledBackTx :=
        if committed then RolledBackTx m else wrap64 (RolledBackTx m + 1) in
      let activeTx := wrap64 (ActiveTx m - 1) in
      let totalTx := wrap64 (committedTx + rolledBackTx) in
      let avg :=
        if 0 <? totalTx
        then Z.quot
               (wrap64 (wrap64 (AvgTxDuration m * wrap64 (totalTx - 1))
                        + duration))
               totalTx
        else AvgTxDuration m in
      let longest :=
        if LongestTx m <? duration then duration else LongestTx m in
      mkMonitor (delete connectionID (transactions tm))
        (mkMetrics (TotalTransactions m) committedTx rolledBackTx activeTx
           avg longest)
  end.

(** [RecordQuery]. *)
Definition RecordQuery (tm : TransactionMonitor) (connectionID : string)
    (now : Z) : TransactionMonitor :=
  match transactions tm !! connectionID with
  | None => tm
  | Some ctx =>
      mkMonitor
        (<[connectionID :=
             mkContext (ConnectionID ctx) (StartTime ctx) now
               (wrap64 (QueryCount ctx + 1)) (InTransaction ctx)]>
           (transactions tm))
        (metrics tm)
  end.

(** [GetMetrics]: a copy of the counters. *)
Definition GetMetrics (tm : TransactionMonitor) : TransactionMetrics :=
  let m := metrics tm in
  mkMetrics (TotalTransactions m) (CommittedTx m) (RolledBackTx m)
    (ActiveTx m) (AvgTxDuration m) (LongestTx m).

(** [GetActiveTransactions]; Go ranges over the map in an order of its
    own, here the order is that of the map's listing. *)
Definition GetActiveTransactions (tm : TransactionMonitor)
  : list TransactionContext :=
  filter (λ ctx, InTransaction ctx = true) (map_to_list (transactions tm)).*2.

(** [CheckStaleTransactions]. *)
Definition CheckStaleTransactions (tm : TransactionMonitor)
    (maxIdleTime now : Z) : list string :=
  (filter (λ p : string * TransactionContext,
             InTransaction p.2 = true
             ∧ maxIdleTime < Sub now (LastQuery p.2))
     (map_to_list (transactions tm))).*1.

(** What the handler tells the monitor. *)
Inductive MonitorEvent :=
| MStart (connectionID : string) (now1 now2 : Z)
| MEnd (connectionID : string) (committed : bool) (now : Z)
| MQuery (connectionID : string) (now : Z).

Definition monitor_step (tm : TransactionMonitor) (ev : MonitorEvent)
  : TransactionMonitor :=
  match ev with
  | MStart id now1 now2 => StartTransaction tm id now1 now2
  | MEnd id committed now => EndTransaction tm id committed now
  | MQuery id now => RecordQuery tm id now
  end.

Definition monitor_run (tm : TransactionMonitor) (evs : list MonitorEvent)
  : TransactionMonitor :=
  foldl monitor_step tm evs.

(** The durations [EndTransaction] measures along a run: one for each
    end of a transaction the monitor was tracking. *)
Fixpoint durations (tm : TransactionMonitor) (evs : list MonitorEvent)
  : list Z :=
  match evs with
  | [] => []
  | ev :: evs' =>
      match ev with
      | MEnd id _ now =>
          match transactions tm !! id with
          | Some ctx => [Sub now (StartTime ctx)]
          | None => []
          end
      | _ => []
      end ++ durations (monitor_step tm ev) evs'
  end.

(** *** Arithmetic in 64 bits *)

Lemma wrap64_range (z : Z) : MinInt64 ≤ wrap64 z ≤ MaxInt64.
Proof.
  unfold wrap64, MinInt64, MaxInt64.
  pose proof (Z.mod_pos_bound (z + 2 ^ 63) (2 ^ 64) ltac:(lia)). lia.
Qed.

Lemma wrap64_small (z : Z) : MinInt64 ≤ z ≤ MaxInt64 → wrap64 z = z.
Proof.
  unfold wrap64, MinInt64, MaxInt64. intros H.
  rewrite Z.mod_small; lia.
Qed.

Lemma wrap64_add_l (a b : Z) : wrap64 (wrap64 a + b) = wrap64 (a + b).
Proof.
  unfold wrap64.
  replace ((a + 2 ^ 63) `mod` 2 ^ 64 - 2 ^ 63 + b + 2 ^ 63)
    with ((a + 2 ^ 63) `mod` 2 ^ 64 + b) by lia.
  rewrite Z.add_mod_idemp_l by lia. f_equal. f_equal. lia.
Qed.

Lemma wrap64_add_r (a b : Z) : wrap64 (a + wrap64 b) = wrap64 (a + b).
Proof. by rewrite Z.add_comm, wrap64_add_l, Z.add_comm. Qed.

Lemma Sub_range (t u : Z) : MinInt64 ≤ Sub t u ≤ MaxInt64.
Proof. unfold Sub, MinInt64, MaxInt64. lia. Qed.

(** *** Facts about a run of the monitor *)

(** Every context the monitor holds is filed under its own connection
    and is marked as in a transaction. *)
Definition contexts_ok (tm : TransactionMonitor) : Prop :=
  ∀ id ctx, transactions tm !! id = Some ctx →
    ConnectionID ctx = id ∧ InTransaction ctx = true.

Definition balanced (m : TransactionMetrics) : Prop :=
  TotalTransactions m = wrap64 (CommittedTx m + RolledBackTx m + ActiveTx m).

Lemma monitor_step_contexts_ok tm ev :
  contexts_ok tm → contexts_ok (monitor_step tm ev).
Proof.
  intros Hok id ctx. destruct ev as [id' n1 n2|id' c n|id' n]; simpl.
  - unfold StartTransaction; simpl.
    destruct (decide (id' = id)) as [->|Hne].
    + rewrite lookup_insert_eq. by intros [= <-].
    + rewrite lookup_insert_ne by done. apply Hok.
  - unfold EndTransaction.
    destruct (transactions tm !! id') as [ctx'|] eqn:Hl; simpl; [|apply Hok].
    destruct (decide (id' = id)) as [->|Hne].
    + by rewrite lookup_delete_eq.
    + rewrite lookup_delete_ne by done. apply Hok.
  - unfold RecordQuery.
    destruct (transactions tm !! id') as [ctx'|] eqn:Hl; simpl; [|apply Hok].
    destruct (decide (id' = id)) as [->|Hne].
    + rewrite lookup_insert_eq. intros [= <-]. simpl. by apply Hok.
    + rewrite lookup_insert_ne by done. apply Hok.
Qed.

Lemma monitor_run_contexts_ok tm evs :
  contexts_ok tm → contexts_ok (monitor_run tm evs).
Proof.
  unfold monitor_run. revert tm.
  induction evs as [|ev evs IH]; intros tm Hok; simpl; [done|].
  by apply IH, monitor_step_contexts_ok.
Qed.

Lemma monitor_step_balanced tm ev :
  balanced (metrics tm) → balanced (metrics (monitor_step tm ev)).
Proof.
  unfold balanced. intros Hb.
  destruct ev as [id' n1 n2|id' c n|id' n]; simpl.
  - rewrite Hb, wrap64_add_l, wrap64_add_r. f_equal. lia.
  - unfold EndTransaction.
    destruct (transactions tm !! id') as [ctx'|]; simpl; [|done].
    rewrite Hb, wrap64_add_r. destruct c.
    + rewrite <- (Z.add_assoc (wrap64 _)), wrap64_add_l. f_equal. lia.
    + rewrite (Z.add_comm (CommittedTx _) (wrap64 _)),
        <- (Z.add_assoc (wrap64 _)), wrap64_add_l.
      f_equal. lia.
  - unfold RecordQuery. by destruct (transactions tm !! id').
Qed.

Lemma monitor_run_snoc tm evs ev :
  monitor_run tm (evs ++ [ev]) = monitor_step (monitor_run tm evs) ev.
Proof. unfold monitor_run. by rewrite foldl_app. Qed.

Lemma durations_snoc tm evs ev :
  durations tm (evs ++ [ev])
  = durations tm evs ++ durations (monitor_run tm evs) [ev].
Proof.
  revert tm. induction evs as [|e evs IH]; intros tm; simpl.
  - done.
  - by rewrite IH, app_assoc.
Qed.

(** *** The counters add up *)

(** X10. In every state the monitor reaches from a new one, whatever the
    handler reports and in whatever order, the number of transactions
    started is the number committed plus the number rolled back plus the
    number still active, in the 64-bit arithmetic of the counters. *)
Theorem monitor_counters_balance (evs : list MonitorEvent) :
  let m := GetMetrics (monitor_run NewTransactionMonitor evs) in
  TotalTransactions m
  = wrap64 (CommittedTx m + RolledBackTx m + ActiveTx m).
Proof.
  simpl. change (balanced (metrics (monitor_run NewTransactionMonitor evs))).
  induction evs as [|ev evs IH] using rev_ind.
  - reflexivity.
  - rewrite monitor_run_snoc. by apply monitor_step_balanced.
Qed.

(** X11. In every state the monitor reaches, the transactions it lists
    as active are exactly the contexts it holds, one for a connection,
    and the stale ones are exactly the connections whose context saw its
    last query more than the given time ago. *)
Theorem monitor_lists_tracked (evs : list MonitorEvent) :
  let tm := monitor_run NewTransactionMonitor evs in
  (∀ ctx, ctx ∈ GetActiveTransactions tm
          ↔ transactions tm !! ConnectionID ctx = Some ctx)
  ∧ NoDup (ConnectionID <$> GetActiveTransactions tm)
  ∧ (∀ maxIdleTime now id,
       id ∈ CheckStaleTransactions tm maxIdleTime now
       ↔ ∃ ctx, transactions tm !! id = Some ctx
                ∧ maxIdleTime < Sub now (LastQuery ctx)).
Proof.
  intros tm.
  assert (Hok : contexts_ok tm) by (by apply monitor_run_contexts_ok).
  assert (Hall : GetActiveTransactions tm = (map_to_list (transactions tm)).*2).
  { unfold GetActiveTransactions.
    assert (Hin : ∀ ctx, ctx ∈ (map_to_list (transactions tm)).*2
                         → InTransaction ctx = true).
    { intros ctx ([id c] & -> & Hin)%list_elem_of_fmap.
      apply elem_of_map_to_list in Hin. by apply (Hok id). }
    revert Hin. generalize ((map_to_list (transactions tm)).*2).
    intros l. induction l as [|c l IH]; intros Hin; [done|].
    rewrite filter_cons_True by (apply Hin; by left).
    f_equal. apply IH. intros c' Hc'. apply Hin. by right. }
  split; [|split].
  - intros ctx. rewrite Hall. split.
    + intros ([id c] & -> & Hin)%list_elem_of_fmap.
      apply elem_of_map_to_list in Hin. simpl.
      by destruct (Hok _ _ Hin) as [-> _].
    + intros Hl. apply list_elem_of_fmap.
      exists (ConnectionID ctx, ctx). split; [done|].
      by apply elem_of_map_to_list.
  - rewrite Hall.
    assert (Hkeys : ConnectionID <$> (map_to_list (transactions tm)).*2
                    = (map_to_list (transactions tm)).*1).
    { assert (Hin : ∀ p, p ∈ map_to_list (transactions tm)
                         → ConnectionID p.2 = p.1).
      { intros [id c] Hin. apply elem_of_map_to_list in Hin.
        by destruct (Hok _ _ Hin). }
      revert Hin. generalize (map_to_list (transactions tm)).
      intros l. induction l as [|p l IH]; intros Hin; [done|].
      simpl. f_equal; [apply Hin; by left|].
      apply IH. intros p' Hp'. apply Hin. by right. }
    rewrite Hkeys. apply NoDup_fst_map_to_list.
  - intros maxIdleTime now id. unfold CheckStaleTransactions. split.
    + intros ([id' c] & -> & Hin)%list_elem_of_fmap.
      apply list_elem_of_filter in Hin as [[_ Hidle] Hin].
      apply elem_of_map_to_list in Hin. by exists c.
    + intros (c & Hl & Hidle). apply list_elem_of_fmap.
      exists (id, c). split; [done|].
      apply list_elem_of_filter. split.
      * split; [|done]. by apply (Hok id).
      * by apply elem_of_map_to_list.
Qed.

Lemma LongestTx_run (evs : list MonitorEvent) :
  LongestTx (metrics (monitor_run NewTransactionMonitor evs))
  = foldr Z.max 0 (durations NewTransactionMonitor evs).
Proof.
  induction evs as [|ev evs IH] using rev_ind; [done|].
  rewrite monitor_run_snoc, durations_snoc, foldr_app.
  set (tm := monitor_run NewTransactionMonitor evs) in *.
  assert (Hmax : ∀ l a, 0 ≤ a → foldr Z.max a l = Z.max a (foldr Z.max 0 l)).
  { intros l. induction l as [|x l IHl]; intros a Ha; simpl; [lia|].
    rewrite IHl by done. lia. }
  assert (Hpos : 0 ≤ foldr Z.max 0 (durations NewTransactionMonitor evs)).
  { generalize (durations NewTransactionMonitor evs).
    intros l. induction l; simpl; lia. }
  destruct ev as [id n1 n2|id c n|id n]; simpl.
  - by rewrite IH.
  - unfold EndTransaction.
    destruct (transactions tm !! id) as [ctx|]; simpl; [|by rewrite IH].
    rewrite Hmax by lia. rewrite IH.
    case_match; [apply Z.ltb_lt in H|apply Z.ltb_ge in H]; lia.
  - unfold RecordQuery. destruct (transactions tm !! id); simpl; by rewrite IH.
Qed.

(** X12. The longest duration the monitor reports is the largest of the
    durations it measured at the ends of the transactions it tracked, and
    zero when none of them was positive: it is never negative, no measured
    duration exceeds it, and it is zero or one of the measured durations. *)
Theorem monitor_longest_is_max (evs : list MonitorEvent) :
  let longest :=
    LongestTx (GetMetrics (monitor_run NewTransactionMonitor evs)) in
  longest = foldr Z.max 0 (durations NewTransactionMonitor evs)
  ∧ 0 ≤ longest
  ∧ Forall (λ d, d ≤ longest) (durations NewTransactionMonitor evs)
  ∧ (longest = 0 ∨ longest ∈ durations NewTransactionMonitor evs).
Proof.
  intros longest.
  assert (Hl : longest = foldr Z.max 0 (durations NewTransactionMonitor evs))
    by apply LongestTx_run.
  split; [done|]. rewrite Hl. clear Hl longest.
  generalize (durations NewTransactionMonitor evs). intros l.
  induction l as [|d l (Hpos & Hall & Hin)]; simpl.
  { split; [done|]. split; [constructor|by left]. }
  split; [lia|]. split.
  - constructor; [lia|]. eapply Forall_impl; [exact Hall|]. simpl. lia.
  - destruct (Z.max_spec d (foldr Z.max 0 l)) as [[_ ->]|[_ ->]].
    + destruct Hin as [Hz|Hin]; [by left|]. right. by right.
    + right. by left.
Qed.

(** *** The running average *)

Definition sum_list (l : list Z) : Z := foldr Z.add 0 l.

Lemma sum_list_app l1 l2 : sum_list (l1 ++ l2) = sum_list l1 + sum_list l2.
Proof. unfold sum_list. induction l1 as [|x l1 IH]; simpl; lia. Qed.

Lemma max_list_bound (D : Z) (l : list Z) :
  0 ≤ D → Forall (λ d, 0 ≤ d ≤ D) l → 0 ≤ foldr Z.max 0 l ≤ D.
Proof. intros HD. induction 1; simpl; lia. Qed.

Lemma max_list_upper (l : list Z) :
  Forall (λ d, 0 ≤ d) l → Forall (λ d, 0 ≤ d ≤ foldr Z.max 0 l) l.
Proof.
  induction 1 as [|x l Hx Hl IH]; simpl; constructor; [lia|].
  eapply Forall_impl; [exact IH|]. simpl. lia.
Qed.

(** While the sums stay within 63 bits, the average the monitor keeps is
    the truncated mean of the truncated means. *)
Lemma monitor_average_inv (evs : list MonitorEvent) (D : Z) :
  let ds := durations NewTransactionMonitor evs in
  let n := Z.of_nat (length ds) in
  let m := metrics (monitor_run NewTransactionMonitor evs) in
  0 ≤ D → Forall (λ d, 0 ≤ d ≤ D) ds → n ≤ MaxInt64 → n * D ≤ MaxInt64 →
  CommittedTx m + RolledBackTx m = n
  ∧ 0 ≤ CommittedTx m ∧ 0 ≤ RolledBackTx m
  ∧ 0 ≤ AvgTxDuration m ≤ D
  ∧ n * AvgTxDuration m ≤ sum_list ds
  ∧ 2 * (sum_list ds - n * AvgTxDuration m) ≤ n * (n - 1).
Proof.
  simpl. intros HD. induction evs as [|ev evs IH] using rev_ind.
  { intros _ _ _. simpl. unfold sum_list. simpl. lia. }
  rewrite monitor_run_snoc, durations_snoc.
  set (tm := monitor_run NewTransactionMonitor evs) in *.
  set (ds := durations NewTransactionMonitor evs) in *.
  rewrite length_app, Nat2Z.inj_add, sum_list_app.
  intros [Hds Hd]%Forall_app Hn HnD.
  assert (Hlen : 0 ≤ Z.of_nat (length (durations tm [ev]))) by lia.
  destruct IH as (Hsum & HC & HR & HA & Hle & Hge); [done|lia|nia|].
  destruct ev as [id n1 n2|id c now|id now]; simpl in *.
  - change (Z.of_nat 0) with 0. rewrite !Z.add_0_r. done.
  - unfold EndTransaction.
    destruct (transactions tm !! id) as [ctx|] eqn:Hl; simpl in *.
    2:{ change (Z.of_nat 0) with 0. rewrite !Z.add_0_r. done. }
    apply Forall_cons in Hd as [Hd _].
    set (d := Sub now (StartTime ctx)) in *.
    set (n := Z.of_nat (length ds)) in *.
    set (A := AvgTxDuration (metrics tm)) in *.
    change (Z.of_nat 1) with 1 in *. rewrite !(Z.add_0_r d).
    unfold MaxInt64 in *.
    rewrite (wrap64_small (CommittedTx (metrics tm) + 1))
      by (unfold MinInt64, MaxInt64; lia).
    rewrite (wrap64_small (RolledBackTx (metrics tm) + 1))
      by (unfold MinInt64, MaxInt64; lia).
    assert (Htot : (if c then CommittedTx (metrics tm) + 1
                    else CommittedTx (metrics tm))
                   + (if c then RolledBackTx (metrics tm)
                      else RolledBackTx (metrics tm) + 1)
                   = n + 1) by (destruct c; lia).
    rewrite Htot.
    rewrite (wrap64_small (n + 1)) by (unfold MinInt64, MaxInt64; lia).
    assert (Hlt : (0 <? n + 1) = true) by (apply Z.ltb_lt; lia).
    rewrite Hlt.
    replace (n + 1 - 1) with n by lia.
    rewrite (wrap64_small n) by (unfold MinInt64, MaxInt64; lia).
    assert (HAn : 0 ≤ A * n ≤ D * n) by nia.
    assert (HAd : 0 ≤ A * n + d ≤ (n + 1) * D) by nia.
    rewrite (wrap64_small (A * n)) by (unfold MinInt64, MaxInt64; lia).
    rewrite (wrap64_small (A * n + d)) by (unfold MinInt64, MaxInt64; lia).
    rewrite Z.quot_div_nonneg by lia.
    pose proof (Z.div_mod (A * n + d) (n + 1) ltac:(lia)) as Hdm.
    pose proof (Z.mod_pos_bound (A * n + d) (n + 1) ltac:(lia)) as Hmod.
    set (q := (A * n + d) `div` (n + 1)) in *.
    set (r := (A * n + d) `mod` (n + 1)) in *.
    assert (Hq : 0 ≤ q ≤ D) by nia.
    split; [done|].
    split; [destruct c; lia|].
    split; [destruct c; lia|].
    split; [done|]. split; nia.
  - unfold RecordQuery. change (Z.of_nat 0) with 0. rewrite !Z.add_0_r.
    by destruct (transactions tm !! id).
Qed.

(** X13. As long as no transaction lasted longer than [D], none ended
    before it started, and as many times [D] as transactions ended fits
    in 63 bits, the average the monitor reports lies between zero and the
    longest duration, never exceeds the mean of the measured durations,
    and falls short of it by less than half a nanosecond for each ended
    transaction; the committed and rolled-back counters then count the
    ended transactions exactly. *)
Theorem monitor_average_bounded (evs : list MonitorEvent) (D : Z) :
  let ds := durations NewTransactionMonitor evs in
  let n := Z.of_nat (length ds) in
  let m := GetMetrics (monitor_run NewTransactionMonitor evs) in
  1 ≤ D → Forall (λ d, 0 ≤ d ≤ D) ds → n * D ≤ MaxInt64 →
  CommittedTx m + RolledBackTx m = n
  ∧ 0 ≤ AvgTxDuration m ≤ LongestTx m
  ∧ LongestTx m ≤ D
  ∧ n * AvgTxDuration m ≤ sum_list ds
  ∧ 2 * (sum_list ds - n * AvgTxDuration m) ≤ n * (n - 1).
Proof.
  intros ds n m HD Hds HnD.
  assert (Hlong : LongestTx m = foldr Z.max 0 ds) by apply LongestTx_run.
  assert (Hn : 0 ≤ n) by (unfold n; lia).
  pose proof (max_list_bound D ds ltac:(lia) Hds) as HL.
  destruct (monitor_average_inv evs (foldr Z.max 0 ds))
    as (Hsum & _ & _ & HA & Hle & Hge).
  - lia.
  - apply max_list_upper. eapply Forall_impl; [exact Hds|]. simpl. lia.
  - fold ds. fold n. nia.
  - fold ds. fold n. nia.
  - fold ds n in Hsum, HA, Hle, Hge. unfold m, GetMetrics in *. simpl in *.
    rewrite Hlong. repeat split; try done; lia.
Qed.

(** Two transactions, of ten and of fifteen nanoseconds. *)
Lemma monitor_average_bounded_example :
  let evs := [MStart "a" 0 0; MQuery "a" 3; MEnd "a" true 10;
              MStart "b" 5 5; MEnd "b" false 20] in
  let m := GetMetrics (monitor_run NewTransactionMonitor evs) in
  durations NewTransactionMonitor evs = [10; 15]
  ∧ AvgTxDuration m = 12
  ∧ 0 ≤ AvgTxDuration m ≤ LongestTx m.
Proof.
  intros evs m. split; [reflexivity|]. split; [reflexivity|].
  refine (proj1 (proj2 (monitor_average_bounded evs 15 _ _ _))).
  - lia.
  - vm_compute durations. repeat constructor; lia.
  - vm_compute. discriminate.
Defined.

End Monitor.

(** ** The wire handler (wire handler source, [executeQuerySimple]) *)

Module Wire.
Import GoStrings Backend BackendFacts Transaction Monitor TypeMapping.

(** [truncateQuerySimple]: lengths and slices count bytes. *)
Definition truncateQuerySimple (query : string) : string :=
  if 100 <? String.length query
  then String.substring 0 100 query +:+ "..."
  else query.

(** A request: the connection and the text of the query, the clock at
    the up to three readings the monitor takes of it, and what
    [rows.Err()] reports after the rows of a successful query were read. *)
Record Request := mkRequest {
  rq_connection : string;
  rq_query : string;
  rq_now : Z;
  rq_now1 : Z;
  rq_now2 : Z;
  rq_rowsErr : Backend.error
}.

(** Two prefixes of one string: one is a prefix of the other. *)
Lemma HasPrefix_two (s p1 p2 : string) :
  HasPrefix s p1 = true → HasPrefix s p2 = true →
  HasPrefix p1 p2 = true ∨ HasPrefix p2 p1 = true.
Proof.
  revert s p2. induction p1 as [|c p1 IH]; intros s p2 H1 H2.
  { right. by destruct p2. }
  destruct p2 as [|d p2]; [by left|].
  destruct s as [|e s]; [done|]. simpl in *.
  destruct (Ascii.eqb_spec c e) as [->|]; [|done].
  destruct (Ascii.eqb_spec d e) as [->|]; [|done].
  rewrite Ascii.eqb_refl. by eapply IH.
Qed.

Lemma length_substring_0 (n : nat) (s : string) :
  String.length (String.substring 0 n s) = n `min` String.length s.
Proof.
  revert s. induction n as [|n IH]; intros [|c s]; simpl; try done.
  by rewrite IH.
Qed.

Section WithEngine.

Context {tables : Unicode} {ranges : MapRange}.
Context {E : Type} (engine : E → EngineCall → E * Reply).

Abbreviation SimpleWireHandler := (Transaction.SimpleWireHandler (E := E)).
Abbreviation SQLiteBackend := (Backend.SQLiteBackend (E := E)).
Abbreviation TransactionManager := (Transaction.TransactionManager (E := E)).

(** The handler together with the monitor it reports to; the handler's
    own [backend] is the one its manager holds. *)
Record Server := mkServer {
  handler : SimpleWireHandler;
  txMonitor : TransactionMonitor
}.

Definition server_backend (sv : Server) : SQLiteBackend :=
  backend (txManager (handler sv)).

(** The handler after a call to its backend. *)
Definition with_backend (h : SimpleWireHandler) (b : SQLiteBackend)
  : SimpleWireHandler :=
  let tm := txManager h in
  mkHandler (mkTM b (lastUpload tm) (uploadPending tm) (uploadChan tm))
    (log h).

(** [handleBeginSimple], with its report to the monitor. *)
Definition handleBeginSimple_monitored (sv : Server)
    (connectionID query : string)
    (now1 now2 : Z) : Server * Backend.error :=
  let '(h, err) :=
    Transaction.handleBeginSimple engine (handler sv) connectionID query in
  match err with
  | Some _ => (mkServer h (txMonitor sv), err)
  | None =>
      (mkServer h (StartTransaction (txMonitor sv) connectionID now1 now2),
       None)
  end.

(** [handleCommitSimple], with its report to the monitor. *)
Definition handleCommitSimple_monitored (sv : Server) (connectionID : string)
    (now1 : Z) : Server * Backend.error :=
  let '(h, err) :=
    Transaction.handleCommitSimple engine (handler sv) connectionID in
  match err with
  | Some _ => (mkServer h (txMonitor sv), err)
  | None =>
      (mkServer h (EndTransaction (txMonitor sv) connectionID true now1), None)
  end.

(** [handleRollbackSimple], with its report to the monitor. *)
Definition handleRollbackSimple_monitored (sv : Server)
    (connectionID : string)
    (now1 : Z) : Server * Backend.error :=
  let '(h, _) :=
    Transaction.handleRollbackSimple engine (handler sv) connectionID in
  (mkServer h (EndTransaction (txMonitor sv) connectionID false now1), None).

(** [handleSelectSimple]. *)
Definition handleSelectSimple (h : SimpleWireHandler)
    (connectionID query : string) (rowsErr : Backend.error)
  : SimpleWireHandler * Backend.error :=
  let '(b, r) := Query engine (backend (txManager h)) connectionID query [] in
  match r with
  | RErr m => (with_backend h b, Some ("query error: " +:+ m))
  | ROk _ => (with_backend h b, rowsErr)
  end.

(** [handleDMLSimple]. *)
Definition handleDMLSimple (h : SimpleWireHandler)
    (connectionID query : string) : SimpleWireHandler * Backend.error :=
  let '(b, r) := Exec engine (backend (txManager h)) connectionID query [] in
  match r with
  | RErr m => (with_backend h b, Some ("exec error: " +:+ m))
  | ROk _ => (with_backend h b, None)
  end.

(** [handleDDLSimple]. *)
Definition handleDDLSimple (h : SimpleWireHandler)
    (connectionID query : string) : SimpleWireHandler * Backend.error :=
  let '(b, r) := Exec engine (backend (txManager h)) connectionID query [] in
  match r with
  | RErr m => (with_backend h b, Some ("ddl error: " +:+ m))
  | ROk _ => (with_backend h b, None)
  end.

(** [handleGenericSimple]. *)
Definition handleGenericSimple (h : SimpleWireHandler)
    (connectionID query : string) (rowsErr : Backend.error)
  : SimpleWireHandler * Backend.error :=
  let '(b, r) := Query engine (backend (txManager h)) connectionID query [] in
  match r with
  | ROk _ => (with_backend h b, rowsErr)
  | RErr _ =>
      let '(b, r) := Exec engine b connectionID query [] in
      (with_backend h b, reply_error r)
  end.

(** [executeQuerySimple]. *)
Definition executeQuerySimple (sv : Server) (rq : Request)
  : Server * Backend.error :=
  let connectionID := rq_connection rq in
  let query := TrimSpace (rq_query rq) in
  if String.eqb query "" then (sv, None)
  else
    let h :=
      mkHandler (txManager (handler sv))
        (log (handler sv)
         ++ ["DEBUG: Executing query for connection " +:+ connectionID
             +:+ ": " +:+ truncateQuerySimple query]) in
    let sv :=
      mkServer h (RecordQuery (txMonitor sv) connectionID (rq_now rq)) in
    let upperQuery := ToUpper query in
    let plain (r : SimpleWireHandler * Backend.error) :=
      (mkServer r.1 (txMonitor sv), r.2) in
    if HasPrefix upperQuery "BEGIN"
    then handleBeginSimple_monitored sv connectionID query (rq_now1 rq)
           (rq_now2 rq)
    else if HasPrefix upperQuery "COMMIT"
    then handleCommitSimple_monitored sv connectionID (rq_now1 rq)
    else if HasPrefix upperQuery "ROLLBACK"
    then handleRollbackSimple_monitored sv connectionID (rq_now1 rq)
    else if HasPrefix upperQuery "SELECT"
    then plain (handleSelectSimple h connectionID query (rq_rowsErr rq))
    else if HasPrefix upperQuery "INSERT" || HasPrefix upperQuery "UPDATE"
            || HasPrefix upperQuery "DELETE"
    then plain (handleDMLSimple h connectionID query)
    else if HasPrefix upperQuery "CREATE" || HasPrefix upperQuery "DROP"
            || HasPrefix upperQuery "ALTER"
    then plain (handleDDLSimple h connectionID query)
    else plain (handleGenericSimple h connectionID query (rq_rowsErr rq)).

(** What happens to the server: a request of a client, or a wake-up of
    the upload worker. *)
Inductive ServerEvent :=
| SvRequest (rq : Request)
| SvWorker (ev : Event).

Definition server_step (sv : Server) (ev : ServerEvent) : Server :=
  match ev with
  | SvRequest rq => (executeQuerySimple sv rq).1
  | SvWorker ev =>
      mkServer
        (mkHandler (worker_step (txManager (handler sv)) ev)
           (log (handler sv)))
        (txMonitor sv)
  end.

Definition server_run (sv : Server) (evs : list ServerEvent) : Server :=
  foldl server_step sv evs.

(** The server [main] sets up. *)
Definition new_server (db0 : E) (mode0 : string) : Server :=
  mkServer
    (mkHandler (NewTransactionManager (NewSQLiteBackend db0 mode0)) [])
    NewTransactionMonitor.

(** *** The backend under the requests *)

Lemma status_of_lookup (b b' : SQLiteBackend) (id : string) :
  connections b' !! id = connections b !! id →
  status_of b' id = status_of b id.
Proof. unfold status_of. by intros ->. Qed.

Lemma Query_status (b : SQLiteBackend) (id q : string) (args : list string)
    (id' : string) :
  status_of (Query engine b id q args).1 id' = status_of b id'.
Proof.
  unfold Query. destruct (GetOrCreateConnection b id) as [b1 conn] eqn:Hg.
  destruct (status_of_GetOrCreateConnection _ _ _ id' _ Hg) as (<- & _).
  destruct (active_tx conn); apply status_of_same, call_connections.
Qed.

Lemma Exec_status (b : SQLiteBackend) (id q : string) (args : list string)
    (id' : string) :
  status_of (Exec engine b id q args).1 id' = status_of b id'.
Proof.
  unfold Exec. destruct (GetOrCreateConnection b id) as [b1 conn] eqn:Hg.
  destruct (status_of_GetOrCreateConnection _ _ _ id' _ Hg) as (<- & _).
  destruct (active_tx conn); apply status_of_same, call_connections.
Qed.

Lemma worker_step_backend (tm : TransactionManager) (ev : Event) :
  backend (worker_step tm ev) = backend tm.
Proof.
  destruct ev as [| | | |upload now|shouldSync upload now]; simpl; try done.
  - destruct (chan_buf (uploadChan tm)); [done|]. by destruct upload.
  - destruct (uploadPending tm || shouldSync); [|done]. by destruct upload.
Qed.

(** *** The monitor under the requests *)

Lemma RecordQuery_tracked (mon : TransactionMonitor) (id : string) (now : Z)
    (id' : string) :
  is_Some (transactions (RecordQuery mon id now) !! id')
  ↔ is_Some (transactions mon !! id').
Proof.
  unfold RecordQuery. destruct (transactions mon !! id) as [ctx|] eqn:Hl;
    [|done]. simpl.
  destruct (decide (id = id')) as [<-|Hne].
  - rewrite lookup_insert_eq, Hl. split; eauto.
  - by rewrite lookup_insert_ne.
Qed.

Lemma RecordQuery_size (mon : TransactionMonitor) (id : string) (now : Z) :
  size (transactions (RecordQuery mon id now)) = size (transactions mon).
Proof.
  unfold RecordQuery. destruct (transactions mon !! id) as [ctx|] eqn:Hl;
    [|done]. simpl.
  apply map_size_insert_Some. by rewrite Hl.
Qed.

Lemma RecordQuery_metrics (mon : TransactionMonitor) (id : string) (now : Z) :
  metrics (RecordQuery mon id now) = metrics mon.
Proof. unfold RecordQuery. by destruct (transactions mon !! id). Qed.

(** The monitor and the backend agree: a connection the monitor tracks
    holds a transaction, and the active counter counts the tracked
    connections. *)
Record server_ok (sv : Server) : Prop := mkServerOk {
  sv_backend_ok : backend_ok (server_backend sv);
  sv_tracked : ∀ id, is_Some (transactions (txMonitor sv) !! id) →
    status_of (server_backend sv) id ≠ TxIdle;
  sv_active : ActiveTx (metrics (txMonitor sv))
              = wrap64 (Z.of_nat (size (transactions (txMonitor sv))))
}.

Lemma server_ok_quiet (b b' : SQLiteBackend) (h h' : SimpleWireHandler)
    (mon : TransactionMonitor) (id : string) (now : Z) :
  backend (txManager h) = b → backend (txManager h') = b' →
  backend_ok b' → (∀ id', status_of b' id' = status_of b id') →
  server_ok (mkServer h mon) →
  server_ok (mkServer h' (RecordQuery mon id now)).
Proof.
  intros Hb Hb' Hok' Hst [Hok Htr Hact]. unfold server_backend in *.
  simpl in *. subst b b'. split; unfold server_backend; simpl.
  - done.
  - intros id' Hs%RecordQuery_tracked. rewrite Hst. by apply Htr.
  - by rewrite RecordQuery_metrics, RecordQuery_size.
Qed.

Lemma EndTransaction_ok (b b' : SQLiteBackend) (h h' : SimpleWireHandler)
    (mon : TransactionMonitor) (id : string) (committed : bool) (now : Z) :
  backend (txManager h) = b → backend (txManager h') = b' →
  backend_ok b' →
  (∀ id', id ≠ id' → status_of b' id' = status_of b id') →
  server_ok (mkServer h mon) →
  server_ok (mkServer h' (EndTransaction mon id committed now)).
Proof.
  intros Hb Hb' Hok' Hst [Hok Htr Hact]. unfold server_backend in *.
  simpl in *. subst b b'. unfold EndTransaction.
  destruct (transactions mon !! id) as [ctx|] eqn:Hl;
    split; unfold server_backend; simpl; try done.
  - intros id' Hs. destruct (decide (id = id')) as [<-|Hne].
    + rewrite lookup_delete_eq in Hs. by destruct Hs.
    + rewrite lookup_delete_ne in Hs by done. rewrite Hst by done.
      by apply Htr.
  - rewrite Hact, map_size_delete_Some by (by rewrite Hl).
    assert (size (transactions mon) ≠ 0) as Hne.
    { intros Hz%map_size_empty_inv. by rewrite Hz in Hl. }
    rewrite <- Z.add_opp_r, wrap64_add_l. f_equal. lia.
  - intros id' Hs. destruct (decide (id = id')) as [<-|Hne].
    + rewrite Hl in Hs. by destruct Hs.
    + rewrite Hst by done. by apply Htr.
Qed.

Lemma executeQuerySimple_ok (sv : Server) (rq : Request) :
  server_ok sv → server_ok (executeQuerySimple sv rq).1.
Proof.
  intros Hsv. destruct sv as [[tm lg0] mon]. unfold executeQuerySimple.
  cbn [handler txManager log txMonitor].
  destruct (String.eqb (TrimSpace (rq_query rq)) ""); [done|].
  set (id := rq_connection rq). set (q := TrimSpace (rq_query rq)).
  set (lg := lg0 ++ _).
  set (mon1 := RecordQuery mon id (rq_now rq)).
  assert (Hsv1 : server_ok (mkServer (mkHandler tm lg) mon1)).
  { eapply (server_ok_quiet (backend tm) (backend tm) (mkHandler tm lg0));
      [done|done| |done|exact Hsv]. apply Hsv. }
  pose proof (sv_backend_ok _ Hsv) as Hok. unfold server_backend in Hok.
  simpl in Hok.
  assert (Hq : ∀ rowsErr,
            server_ok (mkServer
              (handleSelectSimple (mkHandler tm lg) id q rowsErr).1 mon1)).
  { intros rowsErr. unfold handleSelectSimple. simpl.
    destruct (Query engine (backend tm) id q []) as [b r] eqn:HQ.
    assert (Hb : b = (Query engine (backend tm) id q []).1) by (by rewrite HQ).
    assert (server_ok (mkServer (with_backend (mkHandler tm lg) b) mon1)).
    { eapply (server_ok_quiet (backend tm) b (mkHandler tm lg0));
        [done|done| | |exact Hsv].
      - subst b. apply (apply_op_ok engine _ (OpQuery id q []) Hok).
      - intros id'. subst b. apply Query_status. }
    by destruct r. }
  assert (He : ∀ b r, Exec engine (backend tm) id q [] = (b, r) →
            server_ok (mkServer (with_backend (mkHandler tm lg) b) mon1)).
  { intros b r HE.
    assert (Hb : b = (Exec engine (backend tm) id q []).1) by (by rewrite HE).
    eapply (server_ok_quiet (backend tm) b (mkHandler tm lg0));
      [done|done| | |exact Hsv].
    - subst b. apply (apply_op_ok engine _ (OpExec id q []) Hok).
    - intros id'. subst b. apply Exec_status. }
  destruct (HasPrefix (ToUpper q) "BEGIN");
    [|destruct (HasPrefix (ToUpper q) "COMMIT");
      [|destruct (HasPrefix (ToUpper q) "ROLLBACK");
        [|destruct (HasPrefix (ToUpper q) "SELECT");
          [|destruct (HasPrefix (ToUpper q) "INSERT"
                      || HasPrefix (ToUpper q) "UPDATE"
                      || HasPrefix (ToUpper q) "DELETE");
            [|destruct (HasPrefix (ToUpper q) "CREATE"
                        || HasPrefix (ToUpper q) "DROP"
                        || HasPrefix (ToUpper q) "ALTER")]]]]]; simpl.
  - (* BEGIN *)
    unfold handleBeginSimple_monitored, Transaction.handleBeginSimple, Begin. simpl.
    destruct (BeginTransaction engine (backend tm) id (begin_mode q))
      as [b err] eqn:HB.
    assert (Hb : b = apply_op engine (backend tm) (OpBegin id (begin_mode q)))
      by (simpl; by rewrite HB).
    assert (Hokb : backend_ok b) by (subst b; by apply apply_op_ok).
    assert (Hother : ∀ id', id ≠ id' →
              status_of b id' = status_of (backend tm) id').
    { intros id' Hne. apply status_of_lookup. subst b.
      by apply apply_op_other. }
    destruct (decide (status_of (backend tm) id = TxIdle)) as [Hidle|Hheld].
    + pose proof (BeginTransaction_idle engine _ _ _ _ _ Hidle HB) as Hst.
      assert (Hun : transactions mon1 !! id = None).
      { destruct (transactions mon1 !! id) eqn:Hl; [|done].
        destruct (sv_tracked _ Hsv1 id); [simpl; by rewrite Hl|exact Hidle]. }
      destruct err as [m|]; simpl.
      * split; unfold server_backend; simpl; [done| |apply Hsv1].
        intros id' Hs. destruct (decide (id = id')) as [<-|Hne].
        -- rewrite Hun in Hs. by destruct Hs.
        -- rewrite Hother by done. by apply (sv_tracked _ Hsv1).
      * split; unfold server_backend; simpl; [done| |].
        -- intros id' Hs. destruct (decide (id = id')) as [<-|Hne].
           ++ by rewrite Hst.
           ++ rewrite lookup_insert_ne in Hs by done.
              rewrite Hother by done. by apply (sv_tracked _ Hsv1).
        -- rewrite map_size_insert_None by done.
           pose proof (sv_active _ Hsv1) as Hact. simpl in Hact.
           rewrite Hact, wrap64_add_l. f_equal. lia.
    + rewrite (BeginTransaction_active engine _ _ _ Hok Hheld) in HB.
      injection HB as <- <-. simpl. clear -Hsv1. by destruct tm.
  - (* COMMIT *)
    unfold handleCommitSimple_monitored, Transaction.handleCommitSimple, Commit. simpl.
    destruct (CommitTransaction engine (backend tm) id) as [b err] eqn:HC.
    assert (Hb : b = apply_op engine (backend tm) (OpCommit id))
      by (simpl; by rewrite HC).
    assert (Hokb : backend_ok b) by (subst b; by apply apply_op_ok).
    assert (Hother : ∀ id', id ≠ id' →
              status_of b id' = status_of (backend tm) id').
    { intros id' Hne. apply status_of_lookup. subst b.
      by apply apply_op_other. }
    destruct err as [m|]; simpl.
    + split; unfold server_backend; simpl; [done| |apply Hsv1].
      intros id' Hs. destruct (decide (id = id')) as [<-|Hne].
      * pose proof (sv_tracked _ Hsv1 id Hs) as Hheld.
        unfold server_backend in Hheld. simpl in Hheld.
        destruct (CommitTransaction_held engine _ _ Hok Hheld)
          as (tx & r & b2 & _ & HC2 & _ & Hst).
        rewrite HC in HC2. destruct r as [v|m']; [discriminate HC2|].
        injection HC2 as <- _. by rewrite Hst.
      * rewrite Hother by done. by apply (sv_tracked _ Hsv1).
    + eapply (EndTransaction_ok (backend tm) b (mkHandler tm lg));
        [done|done|done|done|exact Hsv1].
  - (* ROLLBACK *)
    unfold handleRollbackSimple_monitored, Transaction.handleRollbackSimple, Rollback.
    simpl.
    destruct (RollbackTransaction engine (backend tm) id) as [b err] eqn:HR.
    assert (Hb : b = apply_op engine (backend tm) (OpRollback id))
      by (simpl; by rewrite HR).
    assert (Hokb : backend_ok b) by (subst b; by apply apply_op_ok).
    assert (Hother : ∀ id', id ≠ id' →
              status_of b id' = status_of (backend tm) id').
    { intros id' Hne. apply status_of_lookup. subst b.
      by apply apply_op_other. }
    destruct err as [m|]; simpl;
      eapply (EndTransaction_ok (backend tm) b (mkHandler tm lg));
      try done; exact Hsv1.
  - apply Hq.
  - unfold handleDMLSimple. simpl.
    destruct (Exec engine (backend tm) id q []) as [b r] eqn:HE.
    destruct r; simpl; by eapply He.
  - unfold handleDDLSimple. simpl.
    destruct (Exec engine (backend tm) id q []) as [b r] eqn:HE.
    destruct r; simpl; by eapply He.
  - unfold handleGenericSimple. simpl.
    destruct (Query engine (backend tm) id q []) as [b r] eqn:HQ.
    assert (Hb : b = (Query engine (backend tm) id q []).1) by (by rewrite HQ).
    assert (Hokb : backend_ok b).
    { subst b. apply (apply_op_ok engine _ (OpQuery id q []) Hok). }
    destruct r as [v|m]; simpl.
    + eapply (server_ok_quiet (backend tm) b (mkHandler tm lg0));
        [done|done|done| |exact Hsv].
      intros id'. subst b. apply Query_status.
    + destruct (Exec engine b id q []) as [b2 r2] eqn:HE. simpl.
      assert (Hb2 : b2 = (Exec engine b id q []).1) by (by rewrite HE).
      eapply (server_ok_quiet (backend tm) b2 (mkHandler tm lg0));
        [done|done| | |exact Hsv].
      * subst b2. apply (apply_op_ok engine _ (OpExec id q []) Hokb).
      * intros id'. subst b2. rewrite Exec_status. subst b.
        apply Query_status.
Qed.

Lemma server_step_ok (sv : Server) (ev : ServerEvent) :
  server_ok sv → server_ok (server_step sv ev).
Proof.
  destruct ev as [rq|ev]; simpl; [apply executeQuerySimple_ok|].
  intros [Hok Htr Hact]. split; unfold server_backend in *; simpl;
    rewrite ?worker_step_backend; done.
Qed.

Lemma server_run_ok (sv : Server) (evs : list ServerEvent) :
  server_ok sv → server_ok (server_run sv evs).
Proof.
  unfold server_run. revert sv.
  induction evs as [|ev evs IH]; intros sv Hsv; simpl; [done|].
  by apply IH, server_step_ok.
Qed.

Lemma executeQuerySimple_monitor (sv : Server) (rq : Request) :
  ∃ mevs, txMonitor (executeQuerySimple sv rq).1
          = monitor_run (txMonitor sv) mevs.
Proof.
  unfold executeQuerySimple.
  destruct (String.eqb (TrimSpace (rq_query rq)) ""); [by exists []|].
  set (id := rq_connection rq). set (q := TrimSpace (rq_query rq)).
  destruct (HasPrefix (ToUpper q) "BEGIN");
    [|destruct (HasPrefix (ToUpper q) "COMMIT");
      [|destruct (HasPrefix (ToUpper q) "ROLLBACK");
        [|exists [MQuery id (rq_now rq)]; by repeat case_match]]].
  - unfold handleBeginSimple_monitored.
    destruct (Transaction.handleBeginSimple _ _ _ _) as [h [m|]].
    + by exists [MQuery id (rq_now rq)].
    + by exists [MQuery id (rq_now rq); MStart id (rq_now1 rq) (rq_now2 rq)].
  - unfold handleCommitSimple_monitored.
    destruct (Transaction.handleCommitSimple _ _ _) as [h [m|]].
    + by exists [MQuery id (rq_now rq)].
    + by exists [MQuery id (rq_now rq); MEnd id true (rq_now1 rq)].
  - unfold handleRollbackSimple_monitored.
    destruct (Transaction.handleRollbackSimple _ _ _) as [h err].
    by exists [MQuery id (rq_now rq); MEnd id false (rq_now1 rq)].
Qed.

Lemma server_run_monitor (sv : Server) (evs : list ServerEvent) :
  ∃ mevs, txMonitor (server_run sv evs) = monitor_run (txMonitor sv) mevs.
Proof.
  unfold server_run. revert sv.
  induction evs as [|ev evs IH]; intros sv; simpl; [by exists []|].
  destruct (IH (server_step sv ev)) as [mevs2 ->].
  destruct ev as [rq|ev]; simpl.
  - destruct (executeQuerySimple_monitor sv rq) as [mevs1 ->].
    exists (mevs1 ++ mevs2). unfold monitor_run. by rewrite foldl_app.
  - by exists mevs2.
Qed.

Lemma new_server_ok (db0 : E) (mode0 : string) :
  server_ok (new_server db0 mode0).
Proof.
  split; unfold server_backend; simpl.
  - apply NewSQLiteBackend_ok.
  - intros id [ctx Hl]. by rewrite lookup_empty in Hl.
  - done.
Qed.

(** X14. In every state the server reaches by requests and wake-ups of
    the upload worker, the monitor has been driven by its three calls
    only, every connection it tracks holds a transaction in the backend,
    and its active counter is the number of connections it tracks, which
    is the number of transactions it lists as active. *)
Theorem monitor_agrees_with_backend (db0 : E) (mode0 : string)
    (evs : list ServerEvent) :
  let sv := server_run (new_server db0 mode0) evs in
  let mon := txMonitor sv in
  (∃ mevs, mon = monitor_run NewTransactionMonitor mevs)
  ∧ (∀ id, is_Some (transactions mon !! id) →
       status_of (server_backend sv) id ≠ TxIdle
       ∧ is_Some (tx_of (server_backend sv) id))
  ∧ ActiveTx (GetMetrics mon) = wrap64 (Z.of_nat (size (transactions mon)))
  ∧ length (GetActiveTransactions mon) = size (transactions mon).
Proof.
  intros sv mon.
  pose proof (server_run_ok _ evs (new_server_ok db0 mode0)) as Hsv.
  fold sv in Hsv.
  destruct (server_run_monitor (new_server db0 mode0) evs) as [mevs Hm].
  fold sv in Hm. simpl in Hm. fold mon in Hm.
  split; [by exists mevs|]. split; [|split].
  - intros id Hs. pose proof (sv_tracked _ Hsv id Hs) as Hst.
    split; [done|].
    destruct (not_idle_holds_tx _ _ (sv_backend_ok _ Hsv) Hst)
      as (conn & tx & Hl & Hin & Htx).
    exists tx. unfold tx_of, active_tx. rewrite Hl. simpl. by rewrite Hin.
  - apply (sv_active _ Hsv).
  - assert (Hok : contexts_ok mon).
    { rewrite Hm. apply monitor_run_contexts_ok. intros id ctx Hl.
      simpl in Hl. by rewrite lookup_empty in Hl. }
    unfold GetActiveTransactions.
    rewrite <- (length_map_to_list (transactions mon)).
    rewrite <- (length_fmap snd (map_to_list (transactions mon))).
    f_equal.
    assert (Hin : ∀ ctx, ctx ∈ (map_to_list (transactions mon)).*2
                         → InTransaction ctx = true).
    { intros ctx ([id c] & -> & Hin)%list_elem_of_fmap.
      apply elem_of_map_to_list in Hin. by apply (Hok id). }
    revert Hin. generalize ((map_to_list (transactions mon)).*2).
    intros l. induction l as [|c l IH]; intros Hin; [done|].
    rewrite filter_cons_True by (apply Hin; by left).
    f_equal. apply IH. intros c' Hc'. apply Hin. by right.
Qed.

(** The tests of the switch other than the one that holds are false. *)
Ltac others_false u H :=
  repeat match goal with
         | |- context [HasPrefix u ?kw] =>
             lazymatch goal with
             | H' : HasPrefix u kw = _ |- _ => rewrite H'
             | _ =>
                 let H2 := fresh "Hkw" in
                 destruct (HasPrefix u kw) eqn:H2;
                 [destruct (HasPrefix_two _ _ _ H H2); discriminate|]
             end
         end.

(** X15. A request is dispatched on the keyword its text starts with,
    once trimmed of white space and put in upper case as Go does both, and
    on nothing else of the text: BEGIN, COMMIT and ROLLBACK go to the transaction calls of the
    backend (the mode of a BEGIN being read off the trimmed text), SELECT
    to [Query], INSERT, UPDATE, DELETE, CREATE, DROP and ALTER to [Exec],
    with the trimmed text and no arguments.  Any other text that is not
    blank is sent to [Query] and, when the engine refuses it, sent again
    to [Exec], whose error is returned as it is.  The errors of the other
    calls are wrapped, except that a ROLLBACK returns none. *)
Theorem dispatch_by_leading_keyword (sv : Server) (rq : Request) :
  let id := rq_connection rq in
  let q := TrimSpace (rq_query rq) in
  let u := ToUpper q in
  let b := server_backend sv in
  let res := executeQuerySimple sv rq in
  let b' := server_backend res.1 in
  let wrapped (pre : string) (err : Backend.error) : Backend.error :=
    (λ m, pre +:+ m) <$> err in
  (HasPrefix u "BEGIN" = true →
     b' = (BeginTransaction engine b id (begin_mode q)).1
     ∧ res.2 = wrapped "failed to begin transaction: "
                 (BeginTransaction engine b id (begin_mode q)).2)
  ∧ (HasPrefix u "COMMIT" = true →
     b' = (CommitTransaction engine b id).1
     ∧ res.2 = wrapped "failed to commit transaction: "
                 (CommitTransaction engine b id).2)
  ∧ (HasPrefix u "ROLLBACK" = true →
     b' = (RollbackTransaction engine b id).1 ∧ res.2 = None)
  ∧ (HasPrefix u "SELECT" = true →
     b' = (Query engine b id q []).1
     ∧ res.2 = match (Query engine b id q []).2 with
               | RErr m => Some ("query error: " +:+ m)
               | ROk _ => rq_rowsErr rq
               end)
  ∧ (HasPrefix u "INSERT" = true ∨ HasPrefix u "UPDATE" = true
     ∨ HasPrefix u "DELETE" = true →
     b' = (Exec engine b id q []).1
     ∧ res.2 = wrapped "exec error: "
                 (reply_error (Exec engine b id q []).2))
  ∧ (HasPrefix u "CREATE" = true ∨ HasPrefix u "DROP" = true
     ∨ HasPrefix u "ALTER" = true →
     b' = (Exec engine b id q []).1
     ∧ res.2 = wrapped "ddl error: "
                 (reply_error (Exec engine b id q []).2))
  ∧ (q ≠ "" →
     Forall (λ kw, HasPrefix u kw = false)
       ["BEGIN"; "COMMIT"; "ROLLBACK"; "SELECT"; "INSERT"; "UPDATE";
        "DELETE"; "CREATE"; "DROP"; "ALTER"] →
     let b1 := (Query engine b id q []).1 in
     match (Query engine b id q []).2 with
     | ROk _ => b' = b1 ∧ res.2 = rq_rowsErr rq
     | RErr _ =>
         b' = (Exec engine b1 id q []).1
         ∧ res.2 = reply_error (Exec engine b1 id q []).2
     end).
Proof.
  intros id q u b res b' wrapped. unfold b', res, executeQuerySimple.
  fold id q u. unfold server_backend in *.
  destruct (String.eqb_spec q "") as [Hq|Hq].
  { assert (Hu : u = "") by (unfold u; by rewrite Hq).
    rewrite Hu. simpl. repeat apply conj; try done; by intros [?|[?|?]]. }
  destruct sv as [[tm lg0] mon]. cbn [handler txManager log txMonitor] in *.
  set (lg := lg0 ++ _).
  repeat apply conj.
  - intros H. rewrite H.
    unfold handleBeginSimple_monitored, Transaction.handleBeginSimple, Begin. simpl.
    fold b. by destruct (BeginTransaction engine b id (begin_mode q))
      as [b1 [m|]].
  - intros H. others_false u H.
    unfold handleCommitSimple_monitored, Transaction.handleCommitSimple, Commit. simpl.
    fold b. by destruct (CommitTransaction engine b id) as [b1 [m|]].
  - intros H. others_false u H.
    unfold handleRollbackSimple_monitored, Transaction.handleRollbackSimple, Rollback.
    simpl. fold b. by destruct (RollbackTransaction engine b id) as [b1 [m|]].
  - intros H. others_false u H. unfold handleSelectSimple. simpl. fold b.
    by destruct (Query engine b id q []) as [b1 [v|m]].
  - intros [H|[H|H]]; others_false u H; rewrite ?orb_true_r;
      unfold handleDMLSimple; simpl; fold b;
      by destruct (Exec engine b id q []) as [b1 [v|m]].
  - intros [H|[H|H]]; others_false u H; rewrite ?orb_true_r;
      unfold handleDDLSimple; simpl; fold b;
      by destruct (Exec engine b id q []) as [b1 [v|m]].
  - intros _ Hnone.
    repeat match goal with
           | H : Forall _ (_ :: _) |- _ =>
               apply Forall_cons in H as [? H]
           end.
    repeat match goal with
           | H : HasPrefix u _ = false |- _ => rewrite H; clear H
           end.
    unfold handleGenericSimple. simpl. fold b.
    destruct (Query engine b id q []) as [b1 [v|m]]; simpl; [done|].
    by destruct (Exec engine b1 id q []) as [b2 r].
Qed.

(** X16. Only a COMMIT request that succeeds flags an upload, a COMMIT
    request being one whose text, trimmed and in upper case, starts with
    COMMIT: every
    other request, an INSERT outside a transaction among them, leaves the
    pending flag and the signal channel of the manager as they were; and
    no request touches the time of the last upload. *)
Theorem only_commit_flags_upload (sv : Server) (rq : Request) :
  let u := ToUpper (TrimSpace (rq_query rq)) in
  let res := executeQuerySimple sv rq in
  let tm := txManager (handler sv) in
  let tm' := txManager (handler res.1) in
  lastUpload tm' = lastUpload tm
  ∧ (HasPrefix u "COMMIT" = true ∧ res.2 = None →
     uploadPending tm' = true
     ∧ uploadChan tm' = try_send (uploadChan tm) true)
  ∧ (¬ (HasPrefix u "COMMIT" = true ∧ res.2 = None) →
     uploadPending tm' = uploadPending tm ∧ uploadChan tm' = uploadChan tm).
Proof.
  intros u res tm tm'. unfold tm', res, executeQuerySimple.
  set (id := rq_connection rq). set (q := TrimSpace (rq_query rq)).
  fold q in u. fold u.
  destruct (String.eqb_spec q "") as [Hq|Hq].
  { assert (Hu : u = "") by (unfold u; by rewrite Hq).
    rewrite Hu. simpl. repeat apply conj; [done|by intros [? _]|done]. }
  destruct sv as [[tm0 lg0] mon]. cbn [handler txManager log txMonitor] in *.
  set (lg := lg0 ++ _).
  destruct (HasPrefix u "BEGIN") eqn:HB.
  { assert (HC : HasPrefix u "COMMIT" = false).
    { destruct (HasPrefix u "COMMIT") eqn:HC; [|done].
      destruct (HasPrefix_two _ _ _ HB HC); discriminate. }
    rewrite HC.
    unfold handleBeginSimple_monitored, Transaction.handleBeginSimple, Begin. simpl.
    destruct (BeginTransaction engine (backend tm0) id (begin_mode q))
      as [b1 [m|]]; simpl;
      (repeat apply conj; [done|by intros [? _]|done]). }
  destruct (HasPrefix u "COMMIT") eqn:HC.
  { unfold handleCommitSimple_monitored, Transaction.handleCommitSimple, Commit. simpl.
    destruct (CommitTransaction engine (backend tm0) id) as [b1 [m|]];
      simpl; repeat apply conj; try done.
    - by intros [_ ?].
    - intros Hn. by destruct Hn. }
  destruct (HasPrefix u "ROLLBACK").
  { unfold handleRollbackSimple_monitored, Transaction.handleRollbackSimple, Rollback.
    simpl.
    destruct (RollbackTransaction engine (backend tm0) id) as [b1 [m|]];
      simpl; (repeat apply conj; [done|by intros [? _]|done]). }
  destruct (HasPrefix u "SELECT").
  { unfold handleSelectSimple. simpl.
    destruct (Query engine (backend tm0) id q []) as [b1 [v|m]];
      simpl; (repeat apply conj; [done|by intros [? _]|done]). }
  destruct (HasPrefix u "INSERT" || HasPrefix u "UPDATE"
            || HasPrefix u "DELETE").
  { unfold handleDMLSimple. simpl.
    destruct (Exec engine (backend tm0) id q []) as [b1 [v|m]];
      simpl; (repeat apply conj; [done|by intros [? _]|done]). }
  destruct (HasPrefix u "CREATE" || HasPrefix u "DROP"
            || HasPrefix u "ALTER").
  { unfold handleDDLSimple. simpl.
    destruct (Exec engine (backend tm0) id q []) as [b1 [v|m]];
      simpl; (repeat apply conj; [done|by intros [? _]|done]). }
  unfold handleGenericSimple. simpl.
  destruct (Query engine (backend tm0) id q []) as [b1 [v|m]]; simpl.
  - repeat apply conj; [done|by intros [? _]|done].
  - destruct (Exec engine b1 id q []) as [b2 r]; simpl.
    repeat apply conj; [done|by intros [? _]|done].
Qed.

(** X17. A request whose text is white space only, of ASCII or of
    Unicode, does nothing at all and returns no error.  Any other request
    logs one line with the connection and
    the trimmed text, cut after a hundred bytes and then marked with three
    dots, so the text shown has at most 103 bytes (and a text of 101 or
    102 bytes is shown longer than it is); the only other line a request
    can log is the warning of a ROLLBACK whose backend call failed. *)
Theorem request_logging (sv : Server) (rq : Request) :
  let id := rq_connection rq in
  let q := TrimSpace (rq_query rq) in
  let res := executeQuerySimple sv rq in
  (blank (rq_query rq) = true → res = (sv, None))
  ∧ (blank (rq_query rq) = false →
     ∃ rest,
       log (handler res.1)
       = log (handler sv)
         ++ ("DEBUG: Executing query for connection " +:+ id +:+ ": "
             +:+ truncateQuerySimple q) :: rest
       ∧ (rest = []
          ∨ HasPrefix (ToUpper q) "ROLLBACK" = true
            ∧ ∃ m, (RollbackTransaction engine (server_backend sv) id).2
                   = Some m
                   ∧ rest = ["WARN: Rollback error for connection " +:+ id
                             +:+ ": " +:+ m]))
  ∧ String.length (truncateQuerySimple q)
    = (if 100 <? String.length q then 103 else String.length q)
  ∧ HasPrefix q (String.substring 0 100 (truncateQuerySimple q)) = true.
Proof.
  intros id q res. split; [|split; [|split]].
  - intros Hb. unfold res, executeQuerySimple.
    apply TrimSpace_empty in Hb. by rewrite Hb.
  - intros Hb. unfold res, executeQuerySimple. fold id q.
    destruct (String.eqb_spec q "") as [Hq|Hq].
    { apply TrimSpace_empty in Hq. congruence. }
    destruct sv as [[tm0 lg0] mon]. unfold server_backend.
    cbn [handler txManager log txMonitor] in *.
    set (line := "DEBUG: Executing query for connection " +:+ _).
    destruct (HasPrefix (ToUpper q) "BEGIN") eqn:HB.
    { exists []. split; [|by left].
      unfold handleBeginSimple_monitored, Transaction.handleBeginSimple, Begin. simpl.
      by destruct (BeginTransaction engine (backend tm0) id (begin_mode q))
        as [b1 [m|]]. }
    destruct (HasPrefix (ToUpper q) "COMMIT") eqn:HC.
    { exists []. split; [|by left].
      unfold handleCommitSimple_monitored, Transaction.handleCommitSimple, Commit.
      simpl.
      by destruct (CommitTransaction engine (backend tm0) id) as [b1 [m|]]. }
    destruct (HasPrefix (ToUpper q) "ROLLBACK") eqn:HR.
    { unfold handleRollbackSimple_monitored, Transaction.handleRollbackSimple, Rollback.
      simpl.
      destruct (RollbackTransaction engine (backend tm0) id) as [b1 [m|]];
        simpl.
      - eexists. split; [by rewrite <- app_assoc|]. right. split; [done|].
        by exists m.
      - exists []. split; [done|by left]. }
    exists []. split; [|by left].
    destruct (HasPrefix (ToUpper q) "SELECT").
    { unfold handleSelectSimple. simpl.
      by destruct (Query engine (backend tm0) id q []) as [b1 [v|m]]. }
    destruct (HasPrefix (ToUpper q) "INSERT" || HasPrefix (ToUpper q) "UPDATE"
              || HasPrefix (ToUpper q) "DELETE").
    { unfold handleDMLSimple. simpl.
      by destruct (Exec engine (backend tm0) id q []) as [b1 [v|m]]. }
    destruct (HasPrefix (ToUpper q) "CREATE" || HasPrefix (ToUpper q) "DROP"
              || HasPrefix (ToUpper q) "ALTER").
    { unfold handleDDLSimple. simpl.
      by destruct (Exec engine (backend tm0) id q []) as [b1 [v|m]]. }
    unfold handleGenericSimple. simpl.
    destruct (Query engine (backend tm0) id q []) as [b1 [v|m]]; simpl;
      [done|].
    by destruct (Exec engine b1 id q []) as [b2 r].
  - unfold truncateQuerySimple.
    destruct (100 <? String.length q) eqn:Hlen; [|done].
    apply Nat.ltb_lt in Hlen.
    rewrite length_append, length_substring_0, Nat.min_l by lia.
    reflexivity.
  - unfold truncateQuerySimple.
    assert (Hpre : ∀ n s, HasPrefix s (String.substring 0 n s) = true).
    { intros n. induction n as [|n IH]; intros [|c s]; simpl; try done.
      by rewrite Ascii.eqb_refl. }
    destruct (100 <? String.length q) eqn:Hlen; [|apply Hpre].
    assert (Hsub : ∀ n a b, n ≤ String.length a →
              String.substring 0 n (a +:+ b) = String.substring 0 n a).
    { intros n. induction n as [|n IH]; intros a b Hn.
      - by destruct (a +:+ b), a.
      - destruct a as [|c a]; simpl in Hn; [lia|].
        rewrite append_cons. simpl. f_equal. apply IH. lia. }
    apply Nat.ltb_lt in Hlen.
    rewrite Hsub by (rewrite length_substring_0; lia).
    assert (Hidem : ∀ n s, String.substring 0 n (String.substring 0 n s)
                           = String.substring 0 n s).
    { intros n. induction n as [|n IH]; intros [|c s]; simpl; try done.
      by rewrite IH. }
    rewrite Hidem. apply Hpre.
Qed.

End WithEngine.

#[local] Existing Instance no_tables.
#[local] Existing Instance in_listing_order.

(** The tracking is one-sided: a ROLLBACK the engine refuses leaves the
    transaction with the connection, and the monitor has let go of it. *)
Example rollback_refused_untracked :
  let sv :=
    server_run scripted
      (new_server [ROk 0; RErr "disk I/O error"] "deferred")
      [SvRequest (mkRequest "c1" "begin" 0 1 2 None);
       SvRequest (mkRequest "c1" "rollback" 3 4 5 None)] in
  status_of (server_backend sv) "c1" = TxInTransaction
  ∧ transactions (txMonitor sv) !! "c1" = None
  ∧ RolledBackTx (GetMetrics (txMonitor sv)) = 1%Z.
Proof. vm_compute. done. Qed.

(** A savepoint is not what a text starting with ROLLBACK asks for: the
    whole transaction is rolled back. *)
Example rollback_to_savepoint :
  let sv :=
    server_run scripted (new_server [ROk 0; ROk 0] "deferred")
      [SvRequest (mkRequest "c1" "BEGIN" 0 1 2 None);
       SvRequest (mkRequest "c1" "  Rollback to savepoint s1 " 3 4 5 None)] in
  (calls (server_backend sv)).*1 = [CBegin; CRollback 0]
  ∧ status_of (server_backend sv) "c1" = TxIdle.
Proof. vm_compute. done. Qed.

(** A COMMIT after a no-break space, in lower case, is a COMMIT. *)
Lemma only_commit_flags_upload_example :
  let sv :=
    server_run scripted (new_server [ROk 0; ROk 0] "deferred")
      [SvRequest (mkRequest "c1" "BEGIN" 0 1 2 None)] in
  let res :=
    executeQuerySimple scripted sv
      (mkRequest "c1" (nbsp +:+ "commit") 3 4 5 None) in
  uploadPending (txManager (handler sv)) = false
  ∧ uploadPending (txManager (handler res.1)) = true
  ∧ uploadChan (txManager (handler res.1)) = mkChan 1 [true].
Proof.
  intros sv res.
  destruct (only_commit_flags_upload scripted sv
              (mkRequest "c1" (nbsp +:+ "commit") 3 4 5 None))
    as (_ & Hcommit & _).
  split; [reflexivity|]. apply Hcommit. split; reflexivity.
Defined.

(** A text of a no-break space and a tab is no request. *)
Lemma request_logging_example :
  let sv := new_server (E := list Reply) [] "deferred" in
  executeQuerySimple scripted sv
    (mkRequest "c1" (nbsp +:+ String (ascii_of_nat 9) "") 0 1 2 None)
  = (sv, None).
Proof.
  intros sv.
  destruct (request_logging scripted sv
              (mkRequest "c1" (nbsp +:+ String (ascii_of_nat 9) "") 0 1 2 None))
    as (Hblank & _).
  by apply Hblank.
Defined.

End Wire.

(** ** The cache and the upload worker ([DatabaseCache.Upload],
       [ShouldSync], [Cleanup], [uploadWorker], [ForceUpload]) *)

Module Sync.
Import GoStrings Backend Transaction Storage Monitor.

(** [time.Minute], in nanoseconds. *)
Definition Minute : Z := 60000000000.

(** [DatabaseCache.Upload] over the [Upload] of its storage: [now] is
    what [time.Now()] reads.  The bytes handed to the storage are those
    of the local file; [os.Open] gives a file whenever it gives no
    error. *)
Definition cache_Upload (c : DatabaseCache)
    (upload : FS → string → list Byte.byte → FS * Storage.error)
    (fs : FS) (now : Z) (open_fault : fault)
  : FS * DatabaseCache * Storage.error :=
  let '(file, err) := os_Open fs (localPath c) open_fault in
  match err with
  | Some e =>
      (fs, c, Some ("failed to open local database file: " +:+ Error e))
  | None =>
      let '(fs', err) := upload fs (dbName c) (default [] file) in
      match err with
      | Some m => (fs', c, Some ("failed to upload database: " +:+ m))
      | None => (fs', set_lastSync c now, None)
      end
  end.

(** [DatabaseCache.ShouldSync]: [now] is the clock [time.Since] reads. *)
Definition ShouldSync (c : DatabaseCache) (now : Z) : bool :=
  (wrap64 (ttlMinutes c * Minute) <? Sub now (lastSync c))%Z.

(** [DatabaseCache.Cleanup]. *)
Definition Cleanup (c : DatabaseCache) (fs : FS) (remove_fault : fault)
  : FS * Storage.error :=
  let '(fs', err) := os_Remove fs (localPath c) remove_fault in
  match err with
  | Some e => if IsNotExist e then (fs', None) else (fs', Some (Error e))
  | None => (fs', None)
  end.

(** What one run of the worker's upload meets: the faults of the
    operating system and the readings of the clock, by [ShouldSync], by
    the cache once the upload is done, and by the manager after that. *)
Record UploadRun := mkUploadRun {
  up_open : fault;
  up_faults : UploadFaults;
  up_now0 : Z;
  up_now1 : Z;
  up_now2 : Z
}.

(** What wakes the worker up: a signal on the upload channel, the
    ticker, or the closing of the stop channel. *)
Inductive Wake := WSignal | WTick | WStop.

Section WithEngine.

Context {tables : Unicode} {ranges : MapRange}.
Context {E : Type} (engine : E → EngineCall → E * Reply).
Context (Join : string → string → string).

Abbreviation TransactionManager := (Transaction.TransactionManager (E := E)).

(** [ForceUpload], given what [tm.cache.Upload] returned and the time. *)
Definition ForceUpload (tm : TransactionManager) (upload : Storage.error)
    (now : Z) : TransactionManager * Storage.error :=
  match upload with
  | Some m => (tm, Some ("failed to force upload: " +:+ m))
  | None => (mkTM (backend tm) now false (uploadChan tm), None)
  end.

(** The manager with its cache, over a local blob store, and the files
    of the machine. *)
Record SyncState := mkSync {
  manager : TransactionManager;
  cache : DatabaseCache;
  store : LocalStorage;
  files : FS
}.

(** Whether a wake-up of the worker reaches [performUpload]. *)
Definition reaches_upload (st : SyncState) (w : Wake) (r : UploadRun)
  : bool :=
  match w with
  | WSignal => bool_decide (chan_buf (uploadChan (manager st)) ≠ [])
  | WTick => uploadPending (manager st) || ShouldSync (cache st) (up_now0 r)
  | WStop => true
  end.

(** The manager after a wake-up of the worker whose upload returned
    [err]: a turn of the loop, or the last upload at the stop. *)
Definition woken (st : SyncState) (w : Wake) (r : UploadRun)
    (err : Storage.error) : TransactionManager :=
  match w with
  | WSignal => worker_step (manager st) (EvSignal err (up_now2 r))
  | WTick =>
      worker_step (manager st)
        (EvTick (ShouldSync (cache st) (up_now0 r)) err (up_now2 r))
  | WStop => (performUpload (manager st) err (up_now2 r)).1
  end.

(** One wake-up of [uploadWorker], the upload being the cache's over
    the local store. *)
Definition worker_wake (st : SyncState) (w : Wake) (r : UploadRun)
  : SyncState :=
  if reaches_upload st w r
  then
    let '(fs', c', err) :=
      cache_Upload (cache st)
        (λ fs name data, Upload Join (store st) fs name data (up_faults r))
        (files st) (up_now1 r) (up_open r) in
    mkSync (woken st w r err) c' (store st) fs'
  else st.

(** An event whose upload, if it comes to one, fails. *)
Definition upload_fails (ev : Event) : Prop :=
  match ev with
  | EvSignal None _ | EvTick _ None _ => False
  | _ => True
  end.

(** *** The pending flag *)

Lemma tm_step_pending (tm : TransactionManager) (ev : Event) :
  upload_fails ev → uploadPending tm = true →
  uploadPending (tm_step engine tm ev) = true
  ∧ (lastUpload (tm_step engine tm ev) = lastUpload tm).
Proof.
  intros Hev Hp.
  destruct ev as [id mode|id|id|op|upload now|shouldSync upload now]; simpl.
  - unfold Begin. by destruct (BeginTransaction _ _ _ _).
  - unfold Commit. by destruct (CommitTransaction _ _ _) as [b [m|]].
  - unfold Rollback. by destruct (RollbackTransaction _ _ _).
  - done.
  - destruct (chan_buf (uploadChan tm)); [done|].
    by destruct upload.
  - rewrite Hp. simpl. by destruct upload.
Qed.

(** X18. Once the pending flag is set, by a commit, it stays set and the
    time of the last upload stays what it was through every request and
    every wake-up of the worker whose upload fails; and the next tick
    retries the upload whatever [ShouldSync] answers: when that upload
    succeeds the flag is cleared and the time recorded. *)
Theorem pending_until_uploaded (tm : TransactionManager)
    (evs : list Event) :
  uploadPending tm = true → Forall upload_fails evs →
  let tm' := tm_run engine tm evs in
  uploadPending tm' = true
  ∧ lastUpload tm' = lastUpload tm
  ∧ ∀ shouldSync now,
      uploadPending (worker_step tm' (EvTick shouldSync None now)) = false
      ∧ lastUpload (worker_step tm' (EvTick shouldSync None now)) = now.
Proof.
  intros Hp Hevs.
  assert (H : uploadPending (tm_run engine tm evs) = true
              ∧ lastUpload (tm_run engine tm evs) = lastUpload tm).
  { unfold tm_run. revert tm Hp.
    induction Hevs as [|ev evs Hev Hevs IH]; intros tm Hp; simpl; [done|].
    destruct (tm_step_pending tm ev Hev Hp) as [Hp' Hl].
    destruct (IH _ Hp') as [? ?]. split; [done|congruence]. }
  destruct H as [Hp' Hl]. simpl. split; [done|]. split; [done|].
  intros shouldSync now. by rewrite Hp'.
Qed.

(** *** From the local file to the store *)

(** [Upload] touches the file of the name and its temporary file only. *)
Lemma Upload_other (s : LocalStorage) (fs : FS) (name : string)
    (data : list Byte.byte) (f : UploadFaults) (p : string) :
  p ≠ db_path Join s name → p ≠ db_path Join s name +:+ ".tmp" →
  (Upload Join s fs name data f).1 !! p = fs !! p.
Proof.
  intros Hp Ht. unfold Upload, Upload_trace.
  set (path := db_path Join s name) in *. set (tmp := path +:+ ".tmp") in *.
  unfold os_Create. destruct (create_fault f) as [m|]; [done|].
  set (fs1 := <[tmp := []]> fs).
  assert (H1 : fs1 !! p = fs !! p) by (by apply lookup_insert_ne).
  pose proof (io_Copy_other fs1 fs1 tmp p data (copy_fault f)
                (not_eq_sym Ht)) as [H2 _].
  destruct (io_Copy fs1 tmp data (copy_fault f)) as [[writes fs2] err].
  simpl in H2.
  assert (Hrm : ∀ fs', (os_Remove fs' tmp (remove_fault f)).1 !! p = fs' !! p).
  { intros fs'. by apply os_Remove_other. }
  assert (Hlast : ∀ (x y : FS) l, List.last (x :: l ++ [y]) fs = y).
  { intros x y l. by rewrite app_comm_cons, List.last_last. }
  destruct err as [e|]; cbv beta iota zeta; cbn [fst].
  { rewrite Hlast, Hrm. congruence. }
  destruct (sync_fault f) as [m|]; cbv beta iota zeta; cbn [fst].
  { rewrite Hlast, Hrm. congruence. }
  unfold os_Rename.
  destruct (rename_fault f) as [m|]; cbv beta iota zeta; cbn [fst].
  { rewrite Hlast, Hrm. congruence. }
  destruct (fs2 !! tmp) as [content|]; cbv beta iota zeta; cbn [fst];
    rewrite Hlast.
  - rewrite lookup_insert_ne, lookup_delete_ne by done. congruence.
  - rewrite Hrm. congruence.
Qed.

Lemma Upload_result (s : LocalStorage) (fs fs' : FS) (name : string)
    (data : list Byte.byte) (f : UploadFaults) (err : Storage.error) :
  Upload Join s fs name data f = (fs', err) →
  match err with
  | None => fs' !! db_path Join s name = Some data
  | Some _ => fs' !! db_path Join s name = fs !! db_path Join s name
  end.
Proof.
  pose proof (Upload_trace_shape Join s fs name data f) as Hshape.
  unfold Upload.
  destruct (Upload_trace Join s fs name data f) as [states e].
  cbv beta iota zeta in Hshape. intros [= <- <-].
  destruct Hshape as [[-> [m ->]]|(pre & final & -> & _ & Hfinal)]; [done|].
  rewrite List.last_last. destruct e as [m|]; [done|].
  subst final. apply lookup_insert_eq.
Qed.

Lemma woken_spec (st : SyncState) (w : Wake) (r : UploadRun) :
  reaches_upload st w r = true →
  ∀ err : Storage.error,
    backend (woken st w r err) = backend (manager st)
    ∧ match err with
      | None => uploadPending (woken st w r err) = false
                ∧ lastUpload (woken st w r err) = up_now2 r
      | Some _ =>
          uploadPending (woken st w r err) = uploadPending (manager st)
          ∧ lastUpload (woken st w r err) = lastUpload (manager st)
      end.
Proof.
  intros Hreach err. unfold woken. destruct w; simpl in *.
  - apply bool_decide_eq_true in Hreach.
    destruct (chan_buf (uploadChan (manager st))); [done|].
    by destruct err.
  - rewrite Hreach. by destruct err.
  - by destruct err.
Qed.

(** X19. When the worker's upload runs, after a commit has queued its
    signal, at a tick that finds the flag set or the cache stale, or at
    the stop, the bytes of the local database file go to the store under
    the cache's name: if the upload succeeds, a download of the name
    reads exactly the bytes of the local file, the flag is cleared and
    both times are recorded; if it fails, the store keeps under the name
    what it had, the flag, the time of the last upload and the time of
    the last sync stay as they were.  Either way the local file is
    untouched.  The local file is assumed to lie outside the store. *)
Theorem upload_reaches_store (st : SyncState) (w : Wake) (r : UploadRun) :
  let path := db_path Join (store st) (dbName (cache st)) in
  let st' := worker_wake st w r in
  localPath (cache st) ≠ path → localPath (cache st) ≠ path +:+ ".tmp" →
  reaches_upload st w r = true →
  files st' !! localPath (cache st) = files st !! localPath (cache st)
  ∧ backend (manager st') = backend (manager st)
  ∧ (match files st !! localPath (cache st) with
     | Some B =>
         up_open r = None →
         match (Upload Join (store st) (files st) (dbName (cache st)) B
                  (up_faults r)).2 with
         | None =>
             Download Join (store st) (files st') (dbName (cache st)) None
             = (Some B, None)
             ∧ uploadPending (manager st') = false
             ∧ lastUpload (manager st') = up_now2 r
             ∧ lastSync (cache st') = up_now1 r
         | Some _ =>
             files st' !! path = files st !! path
             ∧ uploadPending (manager st') = uploadPending (manager st)
             ∧ lastUpload (manager st') = lastUpload (manager st)
             ∧ cache st' = cache st
         end
     | None =>
         files st' = files st
         ∧ uploadPending (manager st') = uploadPending (manager st)
         ∧ lastUpload (manager st') = lastUpload (manager st)
         ∧ cache st' = cache st
     end)
  ∧ (∀ fs name data,
       (Upload Join (store st) fs name data no_faults).2 = None).
Proof.
  intros path st' Hp Ht Hreach.
  assert (Hno : ∀ fs name data,
            (Upload Join (store st) fs name data no_faults).2 = None).
  { intros fs name data. unfold Upload, Upload_trace. simpl.
    by rewrite lookup_insert_eq. }
  cut (∀ P Q R S : Prop, S → P ∧ Q ∧ R → P ∧ Q ∧ R ∧ S); [|tauto].
  intros Hcut. apply Hcut; [exact Hno|]. clear Hcut Hno.
  unfold st', worker_wake. rewrite Hreach.
  unfold cache_Upload, os_Open.
  pose proof (woken_spec st w r Hreach) as Hstep.
  destruct (up_open r) as [m|] eqn:Hopen.
  { simpl. destruct (Hstep (Some ("failed to open local database file: "
                                  +:+ m))) as [Hb [Hpend Hlast]].
    split; [done|]. split; [done|].
    destruct (files st !! localPath (cache st)); [done|by repeat split]. }
  destruct (files st !! localPath (cache st)) as [B|] eqn:Hlocal; simpl.
  2:{ destruct (Hstep (Some "failed to open local database file: no such file or directory"))
        as [Hb [Hpend Hlast]].
      rewrite Hlocal. by repeat split. }
  pose proof (Upload_other (store st) (files st) (dbName (cache st)) B
                (up_faults r) _ Hp Ht) as Hother.
  pose proof (Upload_result (store st) (files st)) as Hres.
  destruct (Upload Join (store st) (files st) (dbName (cache st)) B
              (up_faults r)) as [fs' [m|]] eqn:Hup; simpl; simpl in Hother.
  - specialize (Hres _ _ _ _ _ Hup). simpl in Hres.
    destruct (Hstep (Some ("failed to upload database: " +:+ m)))
      as [Hb [Hpend Hlast]].
    split; [congruence|]. split; [done|]. intros _. by repeat split.
  - specialize (Hres _ _ _ _ _ Hup). simpl in Hres.
    destruct (Hstep None) as [Hb [Hpend Hlast]].
    split; [congruence|]. split; [done|]. intros _.
    split; [|by repeat split].
    unfold Download, os_Open. by rewrite Hres.
Qed.

End WithEngine.

#[local] Existing Instance no_tables.
#[local] Existing Instance in_listing_order.


(** A commit has queued its signal; the worker wakes up and the disk
    lets the upload through. *)
Lemma upload_reaches_store_example :
  let B := [Byte.x53; Byte.x51; Byte.x4c] in
  let tm := tm_run scripted
              (NewTransactionManager (NewSQLiteBackend [ROk 0; ROk 0] ""))
              [EvBegin "c1" ""; EvCommit "c1"] in
  let s := mkLocalStorage "/data" in
  let c := mkCache (local_blob slash_join s None)
             "/tmp/appdb-1700000000.sqlite" 0 5 "appdb" in
  let st := mkSync tm c s {[ "/tmp/appdb-1700000000.sqlite" := B ]} in
  let st' := worker_wake slash_join st WSignal
               (mkUploadRun None no_faults 10 11 12) in
  files st' = {[ "/tmp/appdb-1700000000.sqlite" := B;
                 "/data/appdb.sqlite" := B ]}
  ∧ uploadPending (manager st') = false
  ∧ files st' !! localPath (cache st) = files st !! localPath (cache st).
Proof.
  intros B tm s c st st'. split; [by vm_compute|]. split; [by vm_compute|].
  refine (proj1 (upload_reaches_store slash_join st WSignal
                   (mkUploadRun None no_faults 10 11 12) _ _ _)).
  - by vm_compute.
  - by vm_compute.
  - by vm_compute.
Defined.

(** A commit, a signal whose upload fails, an idle rollback, a tick
    whose upload fails. *)
Lemma pending_until_uploaded_example :
  let tm := tm_run scripted
              (NewTransactionManager (NewSQLiteBackend [ROk 0; ROk 0] ""))
              [EvBegin "c1" ""; EvCommit "c1"] in
  let tm' := tm_run scripted tm
               [EvSignal (Some "disk full") 7; EvRollback "c1";
                EvTick false (Some "disk full") 9] in
  uploadPending tm' = true
  ∧ lastUpload tm' = 0%Z
  ∧ ∀ shouldSync now,
      uploadPending (worker_step tm' (EvTick shouldSync None now)) = false
      ∧ lastUpload (worker_step tm' (EvTick shouldSync None now)) = now.
Proof.
  intros tm tm'.
  apply (pending_until_uploaded scripted tm
           [EvSignal (Some "disk full") 7; EvRollback "c1";
            EvTick false (Some "disk full") 9]).
  - reflexivity.
  - repeat constructor.
Defined.

End Sync.

(** ** Listing the databases of a store ([List] of the three backends) *)

Module Listing.
Import GoStrings Storage.

(** The loop of [filepath.Ext]: it walks back from the last byte of the
    path, stops with nothing at a separator and with the rest of the path
    at a dot.  [back] holds the bytes still to visit, the last one first,
    and [seen] the bytes walked over. *)
Fixpoint ext_scan (back seen : list ascii) : list ascii :=
  match back with
  | [] => []
  | c :: back' =>
      if Ascii.eqb c "/" then []
      else if Ascii.eqb c "." then c :: seen
      else ext_scan back' (c :: seen)
  end.

(** [filepath.Ext], where the separator is the slash. *)
Definition Ext (path : string) : string :=
  String.string_of_list_ascii (ext_scan (rev (String.list_ascii_of_string path)) []).

(** [name[:len(name)-7]]; the callers make sure of the seven bytes. *)
Definition cut_suffix (name : string) : string :=
  String.substring 0 (String.length name - 7) name.

(** An entry of a directory, as [os.ReadDir] gives it. *)
Record DirEntry := mkDirEntry { Name : string; IsDir : bool }.

(** [LocalStorage.List], given what [os.ReadDir(s.basePath)] returned. *)
Definition LocalStorage_List (entries : list DirEntry)
    (err : option os_error) : list string * Storage.error :=
  match err with
  | Some e => ([], Some ("failed to read directory: " +:+ Error e))
  | None =>
      (omap (λ entry,
               if negb (IsDir entry) && String.eqb (Ext (Name entry)) ".sqlite"
               then Some (cut_suffix (Name entry))
               else None)
         entries,
       None)
  end.

(** [S3Storage.getKey]. *)
Definition getKey (prefix dbName : string) : string :=
  prefix +:+ dbName +:+ ".sqlite".

(** [S3Storage.List], given the keys [ListObjectsV2] returned under the
    prefix, or its error. *)
Definition S3Storage_List (prefix : string) (keys : list string)
    (err : Storage.error) : list string * Storage.error :=
  match err with
  | Some m => ([], Some ("failed to list S3 objects: " +:+ m))
  | None =>
      (omap (λ key,
               if String.length prefix + 7 <? String.length key
               then Some (String.substring (String.length prefix)
                            (String.length key - 7 - String.length prefix)
                            key)
               else None)
         keys,
       None)
  end.

(** [AzureStorage.getBlobName]. *)
Definition getBlobName (dbName : string) : string := dbName +:+ ".sqlite".

(** The names [AzureStorage.List] keeps of one page; a blob may come
    without a name. *)
Definition page_names (blobs : list (option string)) : list string :=
  omap (λ blob,
          match blob with
          | None => None
          | Some name =>
              if (7 <? String.length name)
                 && String.eqb
                      (String.substring (String.length name - 7) 7 name)
                      ".sqlite"
              then Some (cut_suffix name)
              else None
          end)
    blobs.

(** [AzureStorage.List], given what the pager returns page after page:
    the blobs of the page, or an error. *)
Fixpoint AzureStorage_pages (pages : list (list (option string) + string))
    (databases : list string) : list string * Storage.error :=
  match pages with
  | [] => (databases, None)
  | inr m :: _ => ([], Some ("failed to list Azure blobs: " +:+ m))
  | inl blobs :: pages' =>
      AzureStorage_pages pages' (databases ++ page_names blobs)
  end.

Definition AzureStorage_List (pages : list (list (option string) + string))
  : list string * Storage.error :=
  AzureStorage_pages pages [].

(** *** Strings as lists of bytes *)

Lemma list_ascii_app (a b : string) :
  String.list_ascii_of_string (a +:+ b)
  = String.list_ascii_of_string a ++ String.list_ascii_of_string b.
Proof.
  induction a as [|c a IH]; [by rewrite append_nil_l|].
  rewrite append_cons. simpl. by rewrite IH.
Qed.

Lemma string_of_list_app (l1 l2 : list ascii) :
  String.string_of_list_ascii (l1 ++ l2)
  = String.string_of_list_ascii l1 +:+ String.string_of_list_ascii l2.
Proof.
  induction l1 as [|c l1 IH]; simpl; [by rewrite append_nil_l|].
  by rewrite append_cons, IH.
Qed.

Lemma length_app_string (a b : string) :
  String.length (a +:+ b) = String.length a + String.length b.
Proof.
  induction a as [|c a IH]; [by rewrite append_nil_l|].
  rewrite append_cons. simpl. by rewrite IH.
Qed.

Lemma substring_prefix (a b : string) :
  String.substring 0 (String.length a) (a +:+ b) = a.
Proof.
  induction a as [|c a IH].
  - rewrite append_nil_l. by destruct b.
  - rewrite append_cons. simpl. by rewrite IH.
Qed.

Lemma substring_skip (a b : string) (n : nat) :
  String.substring (String.length a) n (a +:+ b) = String.substring 0 n b.
Proof.
  induction a as [|c a IH]; [by rewrite append_nil_l|].
  rewrite append_cons. simpl. apply IH.
Qed.

Lemma substring_all (s : string) :
  String.substring 0 (String.length s) s = s.
Proof. induction s as [|c s IH]; simpl; [done|by rewrite IH]. Qed.

Lemma cut_suffix_sqlite (n : string) : cut_suffix (n +:+ ".sqlite") = n.
Proof.
  unfold cut_suffix. rewrite length_app_string.
  replace (String.length n + String.length ".sqlite" - 7)
    with (String.length n) by (simpl; lia).
  apply substring_prefix.
Qed.

Lemma append_inj_l (a b s : string) : a +:+ s = b +:+ s → a = b.
Proof.
  intros H.
  assert (Hl : String.list_ascii_of_string a = String.list_ascii_of_string b).
  { apply (f_equal String.list_ascii_of_string) in H.
    rewrite !list_ascii_app in H. by apply app_inv_tail in H. }
  apply (f_equal String.string_of_list_ascii) in Hl.
  by rewrite !String.string_of_list_ascii_of_string in Hl.
Qed.

(** *** The extension of a path *)

Lemma ext_scan_suffix (back seen : list ascii) :
  ext_scan back seen ≠ [] →
  ∃ front, rev back ++ seen = front ++ ext_scan back seen.
Proof.
  revert seen. induction back as [|c back IH]; intros seen; simpl; [done|].
  destruct (Ascii.eqb c "/"); [done|].
  destruct (Ascii.eqb c ".").
  - intros _. exists (rev back). by rewrite <- app_assoc.
  - intros Hne. destruct (IH _ Hne) as [front Hf]. exists front.
    by rewrite <- app_assoc.
Qed.

(** The extension, when there is one, is the end of the path. *)
Lemma Ext_suffix (path : string) :
  Ext path ≠ "" → ∃ front, path = front +:+ Ext path.
Proof.
  unfold Ext. intros Hne.
  destruct (ext_scan_suffix (rev (String.list_ascii_of_string path)) []) as [f Hf].
  { intros Hnil. by rewrite Hnil in Hne. }
  rewrite rev_involutive, app_nil_r in Hf.
  exists (String.string_of_list_ascii f).
  rewrite <- string_of_list_app, <- Hf.
  by rewrite String.string_of_list_ascii_of_string.
Qed.

Lemma Ext_sqlite (name : string) :
  Ext name = ".sqlite" ↔ ∃ n, name = n +:+ ".sqlite".
Proof.
  split.
  - intros H. destruct (Ext_suffix name) as [front Hf]; [by rewrite H|].
    exists front. by rewrite H in Hf.
  - intros [n ->]. unfold Ext. by rewrite list_ascii_app, rev_app_distr.
Qed.

Lemma Ext_tmp (name : string) : Ext (name +:+ ".sqlite.tmp") = ".tmp".
Proof. unfold Ext. by rewrite list_ascii_app, rev_app_distr. Qed.

(** *** The three listings *)

(** X20. [LocalStorage.List] lists a name exactly when the directory
    holds a file, not a directory, called by that name followed by
    [.sqlite]: so the temporary file of an upload under way is never
    listed, and a file called just [.sqlite] is listed under the empty
    name.  When the directory cannot be read the list is empty and the
    error is wrapped. *)
Theorem LocalStorage_List_names (entries : list DirEntry) :
  (∀ n, n ∈ (LocalStorage_List entries None).1
        ↔ mkDirEntry (n +:+ ".sqlite") false ∈ entries)
  ∧ (LocalStorage_List entries None).2 = None
  ∧ (∀ N isdir,
       LocalStorage_List [mkDirEntry (N +:+ ".sqlite.tmp") isdir] None
       = ([], None))
  ∧ (∀ e, LocalStorage_List entries (Some e)
          = ([], Some ("failed to read directory: " +:+ Error e))).
Proof.
  split; [|split; [done|split; [|done]]].
  - intros n. unfold LocalStorage_List. simpl.
    rewrite list_elem_of_omap. split.
    + intros ([name isdir] & Hin & Hf). simpl in Hf.
      destruct isdir; simpl in Hf; [done|].
      destruct (String.eqb_spec (Ext name) ".sqlite") as [He|]; [|done].
      apply Ext_sqlite in He as [n' ->]. rewrite cut_suffix_sqlite in Hf.
      by injection Hf as ->.
    + intros Hin. eexists. split; [exact Hin|]. simpl.
      assert (He : Ext (n +:+ ".sqlite") = ".sqlite")
        by (apply Ext_sqlite; by exists n).
      rewrite He. simpl. by rewrite cut_suffix_sqlite.
  - intros N isdir. unfold LocalStorage_List. simpl.
    rewrite Ext_tmp. by rewrite andb_false_r.
Qed.

Lemma S3_cut (prefix front tail : string) :
  String.length tail = 7 → front ≠ "" →
  (if String.length prefix + 7 <? String.length (prefix +:+ front +:+ tail)
   then Some (String.substring (String.length prefix)
                (String.length (prefix +:+ front +:+ tail) - 7
                 - String.length prefix)
                (prefix +:+ front +:+ tail))
   else None) = Some front.
Proof.
  intros Ht Hf. rewrite !length_app_string, Ht.
  assert (0 < String.length front) by (destruct front; [done|simpl; lia]).
  destruct (Nat.ltb_spec (String.length prefix + 7)
              (String.length prefix + (String.length front + 7))); [|lia].
  f_equal. rewrite substring_skip.
  replace (String.length prefix + (String.length front + 7) - 7
           - String.length prefix) with (String.length front) by lia.
  apply substring_prefix.
Qed.

(** X21. [S3Storage.List] takes the prefix and the last seven bytes off
    every key that has more than seven bytes after the prefix, whatever
    those seven bytes are: the keys [getKey] makes for names that are not
    empty come back as these names, in their order, the key of the empty
    name is skipped, and an object of another kind under the prefix is
    listed as a database.  When the listing fails the list is empty and
    the error is wrapped. *)
Theorem S3Storage_List_keys (prefix : string) :
  (∀ names, S3Storage_List prefix (getKey prefix <$> names) None
            = (filter (λ n, n ≠ "") names, None))
  ∧ (∀ front tail, String.length tail = 7 → front ≠ "" →
       S3Storage_List prefix [prefix +:+ front +:+ tail] None
       = ([front], None))
  ∧ (∀ keys m, S3Storage_List prefix keys (Some m)
               = ([], Some ("failed to list S3 objects: " +:+ m))).
Proof.
  split; [|split; [|done]].
  - intros names. unfold S3Storage_List. f_equal.
    induction names as [|n names IH]; [done|]. rewrite fmap_cons. simpl.
    destruct (decide (n = "")) as [->|Hn].
    + rewrite filter_cons_False by (by intros ?). unfold getKey at 1 2.
      rewrite append_nil_l, length_app_string. simpl.
      destruct (Nat.ltb_spec (String.length prefix + 7)
                  (String.length prefix + 7)); [lia|]. exact IH.
    + rewrite filter_cons_True by done. unfold getKey at 1 2 3.
      rewrite (S3_cut prefix n ".sqlite" eq_refl Hn). f_equal. exact IH.
  - intros front tail Ht Hf. unfold S3Storage_List. simpl.
    by rewrite (S3_cut prefix front tail Ht Hf).
Qed.

Lemma substring_split (k : nat) (s : string) :
  k ≤ String.length s →
  s = String.substring 0 k s
      +:+ String.substring k (String.length s - k) s.
Proof.
  revert s. induction k as [|k IH]; intros s Hk.
  - rewrite Nat.sub_0_r, substring_all.
    assert (String.substring 0 0 s = "") as -> by (by destruct s).
    by rewrite append_nil_l.
  - destruct s as [|c s]; simpl in *; [lia|].
    rewrite append_cons. f_equal. apply IH. lia.
Qed.

Lemma page_name_kept (name n : string) :
  (if (7 <? String.length name)
      && String.eqb (String.substring (String.length name - 7) 7 name)
           ".sqlite"
   then Some (cut_suffix name) else None) = Some n
  ↔ n ≠ "" ∧ name = n +:+ ".sqlite".
Proof.
  split.
  - destruct (Nat.ltb_spec 7 (String.length name)) as [Hlen|]; [|done].
    simpl.
    destruct (String.eqb_spec
                (String.substring (String.length name - 7) 7 name) ".sqlite")
      as [He|]; [|done].
    intros [= <-].
    pose proof (substring_split (String.length name - 7) name ltac:(lia))
      as Hs.
    replace (String.length name - (String.length name - 7)) with 7 in Hs
      by lia.
    rewrite He in Hs. unfold cut_suffix. split; [|done].
    intros Hnil. rewrite Hnil, append_nil_l in Hs. rewrite Hs in Hlen.
    simpl in Hlen. lia.
  - intros [Hn ->]. rewrite length_app_string.
    assert (0 < String.length n) by (destruct n; [done|simpl; lia]).
    destruct (Nat.ltb_spec 7 (String.length n + String.length ".sqlite"));
      [|simpl in *; lia].
    replace (String.length n + String.length ".sqlite" - 7)
      with (String.length n) by (simpl; lia).
    rewrite substring_skip. simpl. by rewrite cut_suffix_sqlite.
Qed.

Lemma AzureStorage_pages_ok (pages : list (list (option string) + string))
    (databases : list string) :
  (∀ m, inr m ∉ pages) →
  AzureStorage_pages pages databases
  = (databases ++ mjoin (omap (λ pg, match pg with
                                      | inl blobs => Some (page_names blobs)
                                      | inr _ => None
                                      end) pages),
     None).
Proof.
  revert databases.
  induction pages as [|[blobs|m] pages IH]; intros databases Hok; simpl.
  - by rewrite app_nil_r.
  - rewrite IH, app_assoc; [done|].
    intros m Hin. apply (Hok m). by right.
  - destruct (Hok m). by left.
Qed.

Lemma AzureStorage_pages_err (pages : list (list (option string) + string))
    (databases : list string) (m : string) :
  inr m ∈ pages →
  ∃ m', AzureStorage_pages pages databases
        = ([], Some ("failed to list Azure blobs: " +:+ m')).
Proof.
  revert databases.
  induction pages as [|[blobs|m1] pages IH]; intros databases Hin; simpl.
  - by apply elem_of_nil in Hin.
  - apply elem_of_cons in Hin as [Hin|Hin]; [done|]. by apply IH.
  - by exists m1.
Qed.

(** X22. [AzureStorage.List], when every page comes through, lists a
    name exactly when the name is not empty and some page holds a blob
    called by that name followed by [.sqlite]; the blobs [getBlobName]
    makes for names that are not empty come back as these names, in their
    order.  When a page fails, the names of the pages before it are
    dropped with the rest: the list is empty and the error is wrapped. *)
Theorem AzureStorage_List_blobs
    (pages : list (list (option string) + string)) :
  ((∀ m, inr m ∉ pages) →
   (AzureStorage_List pages).2 = None
   ∧ ∀ n, n ∈ (AzureStorage_List pages).1
          ↔ n ≠ "" ∧ ∃ blobs, inl blobs ∈ pages
                              ∧ Some (n +:+ ".sqlite") ∈ blobs)
  ∧ (∀ m, inr m ∈ pages →
       ∃ m', AzureStorage_List pages
             = ([], Some ("failed to list Azure blobs: " +:+ m')))
  ∧ (∀ names, AzureStorage_List [inl (Some ∘ getBlobName <$> names)]
              = (filter (λ n, n ≠ "") names, None)).
Proof.
  split; [|split].
  - intros Hok. unfold AzureStorage_List.
    rewrite (AzureStorage_pages_ok pages [] Hok). simpl. split; [done|].
    intros n. rewrite list_elem_of_join. split.
    + intros (l & Hn & Hl). apply list_elem_of_omap in Hl as ([blobs|m] & Hin & Hf);
        [|done].
      injection Hf as <-. unfold page_names in Hn.
      apply list_elem_of_omap in Hn as ([name|] & Hb & Hk); [|done].
      apply page_name_kept in Hk as [Hne ->].
      split; [done|]. by exists blobs.
    + intros (Hne & blobs & Hin & Hb). exists (page_names blobs). split.
      * unfold page_names. apply list_elem_of_omap.
        exists (Some (n +:+ ".sqlite")). split; [done|].
        by apply page_name_kept.
      * apply list_elem_of_omap. by exists (inl blobs).
  - intros m Hin. by apply (AzureStorage_pages_err pages [] m).
  - intros names. unfold AzureStorage_List. simpl. f_equal.
    induction names as [|n names IH]; [done|]. rewrite fmap_cons.
    unfold page_names in *. simpl.
    destruct (decide (n = "")) as [->|Hn].
    + rewrite filter_cons_False by (by intros ?). exact IH.
    + rewrite filter_cons_True by done.
      pose proof (proj2 (page_name_kept (getBlobName n) n) (conj Hn eq_refl))
        as Hk.
      rewrite Hk. f_equal. exact IH.
Qed.

(** The listings of the three backends do not agree on what is in a
    store: the empty name, and an object that is no database. *)
Example listings_differ :
  LocalStorage_List [mkDirEntry ".sqlite" false; mkDirEntry "notes.txt" false]
    None = ([""], None)
  ∧ S3Storage_List "db/" ["db/.sqlite"; "db/archive.tar.gz"] None
    = (["archive"], None)
  ∧ AzureStorage_List [inl [Some ".sqlite"; Some "archive.tar.gz"; None]]
    = ([], None).
Proof. vm_compute. done. Qed.

End Listing.
